(** * pvpgn bnetd: the SMTP dispatch engine ([src/bnetd/smtp.cpp])

    A shallow embedding of [smtp.cpp] and the properties of its
    specification.  The file follows the source top-down:

    - [size_t] arithmetic, C strings and raw [char] buffers;
    - [read_callback], the streaming payload source handed to libcurl, and
      libcurl's side of an upload;
    - the pieces of {fmt}, of the C library and of libcurl that the file
      calls: the chrono format, [fmt::format], [snprintf], handles with
      their options, the multi handle's completion queue, string lists;
    - the process-wide state ([is_curl_initialized], [smtp_thread],
      [handles_and_mutexes], the five configuration variables) inside a
      world that also holds the heap and the trace of calls that leave the
      program;
    - a state monad over that world, and in it [smtp_consumer],
      [smtp_config], [smtp_init], [smtp_reconfig], [smtp_cleanup] and
      [smtp_send_email];
    - the properties: the streaming source, the prepended headers,
      configuration, the server URL, submission while not initialized,
      shutdown, what the poller releases, and where a submission stops;
      then what a submission and a round of the poller leave alone, the
      invariants that hold between calls, a visit of the poller to one
      slot, and the error paths of a submission and of the initialisation.

    The server runs the poller on a thread of its own; here the functions
    run one after the other, each to its end, on one world. *)

From Stdlib Require Import ZArith List String Ascii Lia Bool DecimalString.
From stdpp Require Import gmap strings list fin_maps.

Local Open Scope Z_scope.

(** ** Machine integers *)

(** [std::size_t] on the 64-bit targets the server is built for. *)
Definition SIZE_WIDTH : Z := 64.
Definition SIZE_MODULUS : Z := 2 ^ SIZE_WIDTH.

(** Unsigned arithmetic wraps around. *)
Definition size_wrap (z : Z) : Z := z mod SIZE_MODULUS.

Definition is_size_t (z : Z) : Prop := 0 <= z < SIZE_MODULUS.

(** ** C strings and [char] buffers *)

Definition NUL : ascii := "000"%char.
Definition CR : ascii := "013"%char.
Definition LF : ascii := "010"%char.
Definition DQUOTE : ascii := "034"%char.

Definition CRLF : string := String CR (String LF EmptyString).
Definition dquote : string := String DQUOTE EmptyString.

(** [std::string::c_str()]: the characters followed by the terminator, so
    [length() + 1] bytes are readable. *)
Definition c_str (s : string) : list ascii := list_ascii_of_string s ++ [NUL].

(** Reading a [const char*] out of a [char] array: everything before the
    first terminator. *)
Fixpoint read_c_string (buf : list ascii) : string :=
  match buf with
  | [] => EmptyString
  | c :: rest => if Ascii.eqb c NUL then EmptyString else String c (read_c_string rest)
  end.

(** A [const char*] argument never holds a terminator inside its text. *)
Definition nul_free (s : string) : Prop :=
  forallb (fun c => negb (Ascii.eqb c NUL)) (list_ascii_of_string s) = true.

(** [std::memcpy (dst, src, n)].  Copying more than the source object holds,
    or more than the destination has room for, is undefined: [None]. *)
Definition memcpy (dst src : list ascii) (n : nat) : option (list ascii) :=
  if decide (n <= length src /\ n <= length dst)%nat
  then Some (take n src ++ drop n dst)
  else None.

(** ** The streaming payload source *)

Record read_callback_message : Type := mk_rcb {
  message : string;
  bytes_remaining : Z
}.

(** [read_callback (buffer, size, nitems, message)].  The result is the
    buffer as the call leaves it, the streaming state as the call leaves it,
    and the returned byte count. *)
Definition read_callback (buffer : list ascii) (size nitems : Z)
    (rcbmessage : read_callback_message)
    : option (list ascii * read_callback_message * Z) :=
  let buffer_size := size_wrap (size * nitems) in
  let copy_size :=
    if bytes_remaining rcbmessage <=? buffer_size
    then bytes_remaining rcbmessage else buffer_size in
  if 0 <? copy_size then
    match memcpy buffer (c_str (message rcbmessage)) (Z.to_nat copy_size) with
    | Some buffer' =>
        Some (buffer',
              mk_rcb (message rcbmessage)
                     (size_wrap (bytes_remaining rcbmessage - copy_size)),
              copy_size)
    | None => None
    end
  else Some (buffer, rcbmessage, copy_size).

(** What holds of every streaming state [smtp_send_email] creates and of
    every state [read_callback] turns it into: the count is a [size_t] and
    never exceeds the bytes [c_str()] exposes. *)
Definition rcb_wf (m : read_callback_message) : Prop :=
  is_size_t (bytes_remaining m) /\
  bytes_remaining m <= Z.of_nat (length (c_str (message m))).

(** The buffer libcurl passes has room for [size * nitems] bytes. *)
Definition buffer_fits (buffer : list ascii) (size nitems : Z) : Prop :=
  0 <= size /\ 0 <= nitems /\
  Z.of_nat (length buffer) = size * nitems /\ size * nitems < SIZE_MODULUS.

(** libcurl's side of the upload: it hands [read_callback] one buffer after
    another and sends what each call copied, until a call returns 0.  The
    buffers of the successive calls are [reqs 0], [reqs 1], ...; [calls]
    bounds how many calls are made before giving up on the answer. *)
Record read_request : Type := mk_req {
  rq_buffer : list ascii;
  rq_size : Z;
  rq_nitems : Z
}.

Definition rq_capacity (r : read_request) : Z := rq_size r * rq_nitems r.

Definition request_ok (r : read_request) : Prop :=
  buffer_fits (rq_buffer r) (rq_size r) (rq_nitems r) /\ 0 < rq_capacity r.

Inductive upload_result : Type :=
  | UploadDone (chunks : list (list ascii)) (final : read_callback_message)
  | UploadPending
  | UploadUndefined.

Fixpoint curl_upload (calls : nat) (reqs : nat -> read_request) (k : nat)
    (st : read_callback_message) : upload_result :=
  match calls with
  | O => UploadPending
  | S calls' =>
      let r := reqs k in
      match read_callback (rq_buffer r) (rq_size r) (rq_nitems r) st with
      | None => UploadUndefined
      | Some (buffer', st', n) =>
          if n =? 0 then UploadDone [] st'
          else
            match curl_upload calls' reqs (S k) st' with
            | UploadDone chunks final =>
                UploadDone (take (Z.to_nat n) buffer' :: chunks) final
            | other => other
            end
      end
  end.

(** The first [n] calls as libcurl sees them: for each, the bytes remaining
    when it was made and the value it returned. *)
Fixpoint read_calls (n : nat) (reqs : nat -> read_request) (k : nat)
    (st : read_callback_message) : list (Z * Z) :=
  match n with
  | O => []
  | S n' =>
      let r := reqs k in
      match read_callback (rq_buffer r) (rq_size r) (rq_nitems r) st with
      | None => []
      | Some (_, st', returned) =>
          (bytes_remaining st, returned) :: read_calls n' reqs (S k) st'
      end
  end.

(** ** Broken-down time and the chrono format of {fmt} *)

(** [struct tm], the fields the date format reads. *)
Record tm : Type := mk_tm {
  tm_sec : Z;
  tm_min : Z;
  tm_hour : Z;
  tm_mday : Z;
  tm_mon : Z;
  tm_year : Z;
  tm_wday : Z;
  tm_gmtoff : Z
}.

Definition digit_char (d : Z) : ascii := ascii_of_nat (48 + Z.to_nat (d mod 10)).

(** {fmt}'s [write2]: the value modulo 100 as two digits. *)
Definition write2 (v : Z) : string :=
  String (digit_char (v mod 100 / 10)) (String (digit_char (v mod 100)) EmptyString).

Definition string_of_Z (z : Z) : string := NilZero.string_of_int (Z.to_int z).

Definition tm_wday_short_name (wday : Z) : string :=
  match wday with
  | 0 => "Sun" | 1 => "Mon" | 2 => "Tue" | 3 => "Wed"
  | 4 => "Thu" | 5 => "Fri" | 6 => "Sat"
  | _ => "???"
  end%string.

Definition tm_mon_short_name (mon : Z) : string :=
  match mon with
  | 0 => "Jan" | 1 => "Feb" | 2 => "Mar" | 3 => "Apr"
  | 4 => "May" | 5 => "Jun" | 6 => "Jul" | 7 => "Aug"
  | 8 => "Sep" | 9 => "Oct" | 10 => "Nov" | 11 => "Dec"
  | _ => "???"
  end%string.

(** [%Y]: four digits for the years 0..9999, plain decimal otherwise. *)
Definition write_year (year : Z) : string :=
  if (0 <=? year) && (year <? 10000)
  then write2 (year / 100) +:+ write2 (year mod 100)
  else string_of_Z year.

(** [%z]: sign, hours and minutes of the offset from UTC in seconds. *)
Definition write_utc_offset (offset : Z) : string :=
  let sign := if offset <? 0 then "-" else "+" in
  let minutes := Z.abs offset / 60 in
  (sign +:+ write2 (minutes / 60) +:+ write2 (minutes mod 60))%string.

(** One conversion specifier of a chrono format. *)
Definition format_tm_conversion (c : ascii) (t : tm) : option string :=
  match c with
  | "a"%char => Some (tm_wday_short_name (tm_wday t))
  | "b"%char => Some (tm_mon_short_name (tm_mon t))
  | "d"%char => Some (write2 (tm_mday t))
  | "Y"%char => Some (write_year (1900 + tm_year t))
  | "T"%char =>
      Some (write2 (tm_hour t) +:+ ":" +:+ write2 (tm_min t) +:+ ":" +:+ write2 (tm_sec t))
  | "z"%char => Some (write_utc_offset (tm_gmtoff t))
  | "%"%char => Some "%"%string
  | _ => None
  end.

(** A chrono format specification applied to a [tm]: literal characters are
    copied, [%x] is converted; an unknown or dangling [%] is a format error. *)
Fixpoint format_tm (spec : string) (t : tm) : option string :=
  match spec with
  | EmptyString => Some EmptyString
  | String "%" EmptyString => None
  | String "%" (String c rest) =>
      match format_tm_conversion c t, format_tm rest t with
      | Some piece, Some tail => Some (piece +:+ tail)
      | _, _ => None
      end
  | String c rest =>
      match format_tm rest t with
      | Some tail => Some (String c tail)
      | None => None
      end
  end.

(** ** [fmt::format] *)

Inductive fmt_arg : Type :=
  | ArgString (s : string)
  | ArgTm (t : tm).

(** The text between the braces of a replacement field: empty, or a colon
    and a format specification. *)
Definition format_field (field : string) (a : fmt_arg) : option string :=
  match field, a with
  | EmptyString, ArgString s => Some s
  | String ":" spec, ArgTm t => format_tm spec t
  | _, _ => None
  end.

(** The format string is read left to right.  [field] is [None] in literal
    text and [Some acc] inside a replacement field, [acc] being the part of
    the field read so far.  Arguments are taken in order.  A doubled brace
    stands for one brace; a malformed format string or a missing argument is
    a [format_error]: [None]. *)
Fixpoint fmt_go (f : string) (field : option string) (args : list fmt_arg)
    : option string :=
  match f, field with
  | EmptyString, None => Some EmptyString
  | EmptyString, Some _ => None
  | String "{" (String "{" rest), None => String "{" <$> fmt_go rest None args
  | String "{" rest, None => fmt_go rest (Some EmptyString) args
  | String "}" (String "}" rest), None => String "}" <$> fmt_go rest None args
  | String "}" _, None => None
  | String c rest, None => String c <$> fmt_go rest None args
  | String "}" rest, Some acc =>
      match args with
      | a :: args' =>
          match format_field acc a, fmt_go rest None args' with
          | Some piece, Some tail => Some (piece +:+ tail)
          | _, _ => None
          end
      | [] => None
      end
  | String c rest, Some acc => fmt_go rest (Some (acc +:+ String c EmptyString)) args
  end.

Definition fmt_format (f : string) (args : list fmt_arg) : option string :=
  fmt_go f None args.

(** ** The C library's [snprintf] *)

(** The conversions the server URL needs: [%s] takes the next argument,
    [%%] is a percent sign. *)
Fixpoint printf_format (f : string) (args : list string) : string :=
  match f with
  | EmptyString => EmptyString
  | String "%" (String "s" rest) =>
      match args with
      | a :: args' => a +:+ printf_format rest args'
      | [] => printf_format rest []
      end
  | String "%" (String "%" rest) => String "%" (printf_format rest args)
  | String c rest => String c (printf_format rest args)
  end.

(** [std::snprintf (buf, size, format, ...)]: at most [size - 1] characters
    of the formatted text are stored, then a terminator; the rest of the
    array keeps its bytes.  With [size = 0] nothing is written. *)
Definition snprintf (buf : list ascii) (size : nat) (f : string)
    (args : list string) : list ascii :=
  match size with
  | O => buf
  | S room =>
      let text := take room (list_ascii_of_string (printf_format f args)) in
      text ++ [NUL] ++ drop (S (length text)) buf
  end.

(** ** libcurl: handles, lists and what they hold *)

(** Non-null addresses.  A nullable pointer is an [option]. *)
Abbreviation ptr := positive.

(** The options [smtp_send_email] sets on an easy handle. *)
Inductive CURLoption : Type :=
  | CURLOPT_USE_SSL
  | CURLOPT_CAINFO
  | CURLOPT_URL
  | CURLOPT_PORT
  | CURLOPT_USERNAME
  | CURLOPT_PASSWORD
  | CURLOPT_MAIL_FROM
  | CURLOPT_MAIL_RCPT
  | CURLOPT_PRIVATE
  | CURLOPT_READFUNCTION
  | CURLOPT_READDATA
  | CURLOPT_UPLOAD.

#[global] Instance CURLoption_eq_dec : EqDecision CURLoption.
Proof. solve_decision. Defined.

Definition CURLoption_code (o : CURLoption) : nat :=
  match o with
  | CURLOPT_USE_SSL => 0 | CURLOPT_CAINFO => 1 | CURLOPT_URL => 2
  | CURLOPT_PORT => 3 | CURLOPT_USERNAME => 4 | CURLOPT_PASSWORD => 5
  | CURLOPT_MAIL_FROM => 6 | CURLOPT_MAIL_RCPT => 7 | CURLOPT_PRIVATE => 8
  | CURLOPT_READFUNCTION => 9 | CURLOPT_READDATA => 10 | CURLOPT_UPLOAD => 11
  end%nat.

Definition CURLoption_of_code (n : nat) : option CURLoption :=
  match n with
  | 0 => Some CURLOPT_USE_SSL | 1 => Some CURLOPT_CAINFO | 2 => Some CURLOPT_URL
  | 3 => Some CURLOPT_PORT | 4 => Some CURLOPT_USERNAME | 5 => Some CURLOPT_PASSWORD
  | 6 => Some CURLOPT_MAIL_FROM | 7 => Some CURLOPT_MAIL_RCPT | 8 => Some CURLOPT_PRIVATE
  | 9 => Some CURLOPT_READFUNCTION | 10 => Some CURLOPT_READDATA | 11 => Some CURLOPT_UPLOAD
  | _ => None
  end%nat.

#[global] Instance CURLoption_countable : Countable CURLoption.
Proof.
  apply (inj_countable CURLoption_code CURLoption_of_code).
  intros []; reflexivity.
Defined.

(** What an option is set to.  libcurl copies string arguments and keeps
    pointer arguments as they are. *)
Inductive option_value : Type :=
  | OptLong (v : Z)
  | OptString (s : string)
  | OptPointer (p : option ptr)
  | OptReadCallback.

Definition CURLUSESSL_ALL : Z := 3.
Definition CURL_GLOBAL_NOTHING : Z := 0.
Definition CURLE_OK : Z := 0.
Definition CURLE_FAILED_INIT : Z := 2.
Definition CURLM_BAD_HANDLE : Z := 1.
Definition CURLM_INTERNAL_ERROR : Z := 4.

Inductive CURLMSG : Type := CURLMSG_NONE | CURLMSG_DONE | CURLMSG_LAST.

Record CURLMsg : Type := mk_CURLMsg {
  msg : CURLMSG;
  easy_handle : ptr
}.

(** What lives at an address: an easy handle with its options, a multi
    handle with the easy handles added to it and its queue of unread
    messages, a string list, or a streaming state obtained from [xmalloc]. *)
Inductive object : Type :=
  | EasyHandle (opts : gmap CURLoption option_value)
  | MultiHandle (attached : list ptr) (msgq : list CURLMsg)
  | Slist (items : list string)
  | RcbMessage (m : option read_callback_message).

(** ** What the outside sees *)

Inductive eventlog_level : Type :=
  | eventlog_level_trace
  | eventlog_level_debug
  | eventlog_level_error.

Inductive log_arg : Type :=
  | LogZ (z : Z)
  | LogPtr (p : option ptr).

(** Calls into the logging collaborator, libcurl and the thread library,
    and stores to the flag the poller thread reads, in program order. *)
Inductive event : Type :=
  | EvLog (level : eventlog_level) (function text : string) (args : list log_arg)
  | EvStoreInitialized (b : bool)
  | EvThreadStart
  | EvThreadJoin
  | EvGlobalInit (flags : Z) (code : Z)
  | EvGlobalCleanup
  | EvMultiInit (h : option ptr)
  | EvMultiCleanup (h : option ptr)
  | EvMultiTimeout (h : option ptr) (timeout : Z)
  | EvMultiPoll (h : option ptr) (timeout : Z)
  | EvMultiPerform (h : option ptr)
  | EvMultiAdd (h : option ptr) (e : ptr) (code : Z)
  | EvMultiRemove (h : option ptr) (e : ptr)
  | EvEasyInit (e : option ptr)
  | EvEasyCleanup (e : ptr)
  | EvSlistAppend (l : option ptr)
  | EvSlistFree (l : ptr)
  | EvXmalloc (p : ptr).

(** ** The process-wide state *)

(** One element of [handles_and_mutexes]. *)
Record slot : Type := mk_slot {
  curl_multi_handle : option ptr;
  mutex_locked : bool
}.

(** The globals of [smtp.cpp], then the world they live in: the heap, the
    next fresh address, libcurl's global context (a count of successful
    initialisations), and what the environment will do next.  [faults] lists
    the outcomes of the coming fallible library calls in call order
    ([false]: the call fails; an exhausted list: success); [rounds] lists,
    for each coming visit of the poller to a slot, the timeout libcurl
    reports and the transfers that finish during that visit. *)
Record world : Type := mk_world {
  is_curl_initialized : bool;
  smtp_thread : bool;
  handles_and_mutexes : list slot;
  smtp_ca_cert_store : string;
  smtp_server_url : list ascii;
  smtp_port : Z;
  smtp_username : string;
  smtp_password : string;
  heap : gmap ptr object;
  next_ptr : ptr;
  curl_global : nat;
  faults : list bool;
  rounds : list (Z * list ptr);
  trace : list event
}.

Definition SMTP_TIMEOUT_DEFAULT : Z := 1000.
Definition SMTP_SERVER_URL_SIZE : nat := 512.
Definition POOL_SIZE : nat := 2.

(** The state at program start: zero-initialised statics, an empty heap. *)
Definition initial_world (faults : list bool) (rounds : list (Z * list ptr)) : world :=
  {| is_curl_initialized := false;
     smtp_thread := false;
     handles_and_mutexes := replicate POOL_SIZE (mk_slot None false);
     smtp_ca_cert_store := EmptyString;
     smtp_server_url := replicate SMTP_SERVER_URL_SIZE NUL;
     smtp_port := 0;
     smtp_username := EmptyString;
     smtp_password := EmptyString;
     heap := ∅;
     next_ptr := 1%positive;
     curl_global := 0%nat;
     faults := faults;
     rounds := rounds;
     trace := [] |}.

(** Stores to one field; every other field is carried over. *)
Definition set_is_curl_initialized (v : bool) (w : world) : world :=
  mk_world v (smtp_thread w) (handles_and_mutexes w) (smtp_ca_cert_store w)
    (smtp_server_url w) (smtp_port w) (smtp_username w) (smtp_password w)
    (heap w) (next_ptr w) (curl_global w) (faults w) (rounds w) (trace w).

Definition set_smtp_thread (v : bool) (w : world) : world :=
  mk_world (is_curl_initialized w) v (handles_and_mutexes w)
    (smtp_ca_cert_store w) (smtp_server_url w) (smtp_port w) (smtp_username w)
    (smtp_password w) (heap w) (next_ptr w) (curl_global w) (faults w)
    (rounds w) (trace w).

Definition set_handles_and_mutexes (v : list slot) (w : world) : world :=
  mk_world (is_curl_initialized w) (smtp_thread w) v (smtp_ca_cert_store w)
    (smtp_server_url w) (smtp_port w) (smtp_username w) (smtp_password w)
    (heap w) (next_ptr w) (curl_global w) (faults w) (rounds w) (trace w).

Definition set_smtp_ca_cert_store (v : string) (w : world) : world :=
  mk_world (is_curl_initialized w) (smtp_thread w) (handles_and_mutexes w) v
    (smtp_server_url w) (smtp_port w) (smtp_username w) (smtp_password w)
    (heap w) (next_ptr w) (curl_global w) (faults w) (rounds w) (trace w).

Definition set_smtp_server_url (v : list ascii) (w : world) : world :=
  mk_world (is_curl_initialized w) (smtp_thread w) (handles_and_mutexes w)
    (smtp_ca_cert_store w) v (smtp_port w) (smtp_username w) (smtp_password w)
    (heap w) (next_ptr w) (curl_global w) (faults w) (rounds w) (trace w).

Definition set_smtp_port (v : Z) (w : world) : world :=
  mk_world (is_curl_initialized w) (smtp_thread w) (handles_and_mutexes w)
    (smtp_ca_cert_store w) (smtp_server_url w) v (smtp_username w)
    (smtp_password w) (heap w) (next_ptr w) (curl_global w) (faults w)
    (rounds w) (trace w).

Definition set_smtp_username (v : string) (w : world) : world :=
  mk_world (is_curl_initialized w) (smtp_thread w) (handles_and_mutexes w)
    (smtp_ca_cert_store w) (smtp_server_url w) (smtp_port w) v
    (smtp_password w) (heap w) (next_ptr w) (curl_global w) (faults w)
    (rounds w) (trace w).

Definition set_smtp_password (v : string) (w : world) : world :=
  mk_world (is_curl_initialized w) (smtp_thread w) (handles_and_mutexes w)
    (smtp_ca_cert_store w) (smtp_server_url w) (smtp_port w) (smtp_username w)
    v (heap w) (next_ptr w) (curl_global w) (faults w) (rounds w) (trace w).

Definition set_heap (v : gmap ptr object) (w : world) : world :=
  mk_world (is_curl_initialized w) (smtp_thread w) (handles_and_mutexes w)
    (smtp_ca_cert_store w) (smtp_server_url w) (smtp_port w) (smtp_username w)
    (smtp_password w) v (next_ptr w) (curl_global w) (faults w) (rounds w)
    (trace w).

Definition set_next_ptr (v : ptr) (w : world) : world :=
  mk_world (is_curl_initialized w) (smtp_thread w) (handles_and_mutexes w)
    (smtp_ca_cert_store w) (smtp_server_url w) (smtp_port w) (smtp_username w)
    (smtp_password w) (heap w) v (curl_global w) (faults w) (rounds w)
    (trace w).

Definition set_curl_global (v : nat) (w : world) : world :=
  mk_world (is_curl_initialized w) (smtp_thread w) (handles_and_mutexes w)
    (smtp_ca_cert_store w) (smtp_server_url w) (smtp_port w) (smtp_username w)
    (smtp_password w) (heap w) (next_ptr w) v (faults w) (rounds w) (trace w).

Definition set_faults (v : list bool) (w : world) : world :=
  mk_world (is_curl_initialized w) (smtp_thread w) (handles_and_mutexes w)
    (smtp_ca_cert_store w) (smtp_server_url w) (smtp_port w) (smtp_username w)
    (smtp_password w) (heap w) (next_ptr w) (curl_global w) v (rounds w)
    (trace w).

Definition set_rounds (v : list (Z * list ptr)) (w : world) : world :=
  mk_world (is_curl_initialized w) (smtp_thread w) (handles_and_mutexes w)
    (smtp_ca_cert_store w) (smtp_server_url w) (smtp_port w) (smtp_username w)
    (smtp_password w) (heap w) (next_ptr w) (curl_global w) (faults w) v
    (trace w).

Definition set_trace (v : list event) (w : world) : world :=
  mk_world (is_curl_initialized w) (smtp_thread w) (handles_and_mutexes w)
    (smtp_ca_cert_store w) (smtp_server_url w) (smtp_port w) (smtp_username w)
    (smtp_password w) (heap w) (next_ptr w) (curl_global w) (faults w)
    (rounds w) v.
(** ** The state monad the functions run in *)

(** A computation reads and writes the world and returns a value, or does
    not return: [None] stands for undefined behaviour, an uncaught
    exception, or a loop that used up its bound. *)
Definition M (A : Type) : Type := world -> option (A * world).

Definition ret {A} (a : A) : M A := fun w => Some (a, w).

Definition bind {A B} (m : M A) (k : A -> M B) : M B :=
  fun w => match m w with
           | Some (a, w') => k a w'
           | None => None
           end.

Definition stuck {A} : M A := fun _ => None.

Definition gets {A} (f : world -> A) : M A := fun w => Some (f w, w).

Definition modify (f : world -> world) : M unit := fun w => Some (tt, f w).

Declare Scope smtp_scope.
Delimit Scope smtp_scope with smtp.
Notation "'let*' x ':=' m 'in' k" := (bind m (fun x => k))
  (at level 10, x name, m at level 100, k at level 200,
   format "'[v' 'let*'  x  ':='  m  'in' '/' k ']'") : smtp_scope.
Notation "m ';;' k" := (bind m (fun _ => k))
  (at level 100, k at level 200, right associativity,
   format "'[v' m ';;' '/' k ']'") : smtp_scope.
Local Open Scope smtp_scope.

Definition emit (e : event) : M unit :=
  modify (fun w => set_trace (trace w ++ [e]) w).

Definition eventlog (level : eventlog_level) (function text : string)
    (args : list log_arg) : M unit :=
  emit (EvLog level function text args).

(** The next scripted outcome of a fallible library call. *)
Definition next_fault : M bool :=
  fun w => match faults w with
           | [] => Some (true, w)
           | ok :: rest => Some (ok, set_faults rest w)
           end.

(** The next scripted poller visit. *)
Definition next_round : M (Z * list ptr) :=
  fun w => match rounds w with
           | [] => Some ((-1, []), w)
           | r :: rest => Some (r, set_rounds rest w)
           end.

(** Allocation at a fresh address, and release.  Releasing an address that
    holds nothing (a double free, a dangling handle) is undefined. *)
Definition alloc (o : object) : M ptr :=
  fun w =>
    let p := next_ptr w in
    Some (p, set_next_ptr (Pos.succ p) (set_heap (<[p := o]> (heap w)) w)).

Definition free (p : ptr) : M unit :=
  fun w => match heap w !! p with
           | Some _ => Some (tt, set_heap (delete p (heap w)) w)
           | None => None
           end.

Definition load (p : ptr) : M object :=
  fun w => match heap w !! p with
           | Some o => Some (o, w)
           | None => None
           end.

Definition store (p : ptr) (o : object) : M unit :=
  fun w => match heap w !! p with
           | Some _ => Some (tt, set_heap (<[p := o]> (heap w)) w)
           | None => None
           end.

(** A loop over the indices of a fixed array whose body may leave the
    enclosing function: the body answers [Some r] to return [r] and [None]
    to go on with the next element ([continue], or the end of the body). *)
Fixpoint for_each {R} (indices : list nat) (body : nat -> M (option R))
    : M (option R) :=
  match indices with
  | [] => ret None
  | i :: rest =>
      let* r := body i in
      match r with
      | Some x => ret (Some x)
      | None => for_each rest body
      end
  end.

(** [for (auto& tuple : handles_and_mutexes)] visits the elements in order. *)
Definition slot_indices : list nat := seq 0 POOL_SIZE.

Definition get_slot (i : nat) : M slot :=
  fun w => match handles_and_mutexes w !! i with
           | Some s => Some (s, w)
           | None => None
           end.

Definition put_slot (i : nat) (s : slot) : M unit :=
  modify (fun w => set_handles_and_mutexes (<[i := s]> (handles_and_mutexes w)) w).

(** ** libcurl, the allocator, the mutexes and the thread *)

Definition CURLM_OK : Z := 0.

Definition curl_global_init (flags : Z) : M Z :=
  let* ok := next_fault in
  if ok : bool then
    modify (fun w => set_curl_global (S (curl_global w)) w);;
    emit (EvGlobalInit flags CURLE_OK);;
    ret CURLE_OK
  else
    emit (EvGlobalInit flags CURLE_FAILED_INIT);;
    ret CURLE_FAILED_INIT.

Definition curl_global_cleanup : M unit :=
  modify (fun w => set_curl_global (Nat.pred (curl_global w)) w);;
  emit EvGlobalCleanup.

Definition curl_multi_init : M (option ptr) :=
  let* ok := next_fault in
  if ok : bool then
    let* h := alloc (MultiHandle [] []) in
    emit (EvMultiInit (Some h));;
    ret (Some h)
  else
    emit (EvMultiInit None);;
    ret None.

Definition load_multi (p : ptr) : M (list ptr * list CURLMsg) :=
  let* o := load p in
  match o with
  | MultiHandle attached msgq => ret (attached, msgq)
  | _ => stuck
  end.

Definition load_easy (p : ptr) : M (gmap CURLoption option_value) :=
  let* o := load p in
  match o with
  | EasyHandle opts => ret opts
  | _ => stuck
  end.

Definition load_slist (p : ptr) : M (list string) :=
  let* o := load p in
  match o with
  | Slist items => ret items
  | _ => stuck
  end.

(** Releases the multi handle only; easy handles still added to it stay
    allocated.  A null handle is refused with an error code. *)
Definition curl_multi_cleanup (h : option ptr) : M Z :=
  emit (EvMultiCleanup h);;
  match h with
  | None => ret CURLM_BAD_HANDLE
  | Some p => load_multi p;; free p;; ret CURLM_OK
  end.

(** Leaves the caller's [timeout] as it is when the handle is null. *)
Definition curl_multi_timeout (h : option ptr) (timeout : Z) : M Z :=
  match h with
  | None => emit (EvMultiTimeout h timeout);; ret timeout
  | Some _ =>
      let* reported :=
        gets (fun w => match rounds w with [] => -1 | r :: _ => fst r end) in
      emit (EvMultiTimeout h reported);;
      ret reported
  end.

Definition curl_multi_poll (h : option ptr) (timeout : Z) : M unit :=
  emit (EvMultiPoll h timeout).

(** Drives the transfers; those the environment finishes during this call,
    and that are added to this handle and not yet reported, get a [DONE]
    message.  The result is the number of transfers still running. *)
Definition curl_multi_perform (h : option ptr) : M Z :=
  emit (EvMultiPerform h);;
  match h with
  | None => ret 0
  | Some p =>
      let* r := next_round in
      let* am := load_multi p in
      let reported := easy_handle <$> am.2 in
      let newly :=
        filter (fun e => e ∈ r.2 /\ e ∉ reported) am.1 in
      store p (MultiHandle am.1 (am.2 ++ (mk_CURLMsg CURLMSG_DONE <$> newly)));;
      ret (Z.of_nat (length am.1) - Z.of_nat (length reported + length newly))
  end.

Definition curl_multi_info_read (h : option ptr) : M (option CURLMsg) :=
  match h with
  | None => ret None
  | Some p =>
      let* am := load_multi p in
      match am.2 with
      | [] => ret None
      | m :: rest => store p (MultiHandle am.1 rest);; ret (Some m)
      end
  end.

Definition curl_multi_add_handle (h : option ptr) (e : ptr) : M Z :=
  match h with
  | None => emit (EvMultiAdd h e CURLM_BAD_HANDLE);; ret CURLM_BAD_HANDLE
  | Some p =>
      let* ok := next_fault in
      if ok : bool then
        let* am := load_multi p in
        store p (MultiHandle (am.1 ++ [e]) am.2);;
        emit (EvMultiAdd h e CURLM_OK);;
        ret CURLM_OK
      else
        emit (EvMultiAdd h e CURLM_INTERNAL_ERROR);;
        ret CURLM_INTERNAL_ERROR
  end.

Definition curl_multi_remove_handle (h : option ptr) (e : ptr) : M unit :=
  emit (EvMultiRemove h e);;
  match h with
  | None => ret tt
  | Some p =>
      let* am := load_multi p in
      store p (MultiHandle (filter (fun x => x ≠ e) am.1)
                           (filter (fun m => easy_handle m ≠ e) am.2))
  end.

Definition curl_easy_init : M (option ptr) :=
  let* ok := next_fault in
  if ok : bool then
    let* e := alloc (EasyHandle ∅) in
    emit (EvEasyInit (Some e));;
    ret (Some e)
  else
    emit (EvEasyInit None);;
    ret None.

Definition curl_easy_setopt (e : ptr) (o : CURLoption) (v : option_value) : M unit :=
  let* opts := load_easy e in
  store e (EasyHandle (<[o := v]> opts)).

(** [curl_easy_getinfo (curl, CURLINFO_PRIVATE, &p)]. *)
Definition curl_easy_getinfo_private (e : ptr) : M (option ptr) :=
  let* opts := load_easy e in
  match opts !! CURLOPT_PRIVATE with
  | Some (OptPointer p) => ret p
  | _ => ret None
  end.

(** Releases the easy handle and nothing it points to: the data behind
    [CURLOPT_PRIVATE], [CURLOPT_MAIL_RCPT] and [CURLOPT_READDATA] belongs to
    the application. *)
Definition curl_easy_cleanup (e : ptr) : M unit :=
  emit (EvEasyCleanup e);;
  load_easy e;;
  free e.

Definition curl_slist_append (l : option ptr) (s : string) : M (option ptr) :=
  let* ok := next_fault in
  if ok : bool then
    let* r :=
      match l with
      | None => let* p := alloc (Slist [s]) in ret (Some p)
      | Some p =>
          let* items := load_slist p in
          store p (Slist (items ++ [s]));;
          ret (Some p)
      end in
    emit (EvSlistAppend r);;
    ret r
  else
    emit (EvSlistAppend None);;
    ret None.

Definition curl_slist_free_all (l : ptr) : M unit :=
  emit (EvSlistFree l);;
  load_slist l;;
  free l.

(** pvpgn's [xmalloc] returns uninitialised memory and never null: room
    for a [read_callback_message], in which no object has been constructed. *)
Definition xmalloc_rcb : M ptr :=
  let* p := alloc (RcbMessage None) in
  emit (EvXmalloc p);;
  ret p.

(** [p->message = s]: [std::string::operator=] on the [message] member of
    the [read_callback_message] at [p].  It assigns to a string that has
    been constructed; raw memory holds none, and the assignment is
    undefined there. *)
Definition assign_message (p : ptr) (s : string) : M unit :=
  let* o := load p in
  match o with
  | RcbMessage (Some m) => store p (RcbMessage (Some (mk_rcb s (bytes_remaining m))))
  | _ => stuck
  end.

(** [p->bytes_remaining = n].  [smtp_send_email] comes to it only when the
    assignment to [message] before it has returned, that is, on an object
    that holds a string. *)
Definition assign_bytes_remaining (p : ptr) (n : Z) : M unit :=
  let* o := load p in
  match o with
  | RcbMessage (Some m) => store p (RcbMessage (Some (mk_rcb (message m) n)))
  | _ => stuck
  end.

Definition mutex_try_lock (i : nat) : M bool :=
  let* s := get_slot i in
  if mutex_locked s then ret false
  else put_slot i (mk_slot (curl_multi_handle s) true);; ret true.

Definition mutex_unlock (i : nat) : M unit :=
  let* s := get_slot i in
  if mutex_locked s then put_slot i (mk_slot (curl_multi_handle s) false)
  else stuck.

Definition store_is_curl_initialized (b : bool) : M unit :=
  modify (set_is_curl_initialized b);;
  emit (EvStoreInitialized b).

(** [smtp_thread = std::thread (smtp_consumer)]. *)
Definition thread_start : M unit :=
  modify (set_smtp_thread true);;
  emit EvThreadStart.

(** [smtp_thread.join ()] returns when [smtp_consumer] has returned, and
    [smtp_consumer] leaves its loop only on reading [is_curl_initialized] as
    false: with the flag still set the join does not return.  Joining a
    thread object that runs nothing throws. *)
Definition thread_join : M unit :=
  let* joinable := gets smtp_thread in
  let* running := gets is_curl_initialized in
  if joinable && negb running then
    modify (set_smtp_thread false);;
    emit EvThreadJoin
  else stuck.

(** A [fmt::format_error] is not caught anywhere in this file. *)
Definition must_format (f : string) (args : list fmt_arg) : M string :=
  match fmt_format f args with
  | Some s => ret s
  | None => stuck
  end.

(** [s.c_str ()] handed to a consumer of [const char*]. *)
Definition as_c_string (s : string) : string := read_c_string (c_str s).

(** ** [smtp.cpp] *)

(** The do-while loop of [smtp_consumer]: read the completion queue until
    it is empty and release every transfer reported done.  [fuel] bounds the
    number of iterations.  (The local [running_handles] is written and never
    read; it is left out.) *)
Fixpoint smtp_consumer_reap (fuel : nat) (curl_multi_handle : option ptr) : M unit :=
  match fuel with
  | O => stuck
  | S fuel' =>
      let* curlmsg := curl_multi_info_read curl_multi_handle in
      match curlmsg with
      | Some m =>
          match msg m with
          | CURLMSG_DONE =>
              let curl := easy_handle m in
              curl_multi_remove_handle curl_multi_handle curl;;
              let* recipient := curl_easy_getinfo_private curl in
              match recipient with
              | Some r => curl_slist_free_all r
              | None => ret tt
              end;;
              curl_easy_cleanup curl
          | _ => ret tt
          end;;
          smtp_consumer_reap fuel' curl_multi_handle
      | None => ret tt
      end
  end.

(** The body of the [for] loop of [smtp_consumer] for the slot at index [i]. *)
Definition smtp_consumer_visit (fuel : nat) (i : nat) : M (option unit) :=
  let* s := get_slot i in
  let curl_multi_handle := curl_multi_handle s in
  let* locked := mutex_try_lock i in
  if negb locked then ret None
  else
    let* reported := curl_multi_timeout curl_multi_handle (-1) in
    let timeout := if reported =? -1 then SMTP_TIMEOUT_DEFAULT else reported in
    curl_multi_poll curl_multi_handle timeout;;
    curl_multi_perform curl_multi_handle;;
    smtp_consumer_reap fuel curl_multi_handle;;
    mutex_unlock i;;
    ret None.

(** One iteration of the [while] loop: both slots, in order. *)
Definition smtp_consumer_round (fuel : nat) : M unit :=
  for_each slot_indices (smtp_consumer_visit fuel);;
  ret tt.

(** [smtp_consumer ()], run for at most [iterations] rounds. *)
Fixpoint smtp_consumer (iterations fuel : nat) : M unit :=
  match iterations with
  | O => stuck
  | S iterations' =>
      let* running := gets is_curl_initialized in
      if running : bool then
        smtp_consumer_round fuel;;
        smtp_consumer iterations' fuel
      else ret tt
  end.

Definition smtp_config (prefs_smtp_ca_cert_store prefs_smtp_server_url : option string)
    (prefs_smtp_port : Z) (prefs_smtp_username prefs_smtp_password : option string)
    : M bool :=
  match prefs_smtp_ca_cert_store with
  | None =>
      eventlog eventlog_level_error "smtp_config"
        "Received NULL prefs_smtp_ca_cert_store" [];;
      ret false
  | Some ca_cert_store =>
  match prefs_smtp_server_url with
  | None =>
      eventlog eventlog_level_error "smtp_config"
        "Received NULL prefs_smtp_server_url" [];;
      ret false
  | Some server_url =>
  if 65535 <? prefs_smtp_port then
    eventlog eventlog_level_error "smtp_config"
      "Received out-of-range port number ({})" [LogZ prefs_smtp_port];;
    ret false
  else
  match prefs_smtp_username with
  | None =>
      eventlog eventlog_level_error "smtp_config"
        "Received NULL prefs_smtp_username" [];;
      ret false
  | Some username =>
  match prefs_smtp_password with
  | None =>
      eventlog eventlog_level_error "smtp_config"
        "Received NULL prefs_smtp_password" [];;
      ret false
  | Some password =>
      modify (set_smtp_ca_cert_store ca_cert_store);;
      modify (fun w =>
        set_smtp_server_url
          (snprintf (smtp_server_url w) SMTP_SERVER_URL_SIZE "smtps://%s" [server_url])
          w);;
      modify (set_smtp_port prefs_smtp_port);;
      modify (set_smtp_username username);;
      modify (set_smtp_password password);;
      ret true
  end end end end.

Definition smtp_init (prefs_smtp_ca_cert_store prefs_smtp_server_url : option string)
    (prefs_smtp_port : Z) (prefs_smtp_username prefs_smtp_password : option string)
    : M bool :=
  let* initialized := gets is_curl_initialized in
  if initialized : bool then
    eventlog eventlog_level_error "smtp_init"
      "libcurl has already been initialized" [];;
    ret false
  else
  let* configured :=
    smtp_config prefs_smtp_ca_cert_store prefs_smtp_server_url prefs_smtp_port
                prefs_smtp_username prefs_smtp_password in
  if negb configured then
    eventlog eventlog_level_error "smtp_init" "Failed to set SMTP data" [];;
    ret false
  else
  let* left :=
    for_each slot_indices (fun i =>
      let* h := curl_multi_init in
      let* s := get_slot i in
      put_slot i (mk_slot h (mutex_locked s));;
      match h with
      | None =>
          eventlog eventlog_level_error "smtp_init"
            "Failed to initialize curl multi handle" [];;
          ret (Some false)
      | Some _ => ret None
      end) in
  match left with
  | Some result => ret result
  | None =>
  let* code := curl_global_init CURL_GLOBAL_NOTHING in
  if negb (code =? 0) then
    eventlog eventlog_level_error "smtp_init"
      "Failed to initialize curl global context" [];;
    ret false
  else
    thread_start;;
    store_is_curl_initialized true;;
    ret true
  end.

Definition smtp_reconfig (prefs_smtp_ca_cert_store prefs_smtp_server_url : option string)
    (prefs_smtp_port : Z) (prefs_smtp_username prefs_smtp_password : option string)
    : M bool :=
  smtp_config prefs_smtp_ca_cert_store prefs_smtp_server_url prefs_smtp_port
              prefs_smtp_username prefs_smtp_password.

Definition smtp_cleanup : M unit :=
  let* initialized := gets is_curl_initialized in
  if initialized : bool then
    store_is_curl_initialized false;;
    thread_join;;
    for_each (R := unit) slot_indices (fun i =>
      let* s := get_slot i in
      curl_multi_cleanup (curl_multi_handle s);;
      ret None);;
    curl_global_cleanup
  else ret tt.

(** The format string of the prepended headers. *)
Definition MIME_FORMAT : string :=
  "MIME-Version: 1.0" +:+ CRLF +:+
  "Content-Type: text/plain; charset=" +:+ dquote +:+ "UTF-8" +:+ dquote +:+ CRLF +:+
  "Date: {:%a, %d %b %Y %T %z}" +:+ CRLF +:+
  "From: {} <{}>" +:+ CRLF +:+
  "To: <{}>" +:+ CRLF +:+
  "Subject: {}" +:+ CRLF +:+ CRLF.

(** [message.insert (0, fmt::format (...))]; [now] is [*std::localtime (&now)],
    the broken-down local time of the server's clock. *)
Definition compose_message (now : tm)
    (to_address from_address from_name subject message : string) : option string :=
  match fmt_format MIME_FORMAT
          [ArgTm now; ArgString from_name; ArgString from_address;
           ArgString to_address; ArgString subject] with
  | Some headers => Some (headers +:+ message)
  | None => None
  end.

(** The streaming state the two assignments of [smtp_send_email] describe
    for a composed message. *)
Definition new_rcbmessage (composed : string) : read_callback_message :=
  mk_rcb composed (size_wrap (Z.of_nat (String.length composed) + 1)).

(** The [while (true)] loop that hands the easy handle to the first slot
    whose mutex can be taken; [spins] bounds the passes over the pool. *)
Fixpoint smtp_send_attach (spins : nat) (curl : ptr) : M unit :=
  match spins with
  | O => stuck
  | S spins' =>
      let* returned :=
        for_each slot_indices (fun i =>
          let* locked := mutex_try_lock i in
          if negb locked then ret None
          else
            let* s := get_slot i in
            let curl_multi_handle := curl_multi_handle s in
            let* code := curl_multi_add_handle curl_multi_handle curl in
            (if code =? CURLE_OK then
               eventlog eventlog_level_trace "smtp_send_email"
                 "Added handle to CURL multi handle ({})" [LogPtr curl_multi_handle]
             else
               eventlog eventlog_level_error "smtp_send_email"
                 "Failed to add handle to CURL multi handle (CURLMcode: {})" [LogZ code]);;
            mutex_unlock i;;
            ret (Some tt)) in
      match returned with
      | Some _ => ret tt
      | None => smtp_send_attach spins' curl
      end
  end.

Definition smtp_send_email (spins : nat) (now : tm)
    (to_address from_address from_name subject message : string) : M unit :=
  let* initialized := gets is_curl_initialized in
  if negb initialized then
    eventlog eventlog_level_debug "smtp_send_email"
      "libcurl not initialized, returning without attempting to send email" [];;
    ret tt
  else
  let* easy := curl_easy_init in
  match easy with
  | None =>
      eventlog eventlog_level_error "smtp_send_email"
        "Failed to initialize CURL easy handle" [];;
      ret tt
  | Some curl =>
  curl_easy_setopt curl CURLOPT_USE_SSL (OptLong CURLUSESSL_ALL);;
  let* ca_cert_store := gets smtp_ca_cert_store in
  curl_easy_setopt curl CURLOPT_CAINFO (OptString (as_c_string ca_cert_store));;
  let* server_url := gets smtp_server_url in
  curl_easy_setopt curl CURLOPT_URL (OptString (read_c_string server_url));;
  let* port := gets smtp_port in
  curl_easy_setopt curl CURLOPT_PORT (OptLong port);;
  let* username := gets smtp_username in
  curl_easy_setopt curl CURLOPT_USERNAME (OptString (as_c_string username));;
  let* password := gets smtp_password in
  curl_easy_setopt curl CURLOPT_PASSWORD (OptString (as_c_string password));;
  let* mail_from := must_format "<{}>" [ArgString from_address] in
  curl_easy_setopt curl CURLOPT_MAIL_FROM (OptString (as_c_string mail_from));;
  let* rcpt := must_format "<{}>" [ArgString to_address] in
  let* recipient_temp := curl_slist_append None (as_c_string rcpt) in
  match recipient_temp with
  | None =>
      eventlog eventlog_level_error "smtp_send_email"
        "Failed to append recipient address to recipient list" [];;
      ret tt
  | Some recipient =>
  curl_easy_setopt curl CURLOPT_MAIL_RCPT (OptPointer (Some recipient));;
  curl_easy_setopt curl CURLOPT_PRIVATE (OptPointer (Some recipient));;
  curl_easy_setopt curl CURLOPT_READFUNCTION OptReadCallback;;
  match compose_message now to_address from_address from_name subject message with
  | None => stuck
  | Some composed =>
  let* rcbmessage := xmalloc_rcb in
  assign_message rcbmessage composed;;
  assign_bytes_remaining rcbmessage
    (size_wrap (Z.of_nat (String.length composed) + 1));;
  curl_easy_setopt curl CURLOPT_READDATA (OptPointer (Some rcbmessage));;
  curl_easy_setopt curl CURLOPT_UPLOAD (OptLong 1);;
  smtp_send_attach spins curl
  end end end.

(** ** Vocabulary of the statements *)

(** The five configuration variables, as one value. *)
Definition stored_config (w : world) : string * list ascii * Z * string * string :=
  (smtp_ca_cert_store w, smtp_server_url w, smtp_port w,
   smtp_username w, smtp_password w).

(** [needle] occurs somewhere in [hay]. *)
Fixpoint string_contains (needle hay : string) : bool :=
  String.prefix needle hay ||
  match hay with
  | EmptyString => false
  | String _ rest => string_contains needle rest
  end.

(** Friday 30 October 2026, 04:21:05, one hour east of UTC. *)
Definition sample_now : tm := mk_tm 5 21 4 30 9 126 5 3600.

(** libcurl asking for at most [capacity] bytes at every call. *)
Definition fixed_requests (capacity : nat) : nat -> read_request :=
  fun _ => mk_req (replicate capacity NUL) 1 (Z.of_nat capacity).

(** The world after a successful [smtp_init] at program start, and after
    one refused for its port. *)
Definition world_after (m : M bool) (w : world) : world :=
  match m w with
  | Some (_, w') => w'
  | None => w
  end.

Definition initialized_world : world :=
  world_after
    (smtp_init (Some "/ca.pem") (Some "mail.example.com") 587
               (Some "user") (Some "pw"))
    (initial_world [] []).

Definition refused_world : world :=
  world_after
    (smtp_init (Some "/ca.pem") (Some "mail.example.com") 70000
               (Some "user") (Some "pw"))
    (initial_world [] []).

(** The scenario of the specification: initialise, submit two mails, let
    the poller make one round in which both transfers finish, shut down. *)
Definition sample_session : M unit :=
  smtp_init (Some "/ca.pem") (Some "mail.example.com") 587
            (Some "user") (Some "pw");;
  smtp_send_email 1 sample_now "bob@example.com" "noreply@pvpgn.pro"
                  "PvPGN" "Hi" "Body";;
  smtp_send_email 1 sample_now "al@example.com" "noreply@pvpgn.pro"
                  "PvPGN" "Hi again" "Body";;
  smtp_consumer_round 3;;
  smtp_cleanup.

(** What kind of thing an address holds. *)
Inductive object_kind : Type :=
  | KindEasyHandle
  | KindMultiHandle
  | KindSlist
  | KindStreamingState.

Definition kind_of (o : object) : object_kind :=
  match o with
  | EasyHandle _ => KindEasyHandle
  | MultiHandle _ _ => KindMultiHandle
  | Slist _ => KindSlist
  | RcbMessage _ => KindStreamingState
  end.

(** The events that allocate, attach, detach or release something. *)
Definition is_resource_event (e : event) : bool :=
  match e with
  | EvMultiInit _ | EvMultiCleanup _ | EvMultiAdd _ _ _ | EvMultiRemove _ _
  | EvEasyInit _ | EvEasyCleanup _ | EvSlistAppend _ | EvSlistFree _
  | EvXmalloc _ => true
  | _ => false
  end.

Definition resource_events (w : world) : list event :=
  List.filter is_resource_event (trace w).

(** A computation that, started in a world satisfying [I], returns and
    leaves a world satisfying [I]. *)
Definition maintains (I : world -> Prop) {A} (m : M A) : Prop :=
  forall w, I w -> exists a w', m w = Some (a, w') /\ I w'.

(** The configuration is [c] and the pool has its two slots. *)
Definition configured_as (c : string * list ascii * Z * string * string)
    (w : world) : Prop :=
  stored_config w = c /\ length (handles_and_mutexes w) = POOL_SIZE.

(** Whenever [m] returns from a world satisfying [P], the value it returns
    and the world it leaves satisfy [Q]. *)
Definition ensures (P : world -> Prop) {A} (m : M A) (Q : A -> world -> Prop)
    : Prop :=
  forall w a w', P w -> m w = Some (a, w') -> Q a w'.

Definition preserves (I : world -> Prop) {A} (m : M A) : Prop :=
  ensures I m (fun _ => I).

Definition uninitialized (w : world) : Prop := is_curl_initialized w = false.

(** Every allocated address was handed out by [alloc]. *)
Definition heap_fresh (w : world) : Prop :=
  forall q o, heap w !! q = Some o -> (q < next_ptr w)%positive.

(** Something of kind [k] is allocated at [p]. *)
Definition holds (k : object_kind) (p : ptr) (w : world) : Prop :=
  (exists o, heap w !! p = Some o /\ kind_of o = k) /\ heap_fresh w.

(** A streaming state is allocated at [p]. *)
Definition streaming_state_at (p : ptr) : world -> Prop :=
  holds KindStreamingState p.

(** Message [c] of a completion queue reports a finished transfer whose
    easy handle is allocated and keeps, as its private pointer, the
    recipient list allocated at [r]. *)
Definition finished_transfer (w : world) (c : CURLMsg) (r : ptr) : Prop :=
  msg c = CURLMSG_DONE /\
  exists opts items,
    heap w !! easy_handle c = Some (EasyHandle opts) /\
    opts !! CURLOPT_PRIVATE = Some (OptPointer (Some r)) /\
    heap w !! r = Some (Slist items).

(** What the poller does for one such message. *)
Definition reap_events (m : ptr) (c : CURLMsg) (r : ptr) : list event :=
  [EvMultiRemove (Some m) (easy_handle c); EvSlistFree r;
   EvEasyCleanup (easy_handle c)].

(** While the server is initialized: the flag is set, the poller thread
    runs, and the two slots hold the multi handles [h0] and [h1]. *)
Definition pool_static (h0 h1 : ptr) (w : world) : Prop :=
  is_curl_initialized w = true /\
  smtp_thread w = true /\
  curl_multi_handle <$> handles_and_mutexes w = [Some h0; Some h1].

Definition pool_ready (h0 h1 : ptr) (w : world) : Prop :=
  pool_static h0 h1 w /\
  h0 <> h1 /\
  holds KindMultiHandle h0 w /\
  holds KindMultiHandle h1 w.

(** What holds between the calls of the functions of [smtp.cpp]. *)
Definition lifecycle_invariant (w : world) : Prop :=
  heap_fresh w /\
  length (handles_and_mutexes w) = POOL_SIZE /\
  (is_curl_initialized w = true -> exists h0 h1, pool_ready h0 h1 w).

(** The worlds the server can be in between calls: the program starts with
    some script of the environment; the functions are called in any order
    with any arguments; the poller makes its rounds while the flag is set. *)
Inductive reachable : world -> Prop :=
  | reachable_start faults rounds :
      reachable (initial_world faults rounds)
  | reachable_init ca url port user pw w r w' :
      reachable w ->
      smtp_init ca url port user pw w = Some (r, w') ->
      reachable w'
  | reachable_reconfig ca url port user pw w r w' :
      reachable w ->
      smtp_reconfig ca url port user pw w = Some (r, w') ->
      reachable w'
  | reachable_send spins now to_address from_address from_name subject body w w' :
      reachable w ->
      smtp_send_email spins now to_address from_address from_name subject body w
        = Some (tt, w') ->
      reachable w'
  | reachable_poll fuel w w' :
      reachable w ->
      is_curl_initialized w = true ->
      smtp_consumer_round fuel w = Some (tt, w') ->
      reachable w'
  | reachable_cleanup w w' :
      reachable w ->
      smtp_cleanup w = Some (tt, w') ->
      reachable w'.

(** What the script holds for the [n]-th coming fallible library call:
    [true] when the call succeeds. *)
Definition call_succeeds (n : nat) (w : world) : bool := nth n (faults w) true.

(** Everything of the world but the heap, the next address, the script of
    the environment and the trace: the globals of [smtp.cpp] and libcurl's
    global context. *)
Definition globals (w : world)
    : bool * bool * list slot * (string * list ascii * Z * string * string) * nat :=
  (is_curl_initialized w, smtp_thread w, handles_and_mutexes w,
   stored_config w, curl_global w).

Definition has_globals
    (G : bool * bool * list slot * (string * list ascii * Z * string * string) * nat)
    (w : world) : Prop :=
  globals w = G.

(** The globals as they are between calls when nothing has gone wrong: the
    thread object runs the poller exactly while the flag is set, libcurl's
    global context is initialised exactly while the flag is set, no mutex
    is held, the URL array has its 512 bytes and holds a terminator, and the
    port is at most 65535. *)
Definition globals_consistent (w : world) : Prop :=
  smtp_thread w = is_curl_initialized w /\
  curl_global w = (if is_curl_initialized w then 1 else 0)%nat /\
  Forall (fun s => mutex_locked s = false) (handles_and_mutexes w) /\
  length (smtp_server_url w) = SMTP_SERVER_URL_SIZE /\
  (String.length (read_c_string (smtp_server_url w)) < SMTP_SERVER_URL_SIZE)%nat /\
  smtp_port w <= 65535.

(** A world in which the multi handle of the first slot, at 1, has the easy
    handle at 3 added to it and reports its transfer as finished; the
    private pointer of that easy handle is the recipient list at 4. *)
Definition finished_world : world :=
  {| is_curl_initialized := true;
     smtp_thread := true;
     handles_and_mutexes := [mk_slot (Some 1%positive) true; mk_slot (Some 2%positive) false];
     smtp_ca_cert_store := "/ca.pem";
     smtp_server_url := replicate SMTP_SERVER_URL_SIZE NUL;
     smtp_port := 587;
     smtp_username := "user";
     smtp_password := "pw";
     heap :=
       <[4%positive := Slist ["<bob@example.com>"%string]]>
         (<[3%positive := EasyHandle (<[CURLOPT_PRIVATE := OptPointer (Some 4%positive)]> ∅)]>
            (<[2%positive := MultiHandle [] []]>
               (<[1%positive := MultiHandle [3%positive]
                                  [mk_CURLMsg CURLMSG_DONE 3%positive]]> ∅)));
     next_ptr := 5%positive;
     curl_global := 1%nat;
     faults := [];
     rounds := [];
     trace := [] |}.

(** * Properties *)

(** ** The streaming payload source *)

Section ReadCallback.

Lemma length_c_str (s : string) :
  length (c_str s) = S (String.length s).
Proof.
  unfold c_str. rewrite length_app. simpl.
  induction s as [|c s IH]; simpl; [reflexivity | lia].
Qed.

(** One call, in closed form. *)
Lemma read_callback_step (buffer : list ascii) (size nitems : Z)
    (rcb : read_callback_message) :
  buffer_fits buffer size nitems ->
  rcb_wf rcb ->
  let n := Z.min (bytes_remaining rcb) (size * nitems) in
  read_callback buffer size nitems rcb =
    Some (take (Z.to_nat n) (c_str (message rcb)) ++ drop (Z.to_nat n) buffer,
          mk_rcb (message rcb) (bytes_remaining rcb - n),
          n).
Proof.
  intros (Hsize & Hnitems & Hlen & Hfit) [[Hlo Hmax] Hhi] n.
  assert (Hcap : 0 <= size * nitems) by (apply Z.mul_nonneg_nonneg; assumption).
  unfold read_callback, size_wrap.
  rewrite (Z.mod_small (size * nitems)) by lia.
  assert (Hn : (if bytes_remaining rcb <=? size * nitems
                then bytes_remaining rcb else size * nitems) = n).
  { unfold n. destruct (Z.leb_spec (bytes_remaining rcb) (size * nitems)); lia. }
  rewrite Hn.
  assert (Hrange : 0 <= n <= bytes_remaining rcb /\ n <= size * nitems)
    by (unfold n; lia).
  destruct (Z.ltb_spec 0 n) as [Hpos | Hzero].
  - unfold memcpy. rewrite decide_True by lia.
    rewrite Z.mod_small by lia. reflexivity.
  - assert (n = 0) as -> by lia. simpl.
    rewrite Z.sub_0_r. destruct rcb; reflexivity.
Qed.

Lemma new_rcbmessage_wf (composed : string) :
  Z.of_nat (String.length composed) + 1 < SIZE_MODULUS ->
  rcb_wf (new_rcbmessage composed) /\
  bytes_remaining (new_rcbmessage composed) = Z.of_nat (String.length composed) + 1.
Proof.
  intros Hfit. unfold rcb_wf, is_size_t, new_rcbmessage, size_wrap. simpl.
  rewrite length_c_str, Z.mod_small by lia. lia.
Qed.

End ReadCallback.

(** C7.  One call of [read_callback] on a buffer of [size * nitems] bytes
    with [r] bytes remaining copies exactly [min r (size * nitems)] bytes to
    the front of the buffer (the rest of the buffer is untouched), lowers
    [bytes_remaining] by that amount, which keeps it between 0 and [r], and
    returns that amount. *)
Theorem read_callback_copies_min (buffer : list ascii) (size nitems : Z)
    (rcb : read_callback_message) :
  buffer_fits buffer size nitems ->
  rcb_wf rcb ->
  let n := Z.min (bytes_remaining rcb) (size * nitems) in
  exists buffer' rcb',
    read_callback buffer size nitems rcb = Some (buffer', rcb', n) /\
    take (Z.to_nat n) buffer' = take (Z.to_nat n) (c_str (message rcb)) /\
    length (take (Z.to_nat n) buffer') = Z.to_nat n /\
    drop (Z.to_nat n) buffer' = drop (Z.to_nat n) buffer /\
    length buffer' = length buffer /\
    message rcb' = message rcb /\
    bytes_remaining rcb' = bytes_remaining rcb - n /\
    0 <= bytes_remaining rcb' <= bytes_remaining rcb.
Proof.
  intros Hbuf Hwf n.
  pose proof (read_callback_step buffer size nitems rcb Hbuf Hwf) as Hstep.
  destruct Hbuf as (Hsize & Hnitems & Hlen & Hfit).
  destruct Hwf as [[Hlo Hmax] Hhi].
  assert (Hcap : 0 <= size * nitems) by (apply Z.mul_nonneg_nonneg; assumption).
  assert (Hn : 0 <= n <= bytes_remaining rcb /\ n <= size * nitems)
    by (unfold n; lia).
  assert (Htake : length (take (Z.to_nat n) (c_str (message rcb))) = Z.to_nat n)
    by (rewrite length_take; lia).
  eexists _, _. split; [exact Hstep |].
  simpl. repeat split.
  - rewrite take_app_length'; [reflexivity | symmetry; exact Htake].
  - rewrite take_app_length'; [exact Htake | symmetry; exact Htake].
  - rewrite drop_app_length'; [reflexivity | symmetry; exact Htake].
  - rewrite length_app, length_take, length_drop. lia.
  - lia.
  - lia.
Qed.

Lemma read_callback_copies_min_witness :
  exists buffer' rcb',
    read_callback (replicate 4 "x"%char) 1 4 (new_rcbmessage "abcdef")
      = Some (buffer', rcb', 4) /\
    buffer' = ["a"; "b"; "c"; "d"]%char /\
    bytes_remaining rcb' = 3.
Proof.
  destruct (read_callback_copies_min (replicate 4 "x"%char) 1 4
              (new_rcbmessage "abcdef"))
    as (buffer' & rcb' & Hcall & Htake & _ & _ & Hlen & _ & Hrem & _).
  - unfold buffer_fits. simpl. unfold SIZE_MODULUS, SIZE_WIDTH. lia.
  - unfold rcb_wf, is_size_t, SIZE_MODULUS, SIZE_WIDTH. vm_compute.
    repeat split; discriminate.
  - exists buffer', rcb'. split; [exact Hcall |]. split; [| exact Hrem].
    change (Z.to_nat _) with 4%nat in Htake.
    rewrite take_ge in Htake; [exact Htake | rewrite Hlen; simpl; lia].
Defined.

Section Upload.

Variable reqs : nat -> read_request.
Hypothesis reqs_ok : forall k, request_ok (reqs k).

Lemma curl_upload_S (calls k : nat) (st : read_callback_message) :
  curl_upload (S calls) reqs k st =
    match read_callback (rq_buffer (reqs k)) (rq_size (reqs k))
                        (rq_nitems (reqs k)) st with
    | None => UploadUndefined
    | Some (buffer', st', n) =>
        if n =? 0 then UploadDone [] st'
        else
          match curl_upload calls reqs (S k) st' with
          | UploadDone chunks final =>
              UploadDone (take (Z.to_nat n) buffer' :: chunks) final
          | other => other
          end
    end.
Proof. reflexivity. Qed.

Lemma read_calls_S (n k : nat) (st : read_callback_message) :
  read_calls (S n) reqs k st =
    match read_callback (rq_buffer (reqs k)) (rq_size (reqs k))
                        (rq_nitems (reqs k)) st with
    | None => []
    | Some (_, st', returned) =>
        (bytes_remaining st, returned) :: read_calls n reqs (S k) st'
    end.
Proof. reflexivity. Qed.

(** From any well-formed streaming state with [r] bytes remaining, at
    most [r] calls return a positive count and the next one returns 0. *)
Lemma upload_from :
  forall (r k : nat) (st : read_callback_message),
    rcb_wf st ->
    bytes_remaining st = Z.of_nat r ->
    exists (n : nat) (chunks : list (list ascii)) (log : list (Z * Z)),
      (n <= r)%nat /\
      (forall calls, (n < calls)%nat ->
         curl_upload calls reqs k st = UploadDone chunks (mk_rcb (message st) 0)) /\
      read_calls (S n) reqs k st = log ++ [(0, 0)] /\
      length log = n /\
      Forall (fun c => 0 < c.1 /\ 0 < c.2) log /\
      length chunks = n /\
      Forall (fun c => c <> []) chunks /\
      Forall (fun c => exists m, c = take m (c_str (message st))) chunks /\
      length (concat chunks) = r.
Proof.
  induction r as [r IH] using lt_wf_ind. intros k st Hwf Hr.
  destruct (reqs_ok k) as [Hfit Hpos]. unfold rq_capacity in Hpos.
  pose proof (read_callback_step _ _ _ st Hfit Hwf) as Hstep.
  cbv zeta in Hstep.
  set (n1 := Z.min (bytes_remaining st) (rq_size (reqs k) * rq_nitems (reqs k))) in *.
  destruct Hwf as [[Hlo Hmax] Hhi].
  destruct r as [|r'].
  - (* nothing left: this call returns 0 *)
    assert (Hn1 : n1 = 0) by lia.
    rewrite Hn1, Hr in Hstep. simpl in Hstep.
    exists 0%nat, [], []. repeat split; try constructor.
    + intros [|calls] Hcalls; [lia |].
      rewrite curl_upload_S, Hstep. reflexivity.
    + rewrite read_calls_S, Hstep, Hr. reflexivity.
  - (* a positive count is copied and strictly less remains *)
    assert (Hn1 : 0 < n1 <= Z.of_nat (S r')) by lia.
    set (st' := mk_rcb (message st) (bytes_remaining st - n1)) in *.
    assert (Hwf' : rcb_wf st').
    { unfold rcb_wf, is_size_t, st'. simpl. lia. }
    assert (Hr' : bytes_remaining st' = Z.of_nat (S r' - Z.to_nat n1)).
    { unfold st'. simpl. lia. }
    destruct (IH (S r' - Z.to_nat n1)%nat ltac:(lia) (S k) st' Hwf' Hr')
      as (n & chunks & log & Hle & Hrun & Hlog & Hloglen & Hlogpos
          & Hchunks & Hnonempty & Hprefix & Hconcat).
    assert (Hchunk :
      take (Z.to_nat n1)
           (take (Z.to_nat n1) (c_str (message st))
              ++ drop (Z.to_nat n1) (rq_buffer (reqs k)))
      = take (Z.to_nat n1) (c_str (message st))).
    { apply take_app_length'. rewrite length_take. lia. }
    assert (Hchunklen :
      length (take (Z.to_nat n1) (c_str (message st))) = Z.to_nat n1).
    { rewrite length_take. lia. }
    exists (S n), (take (Z.to_nat n1) (c_str (message st)) :: chunks),
           ((bytes_remaining st, n1) :: log).
    repeat split.
    + lia.
    + intros [|calls] Hcalls; [lia |].
      rewrite curl_upload_S, Hstep.
      destruct (Z.eqb_spec n1 0) as [Hz | _]; [lia |].
      rewrite Hrun by lia. rewrite Hchunk. reflexivity.
    + rewrite read_calls_S, Hstep. fold st'. rewrite Hlog. reflexivity.
    + simpl. lia.
    + constructor; [simpl; lia | exact Hlogpos].
    + simpl. lia.
    + constructor; [| exact Hnonempty].
      intros Hnil. rewrite Hnil in Hchunklen. simpl in Hchunklen. lia.
    + constructor; [eexists; reflexivity | exact Hprefix].
    + simpl. rewrite length_app, Hchunklen, Hconcat. lia.
Qed.

(** When the first buffer holds the whole of [c_str ()], one call copies
    it and the second returns 0. *)
Lemma upload_single_chunk (st : read_callback_message) (calls : nat) :
  rcb_wf st ->
  0 < bytes_remaining st ->
  bytes_remaining st = Z.of_nat (length (c_str (message st))) ->
  bytes_remaining st <= rq_capacity (reqs 0) ->
  curl_upload (S (S calls)) reqs 0 st
    = UploadDone [c_str (message st)] (mk_rcb (message st) 0).
Proof.
  intros Hwf Hpos Hall Hcap. unfold rq_capacity in Hcap.
  destruct (reqs_ok 0%nat) as [Hfit0 _].
  destruct (reqs_ok 1%nat) as [Hfit1 Hpos1]. unfold rq_capacity in Hpos1.
  pose proof (read_callback_step _ _ _ st Hfit0 Hwf) as Hstep0.
  cbv zeta in Hstep0. rewrite Z.min_l in Hstep0 by lia.
  rewrite Z.sub_diag in Hstep0.
  assert (Hwf' : rcb_wf (mk_rcb (message st) 0)).
  { destruct Hwf as [[? ?] ?]. unfold rcb_wf, is_size_t. simpl. lia. }
  pose proof (read_callback_step _ _ _ _ Hfit1 Hwf') as Hstep1.
  cbv zeta in Hstep1. simpl in Hstep1. rewrite Z.min_l in Hstep1 by lia.
  simpl in Hstep1.
  rewrite curl_upload_S, Hstep0.
  destruct (Z.eqb_spec (bytes_remaining st) 0) as [Hz | _]; [lia |].
  rewrite curl_upload_S, Hstep1. simpl.
  rewrite take_app_length'; [| rewrite length_take; lia].
  rewrite take_ge by lia. reflexivity.
Qed.

End Upload.

(** C1, amended.  For a composed message of length [L] wrapped by
    [smtp_send_email] (bytes remaining [L + 1]) and any sequence of buffers
    of positive capacity: at most [L + 1] calls return a positive count, each
    made with a positive number of bytes remaining; the next call is made
    with 0 bytes remaining and returns 0, so the upload ends; the chunks
    copied by the calls that returned a positive count are non-empty and
    hold [L + 1] bytes in all; and when the first buffer has room for
    [L + 1] bytes there is one chunk, the composed message followed by its
    terminator. *)
Theorem upload_ends_after_message_and_terminator
    (composed : string) (reqs : nat -> read_request) :
  Z.of_nat (String.length composed) + 1 < SIZE_MODULUS ->
  (forall k, request_ok (reqs k)) ->
  exists (n : nat) (chunks : list (list ascii)) (log : list (Z * Z)),
    (n <= String.length composed + 1)%nat /\
    (forall calls, (n < calls)%nat ->
       curl_upload calls reqs 0 (new_rcbmessage composed)
         = UploadDone chunks (mk_rcb composed 0)) /\
    read_calls (S n) reqs 0 (new_rcbmessage composed) = log ++ [(0, 0)] /\
    length log = n /\
    Forall (fun c => 0 < c.1 /\ 0 < c.2) log /\
    length chunks = n /\
    Forall (fun c => c <> []) chunks /\
    length (concat chunks) = (String.length composed + 1)%nat /\
    (Z.of_nat (String.length composed) + 1 <= rq_capacity (reqs 0%nat) ->
       chunks = [list_ascii_of_string composed ++ [NUL]]).
Proof.
  intros Hfit Hreqs.
  destruct (new_rcbmessage_wf composed Hfit) as [Hwf Hrem].
  assert (Hr : bytes_remaining (new_rcbmessage composed)
               = Z.of_nat (String.length composed + 1)) by lia.
  destruct (upload_from reqs Hreqs _ 0%nat _ Hwf Hr)
    as (n & chunks & log & Hle & Hrun & Hlog & Hloglen & Hlogpos
        & Hchunks & Hnonempty & _ & Hconcat).
  exists n, chunks, log. repeat split; try assumption.
  intros Hcap.
  pose proof (Hrun (S (S n)) ltac:(lia)) as Hgeneral.
  rewrite (upload_single_chunk reqs Hreqs (new_rcbmessage composed) n) in Hgeneral.
  - injection Hgeneral as <-. reflexivity.
  - exact Hwf.
  - lia.
  - rewrite Hrem. simpl. rewrite length_c_str. lia.
  - lia.
Qed.

Lemma upload_ends_after_message_and_terminator_witness :
  exists chunks,
    curl_upload 8 (fixed_requests 4) 0 (new_rcbmessage "abcdef")
      = UploadDone chunks (mk_rcb "abcdef" 0) /\
    length (concat chunks) = 7%nat.
Proof.
  destruct (upload_ends_after_message_and_terminator "abcdef" (fixed_requests 4))
    as (n & chunks & log & Hle & Hrun & _ & _ & _ & _ & _ & Hconcat & _).
  - vm_compute. reflexivity.
  - intros k. unfold request_ok, buffer_fits, rq_capacity. simpl.
    unfold SIZE_MODULUS, SIZE_WIDTH. lia.
  - exists chunks. split; [apply Hrun; simpl in Hle; lia | exact Hconcat].
Defined.

(** C1 as stated fails: for the message composed for a sample mail and
    buffers of 512 bytes, the upload ends and the bytes copied are the
    composed message and one more byte, the terminator, so they differ from
    the composed message. *)
Lemma upload_chunks_differ_from_message :
  exists composed chunks,
    compose_message sample_now "bob@example.com" "noreply@pvpgn.pro"
                    "PvPGN" "Hi" "Body" = Some composed /\
    curl_upload 3 (fixed_requests 512) 0 (new_rcbmessage composed)
      = UploadDone chunks (mk_rcb composed 0) /\
    concat chunks = list_ascii_of_string composed ++ [NUL] /\
    concat chunks <> list_ascii_of_string composed.
Proof.
  eexists _, _. split; [vm_compute; reflexivity |].
  split; [vm_compute; reflexivity |].
  split; [vm_compute; reflexivity |].
  vm_compute. discriminate.
Qed.

(** X1.  What the calls of [read_callback] copy when the message does not
    fit one buffer: the callback keeps no offset, so every chunk is read
    from the front of the message and its terminator. *)
Lemma upload_chunks_start_at_front (composed : string) (reqs : nat -> read_request) :
  Z.of_nat (String.length composed) + 1 < SIZE_MODULUS ->
  (forall k, request_ok (reqs k)) ->
  exists chunks,
    curl_upload (String.length composed + 2) reqs 0 (new_rcbmessage composed)
      = UploadDone chunks (mk_rcb composed 0) /\
    Forall (fun c => exists m, c = take m (c_str composed)) chunks.
Proof.
  intros Hfit Hreqs.
  destruct (new_rcbmessage_wf composed Hfit) as [Hwf Hrem].
  assert (Hr : bytes_remaining (new_rcbmessage composed)
               = Z.of_nat (String.length composed + 1)) by lia.
  destruct (upload_from reqs Hreqs _ 0%nat _ Hwf Hr)
    as (n & chunks & log & Hle & Hrun & _ & _ & _ & _ & _ & Hprefix & _).
  exists chunks. split; [apply Hrun; lia | exact Hprefix].
Qed.

Example upload_in_two_chunks :
  curl_upload 3 (fixed_requests 4) 0 (new_rcbmessage "abcdef")
    = UploadDone [["a"; "b"; "c"; "d"]; ["a"; "b"; "c"]]%char (mk_rcb "abcdef" 0).
Proof. vm_compute. reflexivity. Qed.

Lemma upload_chunks_start_at_front_witness :
  exists chunks,
    curl_upload 8 (fixed_requests 4) 0 (new_rcbmessage "abcdef")
      = UploadDone chunks (mk_rcb "abcdef" 0) /\
    Forall (fun c => exists m, c = take m (c_str "abcdef")) chunks.
Proof.
  exact (upload_chunks_start_at_front "abcdef" (fixed_requests 4)
           ltac:(vm_compute; reflexivity)
           ltac:(intros k; unfold request_ok, buffer_fits, rq_capacity; simpl;
                 unfold SIZE_MODULUS, SIZE_WIDTH; lia)).
Defined.

(** ** The prepended headers *)

Lemma string_app_cons (c : ascii) (s t : string) :
  String c s +:+ t = String c (s +:+ t).
Proof. reflexivity. Qed.

Lemma string_app_nil_l (s : string) : EmptyString +:+ s = s.
Proof. reflexivity. Qed.

Lemma string_app_assoc (s1 s2 s3 : string) :
  (s1 +:+ s2) +:+ s3 = s1 +:+ (s2 +:+ s3).
Proof.
  induction s1 as [|c s1 IH]; [reflexivity |].
  rewrite !string_app_cons, IH. reflexivity.
Qed.

Lemma string_app_nil_r (s : string) : s +:+ EmptyString = s.
Proof.
  induction s as [|c s IH]; [reflexivity |].
  rewrite string_app_cons, IH. reflexivity.
Qed.

(** Appends are brought into right-nested form, the literal prefixes pushed
    inwards. *)
Create Rewrite HintDb string_app.
#[local] Hint Rewrite string_app_assoc string_app_nil_r string_app_nil_l
  string_app_cons : string_app.

(** C3, amended.  The text [smtp_send_email] prepends to the body is, line
    by line and each line ended by CR LF: [MIME-Version: 1.0];
    [Content-Type: text/plain; charset="UTF-8"] with the charset in double
    quotes; [Date: ] and the local time as weekday name, day, month name,
    year, time of day and offset from UTC; [From: ], the display name as it
    was given (no quotes are added), a space and the sender address in angle
    brackets; [To: ] and the recipient address in angle brackets;
    [Subject: ] and the subject; then an empty line. *)
Theorem compose_message_headers
    (now : tm) (to_address from_address from_name subject body : string) :
  let date :=
    tm_wday_short_name (tm_wday now) +:+ ", " +:+ write2 (tm_mday now) +:+ " " +:+
    tm_mon_short_name (tm_mon now) +:+ " " +:+ write_year (1900 + tm_year now) +:+ " " +:+
    write2 (tm_hour now) +:+ ":" +:+ write2 (tm_min now) +:+ ":" +:+ write2 (tm_sec now) +:+
    " " +:+ write_utc_offset (tm_gmtoff now) in
  compose_message now to_address from_address from_name subject body =
    Some ("MIME-Version: 1.0" +:+ CRLF +:+
          "Content-Type: text/plain; charset=" +:+ dquote +:+ "UTF-8" +:+ dquote +:+ CRLF +:+
          "Date: " +:+ date +:+ CRLF +:+
          "From: " +:+ from_name +:+ " <" +:+ from_address +:+ ">" +:+ CRLF +:+
          "To: <" +:+ to_address +:+ ">" +:+ CRLF +:+
          "Subject: " +:+ subject +:+ CRLF +:+
          CRLF +:+
          body).
Proof.
  intros date. unfold compose_message, fmt_format.
  let f := eval vm_compute in MIME_FORMAT in change MIME_FORMAT with f.
  cbn [fmt_go format_field format_tm format_tm_conversion
       fmap option_fmap option_map].
  f_equal. subst date. unfold CRLF, dquote, CR, LF, DQUOTE.
  autorewrite with string_app. reflexivity.
Qed.

(** C3 as stated fails: in the text composed for a sample mail the display
    name of the [From] header is not enclosed in double quotes, and the
    charset of the [Content-Type] header is. *)
Lemma compose_message_from_is_not_quoted :
  exists composed,
    compose_message sample_now "bob@example.com" "noreply@pvpgn.pro"
                    "PvPGN" "Hi" "Body" = Some composed /\
    string_contains
      ("From: " +:+ dquote +:+ "PvPGN" +:+ dquote +:+ " <noreply@pvpgn.pro>")
      composed = false /\
    string_contains "From: PvPGN <noreply@pvpgn.pro>" composed = true /\
    string_contains "charset=UTF-8" composed = false /\
    string_contains ("charset=" +:+ dquote +:+ "UTF-8" +:+ dquote) composed = true.
Proof.
  eexists. split; [vm_compute; reflexivity |].
  repeat split; vm_compute; reflexivity.
Qed.

(** ** Reasoning about computations *)

(** *** What a computation that returns has kept *)

Section Ensures.

Context {A B : Type}.

Lemma ensures_ret (P : world -> Prop) (Q : A -> world -> Prop) (a : A) :
  (forall w, P w -> Q a w) -> ensures P (ret a) Q.
Proof. intros HPQ w a' w' HP Hrun. injection Hrun as <- <-. auto. Qed.

Lemma ensures_bind (P : world -> Prop) (Q : A -> world -> Prop)
    (R : B -> world -> Prop) (m : M A) (k : A -> M B) :
  ensures P m Q -> (forall a, ensures (Q a) (k a) R) -> ensures P (bind m k) R.
Proof.
  intros Hm Hk w b w' HP Hrun. unfold bind in Hrun.
  destruct (m w) as [[a w1]|] eqn:Hmw; [| discriminate].
  exact (Hk a w1 b w' (Hm w a w1 HP Hmw) Hrun).
Qed.

Lemma ensures_weaken (P P' : world -> Prop) (Q Q' : A -> world -> Prop) (m : M A) :
  ensures P m Q ->
  (forall w, P' w -> P w) -> (forall a w, Q a w -> Q' a w) ->
  ensures P' m Q'.
Proof. intros Hm HP HQ w a w' HP' Hrun. eauto. Qed.

Lemma ensures_stuck (P : world -> Prop) (Q : A -> world -> Prop) :
  ensures P stuck Q.
Proof. intros w a w' _ Hrun. discriminate. Qed.

Lemma ensures_gets (P : world -> Prop) (f : world -> A) :
  ensures P (gets f) (fun a w => P w /\ a = f w).
Proof. intros w a w' HP Hrun. injection Hrun as <- <-. auto. Qed.

End Ensures.

Section Preserves.

Variable I : world -> Prop.

Lemma preserves_ret {A} (a : A) : preserves I (ret a).
Proof. apply ensures_ret. auto. Qed.

Lemma preserves_bind {A B} (m : M A) (k : A -> M B) :
  preserves I m -> (forall a, preserves I (k a)) -> preserves I (bind m k).
Proof. intros Hm Hk. eapply ensures_bind; [exact Hm | exact Hk]. Qed.

Lemma preserves_stuck {A} : preserves I (@stuck A).
Proof. apply ensures_stuck. Qed.

Lemma preserves_gets {A} (f : world -> A) : preserves I (gets f).
Proof. intros w a w' HI Hrun. injection Hrun as <- <-. exact HI. Qed.

Lemma preserves_modify (f : world -> world) :
  (forall w, I w -> I (f w)) -> preserves I (modify f).
Proof. intros Hf w a w' HI Hrun. injection Hrun as <- <-. auto. Qed.

Lemma preserves_for_each {R} (indices : list nat) (body : nat -> M (option R)) :
  (forall i, preserves I (body i)) -> preserves I (for_each indices body).
Proof.
  intros Hbody. induction indices as [|i rest IH]; simpl.
  - apply preserves_ret.
  - apply preserves_bind; [apply Hbody |].
    intros [x|]; [apply preserves_ret | exact IH].
Qed.

End Preserves.

(** *** Computations that return and maintain an invariant *)

Section Maintains.

Variable I : world -> Prop.

Lemma maintains_ret {A} (a : A) : maintains I (ret a).
Proof. intros w Hw. exists a, w. split; [reflexivity | exact Hw]. Qed.

Lemma maintains_bind {A B} (m : M A) (k : A -> M B) :
  maintains I m -> (forall a, maintains I (k a)) -> maintains I (bind m k).
Proof.
  intros Hm Hk w Hw.
  destruct (Hm w Hw) as (a & w1 & Hrun & Hw1).
  destruct (Hk a w1 Hw1) as (b & w2 & Hrun' & Hw2).
  exists b, w2. unfold bind. rewrite Hrun. split; assumption.
Qed.

Lemma maintains_gets {A} (f : world -> A) : maintains I (gets f).
Proof. intros w Hw. exists (f w), w. split; [reflexivity | exact Hw]. Qed.

Lemma maintains_modify (f : world -> world) :
  (forall w, I w -> I (f w)) -> maintains I (modify f).
Proof. intros Hf w Hw. exists tt, (f w). split; [reflexivity | auto]. Qed.

Lemma maintains_for_each {R} (indices : list nat) (body : nat -> M (option R)) :
  (forall i, i ∈ indices -> maintains I (body i)) ->
  maintains I (for_each indices body).
Proof.
  induction indices as [|i rest IH]; intros Hbody; simpl.
  - apply maintains_ret.
  - apply maintains_bind.
    + apply Hbody. left.
    + intros [x|]; [apply maintains_ret |].
      apply IH. intros j Hj. apply Hbody. right. exact Hj.
Qed.

End Maintains.

(** *** Running a computation step by step *)

Lemma bind_run {A B} (m : M A) (k : A -> M B) (w w1 : world) (a : A) :
  m w = Some (a, w1) -> bind m k w = k a w1.
Proof. intros Hm. unfold bind. rewrite Hm. reflexivity. Qed.

(** Brings the worlds of the goal back to one record of fields. *)
Ltac normalize_world :=
  cbn [is_curl_initialized smtp_thread handles_and_mutexes smtp_ca_cert_store
       smtp_server_url smtp_port smtp_username smtp_password heap next_ptr
       curl_global faults rounds trace
       set_is_curl_initialized set_smtp_thread set_handles_and_mutexes
       set_smtp_ca_cert_store set_smtp_server_url set_smtp_port
       set_smtp_username set_smtp_password set_heap set_next_ptr
       set_curl_global set_faults set_rounds set_trace].

(** Runs the first computation of a sequence with the given equation. *)
Tactic Notation "run_with" tactic3(t) :=
  (erewrite bind_run; [| t]); cbv beta iota; normalize_world.

Ltac normalize_world_everywhere :=
  cbn [is_curl_initialized smtp_thread handles_and_mutexes smtp_ca_cert_store
       smtp_server_url smtp_port smtp_username smtp_password heap next_ptr
       curl_global faults rounds trace
       set_is_curl_initialized set_smtp_thread set_handles_and_mutexes
       set_smtp_ca_cert_store set_smtp_server_url set_smtp_port
       set_smtp_username set_smtp_password set_heap set_next_ptr
       set_curl_global set_faults set_rounds set_trace] in *.

(** Takes the equation of a returned run of library steps apart: one case
    per way through the steps, each with the world it leaves. *)
Ltac run_split H :=
  cbv beta iota in H;
  lazymatch type of H with
  | None = Some _ => discriminate H
  | Some _ = Some _ => injection H as <- <-
  | _ =>
      match type of H with
      | context [match ?x with _ => _ end] =>
          lazymatch x with
          | context [match _ with _ => _ end] => fail
          | _ => destruct x eqn:?; run_split H
          end
      end
  end.

Ltac run_cases H :=
  unfold curl_global_init, curl_global_cleanup, curl_multi_init,
    curl_multi_cleanup, curl_multi_timeout, curl_multi_poll, curl_multi_perform,
    curl_multi_info_read, curl_multi_add_handle, curl_multi_remove_handle,
    curl_easy_init, curl_easy_setopt, curl_easy_getinfo_private,
    curl_easy_cleanup, curl_slist_append, curl_slist_free_all, xmalloc_rcb,
    assign_message, assign_bytes_remaining, mutex_try_lock, mutex_unlock, store_is_curl_initialized, thread_start,
    thread_join, must_format, load_multi, load_easy, load_slist,
    next_fault, next_round, alloc, free, load, store, get_slot, put_slot,
    eventlog, emit, bind, ret, gets, modify, stuck in H;
  cbv beta in H;
  run_split H.

(** The same steps, read off a run that has returned. *)
Lemma bind_inv {A B} (m : M A) (k : A -> M B) (w w' : world) (b : B) :
  bind m k w = Some (b, w') ->
  exists a w1, m w = Some (a, w1) /\ k a w1 = Some (b, w').
Proof.
  unfold bind. destruct (m w) as [[a w1]|]; [eauto | discriminate].
Qed.

(** Unfolds every field access and update of the worlds in the context. *)
Ltac flatten_worlds :=
  cbv beta iota delta
    [is_curl_initialized smtp_thread handles_and_mutexes smtp_ca_cert_store
     smtp_server_url smtp_port smtp_username smtp_password heap next_ptr
     curl_global faults rounds trace
     set_is_curl_initialized set_smtp_thread set_handles_and_mutexes
     set_smtp_ca_cert_store set_smtp_server_url set_smtp_port
     set_smtp_username set_smtp_password set_heap set_next_ptr
     set_curl_global set_faults set_rounds set_trace] in *.

(** Runs the first computation of the returned sequence in [H]: one case
    per way through it. *)
Ltac step_in H :=
  let a := fresh "a" in
  let w1 := fresh "w" in
  let Hs := fresh "Hstep" in
  apply bind_inv in H as (a & w1 & Hs & H);
  run_cases Hs; normalize_world_everywhere; cbv beta iota in H.

Lemma bind_assoc_run {A B C} (m : M A) (k : A -> M B) (k' : B -> M C) (w : world) :
  bind (bind m k) k' w = bind m (fun a => bind (k a) k') w.
Proof. unfold bind. destruct (m w) as [[a w1]|]; reflexivity. Qed.

(** Runs the whole sequence in [H]. *)
Ltac steps_in H :=
  repeat first
    [ rewrite bind_assoc_run in H
    | step_in H; flatten_worlds ].

(** ** Configuration *)

Section Config.

Variable w : world.

(** The six ways through [smtp_config]. *)
Lemma smtp_config_null_ca_cert_store url port user pw :
  smtp_config None url port user pw w =
    Some (false,
          set_trace (trace w ++ [EvLog eventlog_level_error "smtp_config"
                                   "Received NULL prefs_smtp_ca_cert_store" []]) w).
Proof. reflexivity. Qed.

Lemma smtp_config_null_server_url ca port user pw :
  smtp_config (Some ca) None port user pw w =
    Some (false,
          set_trace (trace w ++ [EvLog eventlog_level_error "smtp_config"
                                   "Received NULL prefs_smtp_server_url" []]) w).
Proof. reflexivity. Qed.

Lemma smtp_config_port_out_of_range ca url port user pw :
  65535 < port ->
  smtp_config (Some ca) (Some url) port user pw w =
    Some (false,
          set_trace (trace w ++ [EvLog eventlog_level_error "smtp_config"
                                   "Received out-of-range port number ({})"
                                   [LogZ port]]) w).
Proof.
  intros Hport. unfold smtp_config.
  destruct (Z.ltb_spec 65535 port); [reflexivity | lia].
Qed.

Lemma smtp_config_null_username ca url port pw :
  port <= 65535 ->
  smtp_config (Some ca) (Some url) port None pw w =
    Some (false,
          set_trace (trace w ++ [EvLog eventlog_level_error "smtp_config"
                                   "Received NULL prefs_smtp_username" []]) w).
Proof.
  intros Hport. unfold smtp_config.
  destruct (Z.ltb_spec 65535 port); [lia | reflexivity].
Qed.

Lemma smtp_config_null_password ca url port user :
  port <= 65535 ->
  smtp_config (Some ca) (Some url) port (Some user) None w =
    Some (false,
          set_trace (trace w ++ [EvLog eventlog_level_error "smtp_config"
                                   "Received NULL prefs_smtp_password" []]) w).
Proof.
  intros Hport. unfold smtp_config.
  destruct (Z.ltb_spec 65535 port); [lia | reflexivity].
Qed.

Lemma smtp_config_accepts ca url port user pw :
  port <= 65535 ->
  smtp_config (Some ca) (Some url) port (Some user) (Some pw) w =
    Some (true,
          set_smtp_password pw
            (set_smtp_username user
               (set_smtp_port port
                  (set_smtp_server_url
                     (snprintf (smtp_server_url w) SMTP_SERVER_URL_SIZE
                               "smtps://%s" [url])
                     (set_smtp_ca_cert_store ca w))))).
Proof.
  intros Hport. unfold smtp_config.
  destruct (Z.ltb_spec 65535 port); [lia | reflexivity].
Qed.

(** Every refusal appends one log line and touches nothing else. *)
Lemma smtp_config_refuses ca url port user pw :
  ca = None \/ url = None \/ 65535 < port \/ user = None \/ pw = None ->
  exists line,
    smtp_config ca url port user pw w
      = Some (false, set_trace (trace w ++ [line]) w).
Proof.
  intros Hbad.
  destruct ca as [ca|]; [| eexists; apply smtp_config_null_ca_cert_store].
  destruct url as [url|]; [| eexists; apply smtp_config_null_server_url].
  destruct (Z.lt_ge_cases 65535 port) as [Hhigh | Hlow];
    [eexists; apply smtp_config_port_out_of_range; exact Hhigh |].
  destruct user as [user|];
    [| eexists; apply smtp_config_null_username; lia].
  destruct pw as [pw|];
    [| eexists; apply smtp_config_null_password; lia].
  destruct Hbad as [H | [H | [H | [H | H]]]]; try discriminate; lia.
Qed.

End Config.

Section Init.

Variable w : world.
Variables ca url : option string.
Variable port : Z.
Variables user pw : option string.

Lemma smtp_init_already_initialized :
  is_curl_initialized w = true ->
  smtp_init ca url port user pw w =
    Some (false,
          set_trace (trace w ++ [EvLog eventlog_level_error "smtp_init"
                                   "libcurl has already been initialized" []]) w).
Proof.
  intros Hflag. unfold smtp_init, bind, gets. rewrite Hflag. reflexivity.
Qed.

Lemma smtp_init_refuses :
  is_curl_initialized w = false ->
  ca = None \/ url = None \/ 65535 < port \/ user = None \/ pw = None ->
  exists line,
    smtp_init ca url port user pw w =
      Some (false,
            set_trace ((trace w ++ [line])
                         ++ [EvLog eventlog_level_error "smtp_init"
                               "Failed to set SMTP data" []]) w).
Proof.
  intros Hflag Hbad.
  destruct (smtp_config_refuses w ca url port user pw Hbad) as [line Hconfig].
  exists line. unfold smtp_init, bind, gets. rewrite Hflag, Hconfig.
  reflexivity.
Qed.

End Init.

(** *** Steps that return and leave the configuration alone *)

Section KeepsConfig.

Variable c : string * list ascii * Z * string * string.

Local Ltac by_unfolding :=
  intros w [Hc Hn]; eexists _, _; split;
  [reflexivity | split; [exact Hc | exact Hn]].

Lemma emit_keeps_config (e : event) : maintains (configured_as c) (emit e).
Proof. by_unfolding. Qed.

Lemma eventlog_keeps_config level function text args :
  maintains (configured_as c) (eventlog level function text args).
Proof. by_unfolding. Qed.

Lemma next_fault_keeps_config : maintains (configured_as c) next_fault.
Proof.
  intros w [Hc Hn]. unfold next_fault.
  destruct (faults w) as [|ok rest]; eexists _, _;
    (split; [reflexivity | split; [exact Hc | exact Hn]]).
Qed.

Lemma alloc_keeps_config (o : object) : maintains (configured_as c) (alloc o).
Proof. by_unfolding. Qed.

Lemma get_slot_keeps_config (i : nat) :
  (i < POOL_SIZE)%nat -> maintains (configured_as c) (get_slot i).
Proof.
  intros Hi w [Hc Hn]. unfold get_slot.
  destruct (lookup_lt_is_Some_2 (handles_and_mutexes w) i) as [s Hs]; [lia |].
  rewrite Hs. exists s, w. split; [reflexivity | split; assumption].
Qed.

Lemma put_slot_keeps_config (i : nat) (s : slot) :
  maintains (configured_as c) (put_slot i s).
Proof.
  intros w [Hc Hn]. eexists _, _. split; [reflexivity |].
  split; [exact Hc |]. simpl. rewrite length_insert. exact Hn.
Qed.

Lemma curl_multi_init_keeps_config : maintains (configured_as c) curl_multi_init.
Proof.
  unfold curl_multi_init.
  apply maintains_bind; [apply next_fault_keeps_config |].
  intros [|].
  - apply maintains_bind; [apply alloc_keeps_config | intros h].
    apply maintains_bind; [apply emit_keeps_config | intros _].
    apply maintains_ret.
  - apply maintains_bind; [apply emit_keeps_config | intros _].
    apply maintains_ret.
Qed.

Lemma curl_global_init_keeps_config (flags : Z) :
  maintains (configured_as c) (curl_global_init flags).
Proof.
  unfold curl_global_init.
  apply maintains_bind; [apply next_fault_keeps_config |].
  intros [|].
  - apply maintains_bind; [apply maintains_modify; intros w Hw; exact Hw |].
    intros _. apply maintains_bind; [apply emit_keeps_config | intros _].
    apply maintains_ret.
  - apply maintains_bind; [apply emit_keeps_config | intros _].
    apply maintains_ret.
Qed.

Lemma thread_start_keeps_config : maintains (configured_as c) thread_start.
Proof. by_unfolding. Qed.

Lemma store_is_curl_initialized_keeps_config (b : bool) :
  maintains (configured_as c) (store_is_curl_initialized b).
Proof. by_unfolding. Qed.

End KeepsConfig.

(** With the flag clear and acceptable arguments [smtp_init] returns,
    whatever libcurl answers, and has stored the configuration by then. *)
Lemma smtp_init_stores (w : world) (ca url : string) (port : Z) (user pw : string) :
  is_curl_initialized w = false ->
  length (handles_and_mutexes w) = POOL_SIZE ->
  port <= 65535 ->
  exists r w',
    smtp_init (Some ca) (Some url) port (Some user) (Some pw) w = Some (r, w') /\
    stored_config w' =
      (ca, snprintf (smtp_server_url w) SMTP_SERVER_URL_SIZE "smtps://%s" [url],
       port, user, pw).
Proof.
  intros Hflag Hslots Hport.
  set (c := (ca, snprintf (smtp_server_url w) SMTP_SERVER_URL_SIZE "smtps://%s" [url],
             port, user, pw)).
  unfold smtp_init. unfold bind at 1, gets at 1. rewrite Hflag.
  unfold bind at 1. rewrite smtp_config_accepts by exact Hport.
  cbn [negb].
  match goal with
  | |- exists r w', ?m ?w0 = Some (r, w') /\ _ =>
      assert (Hrest : maintains (configured_as c) m);
      [| destruct (Hrest w0) as (r & w' & Hrun & Hc & _);
         [split; [reflexivity | exact Hslots] | exists r, w'; split; assumption]]
  end.
  apply maintains_bind.
  - apply maintains_for_each. intros i Hi.
    assert (i < POOL_SIZE)%nat.
    { unfold slot_indices in Hi. apply list_elem_of_In, in_seq in Hi. lia. }
    apply maintains_bind; [apply curl_multi_init_keeps_config | intros h].
    apply maintains_bind; [apply get_slot_keeps_config; assumption | intros s].
    apply maintains_bind; [apply put_slot_keeps_config | intros _].
    destruct h.
    + apply maintains_ret.
    + apply maintains_bind; [apply eventlog_keeps_config | intros _].
      apply maintains_ret.
  - intros [result|]; [apply maintains_ret |].
    apply maintains_bind; [apply curl_global_init_keeps_config | intros code].
    destruct (negb (code =? 0)).
    + apply maintains_bind; [apply eventlog_keeps_config | intros _].
      apply maintains_ret.
    + apply maintains_bind; [apply thread_start_keeps_config | intros _].
      apply maintains_bind; [apply store_is_curl_initialized_keeps_config | intros _].
      apply maintains_ret.
Qed.

(** C4, amended.  A call of [smtp_init] or [smtp_reconfig] in which the CA
    path, the host, the user name or the password is null, or the port is
    above 65535, returns [false] and leaves the five configuration variables
    as they were.  A call of [smtp_reconfig] with the four strings present
    and a port of at most 65535 returns [true] and has stored the CA path,
    the URL written by [snprintf], the port, the user name and the password;
    so has a call of [smtp_init] with such arguments that is made while
    [is_curl_initialized] is false, whatever it returns. *)
Theorem config_is_refused_or_stored
    (w : world) (ca url : option string) (port : Z) (user pw : option string) :
  (ca = None \/ url = None \/ 65535 < port \/ user = None \/ pw = None ->
     (exists w', smtp_reconfig ca url port user pw w = Some (false, w') /\
                 stored_config w' = stored_config w) /\
     (exists w', smtp_init ca url port user pw w = Some (false, w') /\
                 stored_config w' = stored_config w)) /\
  (forall ca' url' user' pw',
     ca = Some ca' -> url = Some url' -> user = Some user' -> pw = Some pw' ->
     port <= 65535 ->
     let stored :=
       (ca', snprintf (smtp_server_url w) SMTP_SERVER_URL_SIZE "smtps://%s" [url'],
        port, user', pw') in
     (exists w', smtp_reconfig ca url port user pw w = Some (true, w') /\
                 stored_config w' = stored) /\
     (is_curl_initialized w = false ->
      length (handles_and_mutexes w) = POOL_SIZE ->
      exists r w', smtp_init ca url port user pw w = Some (r, w') /\
                   stored_config w' = stored)).
Proof.
  split.
  - intros Hbad. split.
    + destruct (smtp_config_refuses w ca url port user pw Hbad) as [line Hconfig].
      eexists. split; [exact Hconfig | reflexivity].
    + destruct (is_curl_initialized w) eqn:Hflag.
      * eexists. split; [apply smtp_init_already_initialized; exact Hflag |].
        reflexivity.
      * destruct (smtp_init_refuses w ca url port user pw Hflag Hbad)
          as [line Hinit].
        eexists. split; [exact Hinit | reflexivity].
  - intros ca' url' user' pw' -> -> -> -> Hport stored. split.
    + eexists. split; [apply smtp_config_accepts; exact Hport | reflexivity].
    + intros Hflag Hslots. apply smtp_init_stores; assumption.
Qed.

Lemma config_is_refused_or_stored_witness :
  (exists w', smtp_init (Some "/ca.pem") (Some "mail.example.com") 70000
                        (Some "user") (Some "pw") (initial_world [] [])
                = Some (false, w') /\
              stored_config w' = stored_config (initial_world [] [])) /\
  (exists w', smtp_reconfig (Some "/ca.pem") (Some "mail.example.com") 587
                            (Some "user") (Some "pw") (initial_world [] [])
                = Some (true, w') /\
              smtp_port w' = 587 /\ smtp_username w' = "user"%string).
Proof.
  split.
  - apply (config_is_refused_or_stored (initial_world [] [])
             (Some "/ca.pem"%string) (Some "mail.example.com"%string) 70000
             (Some "user"%string) (Some "pw"%string)).
    right. right. left. lia.
  - destruct (config_is_refused_or_stored (initial_world [] [])
                (Some "/ca.pem"%string) (Some "mail.example.com"%string) 587
                (Some "user"%string) (Some "pw"%string)) as [_ Hgood].
    destruct (Hgood "/ca.pem"%string "mail.example.com"%string
                    "user"%string "pw"%string
                    eq_refl eq_refl eq_refl eq_refl ltac:(lia))
      as [(w' & Hrun & Hstored) _].
    exists w'. split; [exact Hrun |].
    unfold stored_config in Hstored. injection Hstored as _ _ Hp Hu _.
    split; assumption.
Defined.

(** C4 as stated fails: once [smtp_init] has succeeded, a second call with
    four strings and a port below 65536 returns [false] without validating
    anything, and the configuration is the one of the first call. *)
Lemma second_init_stores_nothing :
  is_curl_initialized initialized_world = true /\
  exists w',
    smtp_init (Some "/other.pem") (Some "smtp.example.org") 465
              (Some "someone") (Some "secret") initialized_world
      = Some (false, w') /\
    stored_config w' = stored_config initialized_world /\
    smtp_port w' = 587 /\
    smtp_username w' = "user"%string /\
    read_c_string (smtp_server_url w') = "smtps://mail.example.com"%string.
Proof.
  split; [vm_compute; reflexivity |].
  eexists. split; [vm_compute; reflexivity |].
  repeat split; vm_compute; reflexivity.
Qed.

(** C5.  When [is_curl_initialized] is true, [smtp_init] returns [false],
    logs that libcurl has already been initialized, and changes nothing
    else: the configuration, both pool slots, the poller thread, the flag
    and everything libcurl holds are as before. *)
Theorem second_init_fails_without_change
    (w : world) (ca url : option string) (port : Z) (user pw : option string) :
  is_curl_initialized w = true ->
  exists w',
    smtp_init ca url port user pw w = Some (false, w') /\
    w' = set_trace (trace w ++ [EvLog eventlog_level_error "smtp_init"
                                  "libcurl has already been initialized" []]) w /\
    stored_config w' = stored_config w /\
    handles_and_mutexes w' = handles_and_mutexes w /\
    smtp_thread w' = smtp_thread w /\
    is_curl_initialized w' = true /\
    heap w' = heap w /\
    next_ptr w' = next_ptr w /\
    curl_global w' = curl_global w.
Proof.
  intros Hflag. eexists. split.
  - apply smtp_init_already_initialized. exact Hflag.
  - repeat split. exact Hflag.
Qed.

Lemma second_init_fails_without_change_witness :
  exists w',
    smtp_init (Some "/other.pem") (Some "smtp.example.org") 465
              (Some "someone") (Some "secret") initialized_world
      = Some (false, w') /\
    stored_config w' = stored_config initialized_world /\
    handles_and_mutexes w' = handles_and_mutexes initialized_world.
Proof.
  destruct (second_init_fails_without_change initialized_world
              (Some "/other.pem"%string) (Some "smtp.example.org"%string) 465
              (Some "someone"%string) (Some "secret"%string))
    as (w' & Hrun & _ & Hconfig & Hslots & _).
  - vm_compute. reflexivity.
  - exists w'. repeat split; assumption.
Defined.

(** C10.  [smtp_reconfig] does not read [is_curl_initialized]: run with the
    flag set either way it returns the same value and leaves the same world
    but for the flag itself; with four strings and a port of at most 65535
    it returns [true] and has stored the configuration, flag set or not. *)
Theorem reconfig_ignores_initialization
    (w : world) (b : bool) (ca url : option string) (port : Z)
    (user pw : option string) :
  smtp_reconfig ca url port user pw (set_is_curl_initialized b w) =
    match smtp_reconfig ca url port user pw w with
    | Some (r, w') => Some (r, set_is_curl_initialized b w')
    | None => None
    end /\
  (forall ca' url' user' pw',
     ca = Some ca' -> url = Some url' -> user = Some user' -> pw = Some pw' ->
     port <= 65535 ->
     exists w',
       smtp_reconfig ca url port user pw w = Some (true, w') /\
       stored_config w' =
         (ca', snprintf (smtp_server_url w) SMTP_SERVER_URL_SIZE "smtps://%s" [url'],
          port, user', pw') /\
       is_curl_initialized w' = is_curl_initialized w).
Proof.
  split.
  - unfold smtp_reconfig, smtp_config.
    destruct ca, url; try reflexivity.
    destruct (65535 <? port); [reflexivity |].
    destruct user, pw; reflexivity.
  - intros ca' url' user' pw' -> -> -> -> Hport.
    eexists. split; [apply smtp_config_accepts; exact Hport |].
    split; reflexivity.
Qed.

Lemma reconfig_ignores_initialization_witness :
  exists w',
    smtp_reconfig (Some "/ca.pem") (Some "mail.example.com") 587
                  (Some "user") (Some "pw") (initial_world [] [])
      = Some (true, w') /\
    is_curl_initialized w' = false /\
    read_c_string (smtp_server_url w') = "smtps://mail.example.com"%string.
Proof.
  destruct (reconfig_ignores_initialization (initial_world [] []) false
              (Some "/ca.pem"%string) (Some "mail.example.com"%string) 587
              (Some "user"%string) (Some "pw"%string)) as [_ Hgood].
  destruct (Hgood "/ca.pem"%string "mail.example.com"%string
                  "user"%string "pw"%string
                  eq_refl eq_refl eq_refl eq_refl ltac:(lia))
    as (w' & Hrun & Hstored & Hflag).
  exists w'. split; [exact Hrun |]. split; [exact Hflag |].
  unfold stored_config in Hstored. injection Hstored as _ Hurl _ _ _.
  rewrite Hurl. vm_compute. reflexivity.
Defined.

(** ** The server URL *)

Lemma printf_smtps_url (host : string) :
  printf_format "smtps://%s" [host] = "smtps://" +:+ host.
Proof.
  cbn [printf_format]. rewrite string_app_nil_r. reflexivity.
Qed.

Lemma list_ascii_of_string_app (s t : string) :
  list_ascii_of_string (s +:+ t) = list_ascii_of_string s ++ list_ascii_of_string t.
Proof.
  induction s as [|c s IH]; [reflexivity |].
  rewrite string_app_cons. simpl. rewrite IH. reflexivity.
Qed.

Lemma string_of_list_ascii_app (l k : list ascii) :
  string_of_list_ascii (l ++ k) = string_of_list_ascii l +:+ string_of_list_ascii k.
Proof.
  induction l as [|c l IH]; [reflexivity |].
  simpl. rewrite IH, string_app_cons. reflexivity.
Qed.

Lemma length_list_ascii_of_string (s : string) :
  length (list_ascii_of_string s) = String.length s.
Proof. induction s as [|c s IH]; simpl; [reflexivity | rewrite IH; reflexivity]. Qed.

Lemma length_string_of_list_ascii (l : list ascii) :
  String.length (string_of_list_ascii l) = length l.
Proof. induction l as [|c l IH]; simpl; [reflexivity | rewrite IH; reflexivity]. Qed.

(** Text without a terminator, followed by a terminator, reads back as
    itself. *)
Lemma read_c_string_terminated (text rest : list ascii) :
  forallb (fun c => negb (Ascii.eqb c NUL)) text = true ->
  read_c_string (text ++ NUL :: rest) = string_of_list_ascii text.
Proof.
  induction text as [|c text IH]; intros Hfree; [reflexivity |].
  simpl in Hfree. apply andb_true_iff in Hfree as [Hc Hrest].
  cbn [app read_c_string string_of_list_ascii].
  apply negb_true_iff in Hc. rewrite Hc, (IH Hrest). reflexivity.
Qed.

Lemma forallb_take {A} (f : A -> bool) (n : nat) (l : list A) :
  forallb f l = true -> forallb f (take n l) = true.
Proof.
  revert n. induction l as [|x l IH]; intros [|n] H; try reflexivity.
  simpl in *. apply andb_true_iff in H as [Hx Hl].
  rewrite Hx, (IH n Hl). reflexivity.
Qed.

Lemma url_text_nul_free (host : string) :
  nul_free host -> nul_free ("smtps://" +:+ host).
Proof. intros Hhost. unfold nul_free in *. simpl. exact Hhost. Qed.

Lemma length_snprintf (buf : list ascii) (size : nat) (f : string) (args : list string) :
  length buf = size -> length (snprintf buf size f args) = size.
Proof.
  intros Hlen. unfold snprintf. destruct size as [|room]; [exact Hlen |].
  rewrite !length_app, length_drop, length_take. simpl. lia.
Qed.

Lemma read_snprintf (buf : list ascii) (room : nat) (f : string) (args : list string) :
  nul_free (printf_format f args) ->
  read_c_string (snprintf buf (S room) f args)
    = string_of_list_ascii (take room (list_ascii_of_string (printf_format f args))).
Proof.
  intros Hfree. unfold snprintf. cbn [app].
  apply read_c_string_terminated, forallb_take, Hfree.
Qed.

(** C9.  After a successful [smtp_config] the 512-byte array
    [smtp_server_url] holds, as a C string, the text [smtps://] followed by
    the host, cut to its first 511 characters: a host of at most 503
    characters is stored whole, a longer one is accepted all the same and
    only its first 503 characters are kept. *)
Theorem server_url_is_scheme_and_host_truncated
    (w : world) (ca host : string) (port : Z) (user pw : string) :
  length (smtp_server_url w) = SMTP_SERVER_URL_SIZE ->
  nul_free host ->
  port <= 65535 ->
  exists w',
    smtp_config (Some ca) (Some host) port (Some user) (Some pw) w = Some (true, w') /\
    length (smtp_server_url w') = SMTP_SERVER_URL_SIZE /\
    read_c_string (smtp_server_url w')
      = string_of_list_ascii (take 511 (list_ascii_of_string ("smtps://" +:+ host))) /\
    (String.length (read_c_string (smtp_server_url w')) <= 511)%nat /\
    ((String.length host <= 503)%nat ->
       read_c_string (smtp_server_url w') = "smtps://" +:+ host) /\
    ((503 < String.length host)%nat ->
       read_c_string (smtp_server_url w')
         = "smtps://" +:+ string_of_list_ascii (take 503 (list_ascii_of_string host)) /\
       String.length (read_c_string (smtp_server_url w')) = 511%nat).
Proof.
  intros Hlen Hhost Hport.
  eexists. split; [apply smtp_config_accepts; exact Hport |].
  cbn [smtp_server_url set_smtp_password set_smtp_username set_smtp_port
       set_smtp_server_url set_smtp_ca_cert_store].
  assert (Hread :
    read_c_string (snprintf (smtp_server_url w) SMTP_SERVER_URL_SIZE "smtps://%s" [host])
      = string_of_list_ascii (take 511 (list_ascii_of_string ("smtps://" +:+ host)))).
  { change SMTP_SERVER_URL_SIZE with (S 511).
    rewrite read_snprintf; rewrite printf_smtps_url;
      [reflexivity | apply url_text_nul_free; exact Hhost]. }
  assert (Hsplit :
    take 511 (list_ascii_of_string ("smtps://" +:+ host))
      = list_ascii_of_string "smtps://" ++ take 503 (list_ascii_of_string host)).
  { rewrite list_ascii_of_string_app, take_app.
    rewrite (take_ge (list_ascii_of_string "smtps://")) by (simpl; lia).
    reflexivity. }
  split; [apply length_snprintf; exact Hlen |].
  split; [exact Hread |].
  rewrite Hread.
  split.
  { rewrite length_string_of_list_ascii, length_take. lia. }
  split.
  - intros Hshort. rewrite Hsplit, take_ge
      by (rewrite length_list_ascii_of_string; lia).
    rewrite <- list_ascii_of_string_app.
    apply string_of_list_ascii_of_string.
  - intros Hlong. rewrite Hsplit. split.
    + rewrite string_of_list_ascii_app. reflexivity.
    + rewrite length_string_of_list_ascii, length_app, length_take,
        !length_list_ascii_of_string.
      change (String.length "smtps://") with 8%nat. lia.
Qed.

Lemma server_url_is_scheme_and_host_truncated_witness :
  exists w',
    smtp_config (Some "/ca.pem") (Some (string_of_list_ascii (replicate 600 "a"%char)))
                587 (Some "user") (Some "pw") (initial_world [] [])
      = Some (true, w') /\
    read_c_string (smtp_server_url w')
      = "smtps://" +:+ string_of_list_ascii (replicate 503 "a"%char) /\
    String.length (read_c_string (smtp_server_url w')) = 511%nat.
Proof.
  destruct (server_url_is_scheme_and_host_truncated (initial_world [] [])
              "/ca.pem" (string_of_list_ascii (replicate 600 "a"%char))
              587 "user" "pw")
    as (w' & Hrun & _ & _ & _ & _ & Hlong).
  - vm_compute. reflexivity.
  - vm_compute. reflexivity.
  - lia.
  - destruct Hlong as [Hurl Hlength]; [vm_compute; lia |].
    exists w'. split; [exact Hrun |]. split; [| exact Hlength].
    rewrite Hurl. vm_compute. reflexivity.
Defined.

(** ** The flag outside [smtp_init] and [smtp_cleanup] *)

Section Flag.

Local Ltac flag_kept :=
  let H := fresh "Hrun" in
  intros w a w' HI H; run_cases H; exact HI.

Lemma eventlog_keeps_flag level function text args :
  preserves uninitialized (eventlog level function text args).
Proof. flag_kept. Qed.

Lemma smtp_config_keeps_flag ca url port user pw :
  preserves uninitialized (smtp_config ca url port user pw).
Proof. unfold smtp_config. flag_kept. Qed.

Lemma curl_multi_init_keeps_flag : preserves uninitialized curl_multi_init.
Proof. flag_kept. Qed.

Lemma curl_global_init_keeps_flag flags :
  preserves uninitialized (curl_global_init flags).
Proof. flag_kept. Qed.

Lemma get_slot_keeps_flag i : preserves uninitialized (get_slot i).
Proof. flag_kept. Qed.

Lemma put_slot_keeps_flag i s : preserves uninitialized (put_slot i s).
Proof. flag_kept. Qed.

Lemma thread_join_keeps_flag : preserves uninitialized thread_join.
Proof. flag_kept. Qed.

Lemma curl_multi_cleanup_keeps_flag h :
  preserves uninitialized (curl_multi_cleanup h).
Proof. flag_kept. Qed.

Lemma curl_global_cleanup_keeps_flag : preserves uninitialized curl_global_cleanup.
Proof. flag_kept. Qed.

End Flag.

(** A call of [smtp_init] that fails leaves the flag clear if it was. *)
Lemma smtp_init_failure_keeps_flag ca url port user pw :
  ensures uninitialized (smtp_init ca url port user pw)
          (fun r w' => r = false -> uninitialized w').
Proof.
  unfold smtp_init.
  eapply ensures_bind; [apply ensures_gets |].
  intros initialized. destruct initialized.
  { intros w a w' [HI Hflag]. unfold uninitialized in HI. congruence. }
  eapply ensures_bind with (Q := fun _ => uninitialized).
  { eapply ensures_weaken; [apply smtp_config_keeps_flag | tauto | auto]. }
  intros configured. destruct configured; cbn [negb].
  2:{ eapply ensures_bind; [apply eventlog_keeps_flag |].
      intros ?. apply ensures_ret. auto. }
  eapply ensures_bind with (Q := fun _ => uninitialized).
  { apply preserves_for_each. intros i.
    apply preserves_bind; [apply curl_multi_init_keeps_flag | intros h].
    apply preserves_bind; [apply get_slot_keeps_flag | intros s].
    apply preserves_bind; [apply put_slot_keeps_flag | intros ?].
    destruct h; [apply preserves_ret |].
    apply preserves_bind; [apply eventlog_keeps_flag | intros ?].
    apply preserves_ret. }
  intros [result|]; [apply ensures_ret; auto |].
  eapply ensures_bind; [apply curl_global_init_keeps_flag |].
  intros code. destruct (negb (code =? 0)).
  - eapply ensures_bind; [apply eventlog_keeps_flag |].
    intros ?. apply ensures_ret. auto.
  - intros w a w' _ Hrun. run_cases Hrun. discriminate.
Qed.

(** Whenever [smtp_cleanup] returns, the flag is clear. *)
Lemma smtp_cleanup_clears_flag :
  ensures (fun _ => True) smtp_cleanup (fun _ => uninitialized).
Proof.
  unfold smtp_cleanup.
  eapply ensures_bind; [apply ensures_gets |].
  intros initialized. destruct initialized.
  - eapply ensures_bind with (Q := fun _ => uninitialized).
    { intros w a w' _ Hrun. run_cases Hrun. reflexivity. }
    intros ?.
    apply preserves_bind; [apply thread_join_keeps_flag | intros ?].
    apply preserves_bind; [| intros ?; apply curl_global_cleanup_keeps_flag].
    apply preserves_for_each. intros i.
    apply preserves_bind; [apply get_slot_keeps_flag | intros s].
    apply preserves_bind; [apply curl_multi_cleanup_keeps_flag | intros ?].
    apply preserves_ret.
  - apply ensures_ret. intros w [_ Hflag]. unfold uninitialized. auto.
Qed.

(** ** Submission while not initialized *)

(** C6.  With [is_curl_initialized] false, [smtp_send_email] returns at
    once: it logs one debug line and does nothing else, so no easy handle,
    recipient list or streaming state is allocated, no library call is made,
    the fault script of the library is not consumed and nothing is added to
    a pool slot.  The flag is false at program start, after a call of
    [smtp_init] that failed while it was false, and after [smtp_cleanup]. *)
Theorem send_uninitialized_does_nothing
    (w : world) (spins : nat) (now : tm)
    (to_address from_address from_name subject body : string) :
  (is_curl_initialized w = false ->
   exists w',
     smtp_send_email spins now to_address from_address from_name subject body w
       = Some (tt, w') /\
     w' = set_trace
            (trace w ++ [EvLog eventlog_level_debug "smtp_send_email"
                           "libcurl not initialized, returning without attempting to send email"
                           []]) w /\
     resource_events w' = resource_events w /\
     heap w' = heap w /\
     next_ptr w' = next_ptr w /\
     handles_and_mutexes w' = handles_and_mutexes w /\
     faults w' = faults w /\
     is_curl_initialized w' = false) /\
  (forall faults rounds, is_curl_initialized (initial_world faults rounds) = false) /\
  (forall ca url port user pw w1,
     is_curl_initialized w = false ->
     smtp_init ca url port user pw w = Some (false, w1) ->
     is_curl_initialized w1 = false) /\
  (forall w1, smtp_cleanup w = Some (tt, w1) -> is_curl_initialized w1 = false).
Proof.
  split; [| split; [| split]].
  - intros Hflag. eexists. split.
    + unfold smtp_send_email, bind, gets. rewrite Hflag. reflexivity.
    + split; [reflexivity |]. split.
      * unfold resource_events. cbn [trace set_trace].
        rewrite List.filter_app. cbn [List.filter is_resource_event].
        apply app_nil_r.
      * repeat split. exact Hflag.
  - reflexivity.
  - intros ca url port user pw w1 Hflag Hrun.
    exact (smtp_init_failure_keeps_flag ca url port user pw w false w1
             Hflag Hrun eq_refl).
  - intros w1 Hrun.
    exact (smtp_cleanup_clears_flag w tt w1 Logic.I Hrun).
Qed.

Lemma send_uninitialized_does_nothing_witness :
  is_curl_initialized refused_world = false /\
  exists w',
    smtp_send_email 0 sample_now "bob@example.com" "noreply@pvpgn.pro"
                    "PvPGN" "Hi" "Body" refused_world = Some (tt, w') /\
    heap w' = ∅ /\
    next_ptr w' = 1%positive.
Proof.
  assert (Hflag : is_curl_initialized refused_world = false)
    by (vm_compute; reflexivity).
  split; [exact Hflag |].
  destruct (send_uninitialized_does_nothing refused_world 0 sample_now
              "bob@example.com" "noreply@pvpgn.pro" "PvPGN" "Hi" "Body")
    as [Hsend _].
  destruct (Hsend Hflag) as (w' & Hrun & _ & _ & Hheap & Hnext & _).
  exists w'. split; [exact Hrun |].
  split; [rewrite Hheap | rewrite Hnext]; reflexivity.
Defined.

(** ** What stays at an address *)

Section Holds.

Variable k : object_kind.
Variable p : ptr.

(** The ways a library step changes the heap: a store that keeps the kind
    of what was there, an allocation, and the release of something of
    another kind. *)
Lemma holds_kept_by_store (w w' : world) (q : ptr) (old new : object) :
  holds k p w ->
  heap w !! q = Some old ->
  kind_of new = kind_of old ->
  heap w' = <[q := new]> (heap w) ->
  next_ptr w' = next_ptr w ->
  holds k p w'.
Proof.
  intros [(o & Hp & Hk) Hfresh] Hq Hkind Hheap Hnext. split.
  - rewrite Hheap. destruct (decide (q = p)) as [-> | Hne].
    + rewrite lookup_insert_eq. exists new. split; [reflexivity |].
      rewrite Hp in Hq. injection Hq as <-. congruence.
    + rewrite lookup_insert_ne by exact Hne. exists o. auto.
  - intros r o' Hr. rewrite Hheap in Hr. rewrite Hnext.
    apply lookup_insert_Some in Hr as [[<- _] | [_ Hr]]; eapply Hfresh; eassumption.
Qed.

Lemma holds_kept_by_alloc (w w' : world) (new : object) :
  holds k p w ->
  heap w' = <[next_ptr w := new]> (heap w) ->
  next_ptr w' = Pos.succ (next_ptr w) ->
  holds k p w'.
Proof.
  intros [(o & Hp & Hk) Hfresh] Hheap Hnext. split.
  - rewrite Hheap. exists o. rewrite lookup_insert_ne; [auto |].
    intros <-. apply Hfresh in Hp. lia.
  - intros r o' Hr. rewrite Hheap in Hr. rewrite Hnext.
    apply lookup_insert_Some in Hr as [[<- _] | [_ Hr]]; [lia |].
    apply Hfresh in Hr. lia.
Qed.

Lemma holds_kept_by_free (w w' : world) (q : ptr) (old : object) :
  holds k p w ->
  heap w !! q = Some old ->
  kind_of old <> k ->
  heap w' = delete q (heap w) ->
  next_ptr w' = next_ptr w ->
  holds k p w'.
Proof.
  intros [(o & Hp & Hk) Hfresh] Hq Hkind Hheap Hnext. split.
  - rewrite Hheap. exists o. rewrite lookup_delete_ne; [auto |].
    intros ->. rewrite Hp in Hq. injection Hq as <-. contradiction.
  - intros r o' Hr. rewrite Hheap in Hr. rewrite Hnext.
    apply lookup_delete_Some in Hr as [_ Hr]. eapply Hfresh. exact Hr.
Qed.

Lemma holds_kept_by_others (w w' : world) :
  holds k p w ->
  heap w' = heap w ->
  next_ptr w' = next_ptr w ->
  holds k p w'.
Proof.
  intros [(o & Hp & Hk) Hfresh] Hheap Hnext. split.
  - rewrite Hheap. exists o. auto.
  - intros r o' Hr. rewrite Hheap in Hr. rewrite Hnext. eapply Hfresh. exact Hr.
Qed.

(** Closes the cases [run_cases] leaves for one library step. *)
Local Ltac holds_kept :=
  normalize_world_everywhere; simplify_eq;
  match goal with
  | HI : holds k p ?w |- holds k p _ =>
      first
        [ exact HI
        | apply (holds_kept_by_others w _ HI); reflexivity
        | match goal with
          | Hq : heap w !! ?q = Some ?old |- _ =>
              eapply (holds_kept_by_store w _ q old _ HI Hq);
              [| reflexivity | reflexivity]; reflexivity
          end
        | match goal with
          | Hq : heap w !! ?q = Some ?old |- _ =>
              eapply (holds_kept_by_free w _ q old HI Hq);
              [cbn [kind_of]; congruence | reflexivity | reflexivity]
          end
        | eapply (holds_kept_by_alloc w _ _ HI); reflexivity ]
  end.

Local Ltac step_keeps :=
  let H := fresh "Hrun" in
  intros w a w' HI H; run_cases H; holds_kept.

Lemma eventlog_keeps level function text args :
  preserves (holds k p) (eventlog level function text args).
Proof. step_keeps. Qed.

Lemma smtp_config_keeps ca url port user pw :
  preserves (holds k p) (smtp_config ca url port user pw).
Proof. unfold smtp_config. step_keeps. Qed.

Lemma get_slot_keeps i : preserves (holds k p) (get_slot i).
Proof. step_keeps. Qed.

Lemma put_slot_keeps i s : preserves (holds k p) (put_slot i s).
Proof. step_keeps. Qed.

Lemma mutex_try_lock_keeps i : preserves (holds k p) (mutex_try_lock i).
Proof. step_keeps. Qed.

Lemma mutex_unlock_keeps i : preserves (holds k p) (mutex_unlock i).
Proof. step_keeps. Qed.

Lemma store_is_curl_initialized_keeps b :
  preserves (holds k p) (store_is_curl_initialized b).
Proof. step_keeps. Qed.

Lemma thread_start_keeps : preserves (holds k p) thread_start.
Proof. step_keeps. Qed.

Lemma thread_join_keeps : preserves (holds k p) thread_join.
Proof. step_keeps. Qed.

Lemma must_format_keeps f args : preserves (holds k p) (must_format f args).
Proof. step_keeps. Qed.

Lemma curl_global_init_keeps flags : preserves (holds k p) (curl_global_init flags).
Proof. step_keeps. Qed.

Lemma curl_global_cleanup_keeps : preserves (holds k p) curl_global_cleanup.
Proof. step_keeps. Qed.

Lemma curl_multi_init_keeps : preserves (holds k p) curl_multi_init.
Proof. step_keeps. Qed.

Lemma curl_multi_cleanup_keeps h :
  k <> KindMultiHandle -> preserves (holds k p) (curl_multi_cleanup h).
Proof. intros Hk. step_keeps. Qed.

Lemma curl_multi_timeout_keeps h timeout :
  preserves (holds k p) (curl_multi_timeout h timeout).
Proof. step_keeps. Qed.

Lemma curl_multi_poll_keeps h timeout :
  preserves (holds k p) (curl_multi_poll h timeout).
Proof. step_keeps. Qed.

Lemma curl_multi_perform_keeps h : preserves (holds k p) (curl_multi_perform h).
Proof. step_keeps. Qed.

Lemma curl_multi_info_read_keeps h : preserves (holds k p) (curl_multi_info_read h).
Proof. step_keeps. Qed.

Lemma curl_multi_add_handle_keeps h e :
  preserves (holds k p) (curl_multi_add_handle h e).
Proof. step_keeps. Qed.

Lemma curl_multi_remove_handle_keeps h e :
  preserves (holds k p) (curl_multi_remove_handle h e).
Proof. step_keeps. Qed.

Lemma curl_easy_init_keeps : preserves (holds k p) curl_easy_init.
Proof. step_keeps. Qed.

Lemma curl_easy_setopt_keeps e o v : preserves (holds k p) (curl_easy_setopt e o v).
Proof. step_keeps. Qed.

Lemma curl_easy_getinfo_private_keeps e :
  preserves (holds k p) (curl_easy_getinfo_private e).
Proof. step_keeps. Qed.

Lemma curl_easy_cleanup_keeps e :
  k <> KindEasyHandle -> preserves (holds k p) (curl_easy_cleanup e).
Proof. intros Hk. step_keeps. Qed.

Lemma curl_slist_append_keeps l s : preserves (holds k p) (curl_slist_append l s).
Proof. step_keeps. Qed.

Lemma curl_slist_free_all_keeps l :
  k <> KindSlist -> preserves (holds k p) (curl_slist_free_all l).
Proof. intros Hk. step_keeps. Qed.

Lemma xmalloc_rcb_keeps : preserves (holds k p) xmalloc_rcb.
Proof. step_keeps. Qed.

Lemma assign_message_keeps q s : preserves (holds k p) (assign_message q s).
Proof. step_keeps. Qed.

Lemma assign_bytes_remaining_keeps q n :
  preserves (holds k p) (assign_bytes_remaining q n).
Proof. step_keeps. Qed.

End Holds.

Create HintDb holds discriminated.
#[local] Hint Resolve preserves_ret preserves_gets preserves_stuck
  eventlog_keeps smtp_config_keeps get_slot_keeps put_slot_keeps
  mutex_try_lock_keeps mutex_unlock_keeps store_is_curl_initialized_keeps
  thread_start_keeps thread_join_keeps must_format_keeps
  curl_global_init_keeps curl_global_cleanup_keeps
  curl_multi_init_keeps curl_multi_cleanup_keeps
  curl_multi_timeout_keeps curl_multi_poll_keeps
  curl_multi_perform_keeps curl_multi_info_read_keeps
  curl_multi_add_handle_keeps curl_multi_remove_handle_keeps
  curl_easy_init_keeps curl_easy_setopt_keeps
  curl_easy_getinfo_private_keeps curl_easy_cleanup_keeps
  curl_slist_append_keeps curl_slist_free_all_keeps
  xmalloc_rcb_keeps assign_message_keeps assign_bytes_remaining_keeps : holds.
#[local] Hint Extern 1 (_ <> _) => discriminate : holds.

(** Walks through a function of [smtp.cpp] step by step. *)
Ltac keeps :=
  first
    [ solve [auto with holds]
    | apply preserves_bind; [keeps | intros ?; keeps]
    | apply preserves_for_each; intros ?; keeps
    | match goal with
      | |- preserves _ (match ?x with _ => _ end) => destruct x; keeps
      end ].

Section Kept.

Variable k : object_kind.
Variable p : ptr.

Lemma smtp_consumer_reap_keeps (fuel : nat) (h : option ptr) :
  k <> KindEasyHandle -> k <> KindSlist ->
  preserves (holds k p) (smtp_consumer_reap fuel h).
Proof.
  intros Heasy Hslist.
  induction fuel as [|fuel IH]; cbn [smtp_consumer_reap]; keeps.
Qed.

Lemma smtp_consumer_round_keeps (fuel : nat) :
  k <> KindEasyHandle -> k <> KindSlist ->
  preserves (holds k p) (smtp_consumer_round fuel).
Proof.
  intros Heasy Hslist.
  pose proof (fun fuel h => smtp_consumer_reap_keeps fuel h Heasy Hslist).
  unfold smtp_consumer_round, smtp_consumer_visit. keeps.
Qed.

Lemma smtp_consumer_keeps (iterations fuel : nat) :
  k <> KindEasyHandle -> k <> KindSlist ->
  preserves (holds k p) (smtp_consumer iterations fuel).
Proof.
  intros Heasy Hslist.
  pose proof (fun fuel => smtp_consumer_round_keeps fuel Heasy Hslist).
  induction iterations as [|iterations IH]; cbn [smtp_consumer]; keeps.
Qed.

Lemma smtp_send_attach_keeps (spins : nat) (curl : ptr) :
  preserves (holds k p) (smtp_send_attach spins curl).
Proof.
  induction spins as [|spins IH]; cbn [smtp_send_attach]; keeps.
Qed.

Lemma smtp_send_email_keeps
    (spins : nat) (now : tm)
    (to_address from_address from_name subject body : string) :
  preserves (holds k p)
    (smtp_send_email spins now to_address from_address from_name subject body).
Proof.
  pose proof smtp_send_attach_keeps.
  unfold smtp_send_email. keeps.
Qed.

Lemma smtp_init_keeps ca url port user pw :
  preserves (holds k p) (smtp_init ca url port user pw).
Proof. unfold smtp_init. keeps. Qed.

Lemma smtp_cleanup_keeps :
  k <> KindMultiHandle -> preserves (holds k p) smtp_cleanup.
Proof. intros Hmulti. unfold smtp_cleanup. keeps. Qed.

End Kept.

(** ** The pool between calls *)

Lemma preserves_and (I J : world -> Prop) {A} (m : M A) :
  preserves I m -> preserves J m -> preserves (fun w => I w /\ J w) m.
Proof.
  intros HI HJ w a w' [Hi Hj] Hrun. split; [eapply HI | eapply HJ]; eassumption.
Qed.

Section PoolStatic.

Variables h0 h1 : ptr.

Local Ltac static_kept :=
  let H := fresh "Hrun" in
  intros w a w' HI H; run_cases H; exact HI.

Lemma eventlog_keeps_pool level function text args :
  preserves (pool_static h0 h1) (eventlog level function text args).
Proof. static_kept. Qed.

Lemma smtp_config_keeps_pool ca url port user pw :
  preserves (pool_static h0 h1) (smtp_config ca url port user pw).
Proof. unfold smtp_config. static_kept. Qed.

Lemma get_slot_keeps_pool i : preserves (pool_static h0 h1) (get_slot i).
Proof. static_kept. Qed.

Lemma store_keeps_pool q o : preserves (pool_static h0 h1) (store q o).
Proof. static_kept. Qed.

Lemma must_format_keeps_pool f args :
  preserves (pool_static h0 h1) (must_format f args).
Proof. static_kept. Qed.

Lemma curl_multi_timeout_keeps_pool h timeout :
  preserves (pool_static h0 h1) (curl_multi_timeout h timeout).
Proof. static_kept. Qed.

Lemma curl_multi_poll_keeps_pool h timeout :
  preserves (pool_static h0 h1) (curl_multi_poll h timeout).
Proof. static_kept. Qed.

Lemma curl_multi_perform_keeps_pool h :
  preserves (pool_static h0 h1) (curl_multi_perform h).
Proof. static_kept. Qed.

Lemma curl_multi_info_read_keeps_pool h :
  preserves (pool_static h0 h1) (curl_multi_info_read h).
Proof. static_kept. Qed.

Lemma curl_multi_add_handle_keeps_pool h e :
  preserves (pool_static h0 h1) (curl_multi_add_handle h e).
Proof. static_kept. Qed.

Lemma curl_multi_remove_handle_keeps_pool h e :
  preserves (pool_static h0 h1) (curl_multi_remove_handle h e).
Proof. static_kept. Qed.

Lemma curl_easy_init_keeps_pool : preserves (pool_static h0 h1) curl_easy_init.
Proof. static_kept. Qed.

Lemma curl_easy_setopt_keeps_pool e o v :
  preserves (pool_static h0 h1) (curl_easy_setopt e o v).
Proof. static_kept. Qed.

Lemma curl_easy_getinfo_private_keeps_pool e :
  preserves (pool_static h0 h1) (curl_easy_getinfo_private e).
Proof. static_kept. Qed.

Lemma curl_easy_cleanup_keeps_pool e :
  preserves (pool_static h0 h1) (curl_easy_cleanup e).
Proof. static_kept. Qed.

Lemma curl_slist_append_keeps_pool l s :
  preserves (pool_static h0 h1) (curl_slist_append l s).
Proof. static_kept. Qed.

Lemma curl_slist_free_all_keeps_pool l :
  preserves (pool_static h0 h1) (curl_slist_free_all l).
Proof. static_kept. Qed.

Lemma xmalloc_rcb_keeps_pool : preserves (pool_static h0 h1) xmalloc_rcb.
Proof. static_kept. Qed.

Lemma assign_message_keeps_pool q s :
  preserves (pool_static h0 h1) (assign_message q s).
Proof. static_kept. Qed.

Lemma assign_bytes_remaining_keeps_pool q n :
  preserves (pool_static h0 h1) (assign_bytes_remaining q n).
Proof. static_kept. Qed.

(** Taking or releasing a mutex leaves the handle of its slot in place. *)
Lemma relock_keeps_handles (slots : list slot) (i : nat) (s : slot) (b : bool) :
  slots !! i = Some s ->
  curl_multi_handle <$> <[i := mk_slot (curl_multi_handle s) b]> slots
    = curl_multi_handle <$> slots.
Proof.
  intros Hs. rewrite list_fmap_insert. cbn [curl_multi_handle].
  apply list_insert_id. rewrite list_lookup_fmap, Hs. reflexivity.
Qed.

Lemma mutex_try_lock_keeps_pool i :
  preserves (pool_static h0 h1) (mutex_try_lock i).
Proof.
  intros w a w' (Hflag & Hthread & Hhandles) Hrun. run_cases Hrun.
  - repeat split; assumption.
  - repeat split; try assumption. normalize_world_everywhere.
    rewrite relock_keeps_handles; assumption.
Qed.

Lemma mutex_unlock_keeps_pool i :
  preserves (pool_static h0 h1) (mutex_unlock i).
Proof.
  intros w a w' (Hflag & Hthread & Hhandles) Hrun. run_cases Hrun.
  repeat split; try assumption. normalize_world_everywhere.
  rewrite relock_keeps_handles; assumption.
Qed.

End PoolStatic.

Create HintDb pool discriminated.
#[local] Hint Resolve preserves_ret preserves_gets preserves_stuck
  eventlog_keeps_pool smtp_config_keeps_pool get_slot_keeps_pool
  store_keeps_pool must_format_keeps_pool
  curl_multi_timeout_keeps_pool curl_multi_poll_keeps_pool
  curl_multi_perform_keeps_pool curl_multi_info_read_keeps_pool
  curl_multi_add_handle_keeps_pool curl_multi_remove_handle_keeps_pool
  curl_easy_init_keeps_pool curl_easy_setopt_keeps_pool
  curl_easy_getinfo_private_keeps_pool curl_easy_cleanup_keeps_pool
  curl_slist_append_keeps_pool curl_slist_free_all_keeps_pool
  xmalloc_rcb_keeps_pool assign_message_keeps_pool
  assign_bytes_remaining_keeps_pool
  mutex_try_lock_keeps_pool mutex_unlock_keeps_pool
  : pool.

Ltac keeps_pool :=
  first
    [ solve [auto with pool]
    | apply preserves_bind; [keeps_pool | intros ?; keeps_pool]
    | apply preserves_for_each; intros ?; keeps_pool
    | match goal with
      | |- preserves _ (match ?x with _ => _ end) => destruct x; keeps_pool
      end ].

Section PoolReady.

Variables h0 h1 : ptr.

Lemma smtp_consumer_reap_keeps_pool (fuel : nat) (h : option ptr) :
  preserves (pool_static h0 h1) (smtp_consumer_reap fuel h).
Proof.
  induction fuel as [|fuel IH]; cbn [smtp_consumer_reap]; keeps_pool.
Qed.

Lemma smtp_consumer_round_keeps_pool (fuel : nat) :
  preserves (pool_static h0 h1) (smtp_consumer_round fuel).
Proof.
  pose proof smtp_consumer_reap_keeps_pool.
  unfold smtp_consumer_round, smtp_consumer_visit. keeps_pool.
Qed.

Lemma smtp_send_attach_keeps_pool (spins : nat) (curl : ptr) :
  preserves (pool_static h0 h1) (smtp_send_attach spins curl).
Proof.
  induction spins as [|spins IH]; cbn [smtp_send_attach]; keeps_pool.
Qed.

Lemma smtp_send_email_keeps_pool
    (spins : nat) (now : tm)
    (to_address from_address from_name subject body : string) :
  preserves (pool_static h0 h1)
    (smtp_send_email spins now to_address from_address from_name subject body).
Proof.
  pose proof smtp_send_attach_keeps_pool.
  unfold smtp_send_email. keeps_pool.
Qed.

Lemma pool_ready_kept {A} (m : M A) :
  preserves (pool_static h0 h1) m ->
  (forall h, preserves (holds KindMultiHandle h) m) ->
  preserves (pool_ready h0 h1) m.
Proof.
  intros Hstatic Hholds w a w' (Hs & Hne & Hh0 & Hh1) Hrun.
  split; [exact (Hstatic w a w' Hs Hrun) |].
  split; [exact Hne |].
  split; [exact (Hholds h0 w a w' Hh0 Hrun) | exact (Hholds h1 w a w' Hh1 Hrun)].
Qed.

Lemma smtp_send_email_keeps_pool_ready
    (spins : nat) (now : tm)
    (to_address from_address from_name subject body : string) :
  preserves (pool_ready h0 h1)
    (smtp_send_email spins now to_address from_address from_name subject body).
Proof.
  apply pool_ready_kept;
    [apply smtp_send_email_keeps_pool | intros h; apply smtp_send_email_keeps].
Qed.

Lemma smtp_consumer_round_keeps_pool_ready (fuel : nat) :
  preserves (pool_ready h0 h1) (smtp_consumer_round fuel).
Proof.
  apply pool_ready_kept;
    [apply smtp_consumer_round_keeps_pool
    | intros h; apply smtp_consumer_round_keeps; discriminate].
Qed.

Lemma smtp_reconfig_keeps_pool_ready ca url port user pw :
  preserves (pool_ready h0 h1) (smtp_reconfig ca url port user pw).
Proof.
  apply pool_ready_kept;
    [apply smtp_config_keeps_pool | intros h; apply smtp_config_keeps].
Qed.

End PoolReady.

(** ** Shutdown *)

Section Cleanup.

Variable w : world.

Lemma store_is_curl_initialized_run (b : bool) :
  store_is_curl_initialized b w =
    Some (tt, set_trace (trace w ++ [EvStoreInitialized b])
                (set_is_curl_initialized b w)).
Proof. reflexivity. Qed.

Lemma thread_join_run :
  smtp_thread w = true ->
  is_curl_initialized w = false ->
  thread_join w =
    Some (tt, set_trace (trace w ++ [EvThreadJoin]) (set_smtp_thread false w)).
Proof.
  intros Hthread Hflag. unfold thread_join, bind, gets.
  rewrite Hthread, Hflag. reflexivity.
Qed.

(** The join does not return while the flag is set. *)
Lemma thread_join_blocks :
  is_curl_initialized w = true -> thread_join w = None.
Proof.
  intros Hflag. unfold thread_join, bind, gets. rewrite Hflag.
  destruct (smtp_thread w); reflexivity.
Qed.

Lemma curl_multi_cleanup_run (p : ptr) (attached : list ptr) (msgq : list CURLMsg) :
  heap w !! p = Some (MultiHandle attached msgq) ->
  curl_multi_cleanup (Some p) w =
    Some (CURLM_OK,
          set_heap (delete p (heap w))
            (set_trace (trace w ++ [EvMultiCleanup (Some p)]) w)).
Proof.
  intros Hp. unfold curl_multi_cleanup, load_multi, load, free, bind, emit, modify.
  cbn [heap set_trace]. rewrite Hp. cbn [heap set_trace ret]. rewrite Hp.
  reflexivity.
Qed.

Lemma curl_global_cleanup_run :
  curl_global_cleanup w =
    Some (tt, set_trace (trace w ++ [EvGlobalCleanup])
                (set_curl_global (Nat.pred (curl_global w)) w)).
Proof. reflexivity. Qed.

Lemma get_slot_run (i : nat) (s : slot) :
  handles_and_mutexes w !! i = Some s -> get_slot i w = Some (s, w).
Proof. intros Hs. unfold get_slot. rewrite Hs. reflexivity. Qed.

(** The body of the loop of [smtp_cleanup] on a slot that holds a multi
    handle. *)
Lemma cleanup_slot_run (i : nat) (p : ptr) (locked : bool)
    (attached : list ptr) (msgq : list CURLMsg) :
  handles_and_mutexes w !! i = Some (mk_slot (Some p) locked) ->
  heap w !! p = Some (MultiHandle attached msgq) ->
  (let* s := get_slot i in
   curl_multi_cleanup (curl_multi_handle s);;
   ret (None : option unit)) w =
    Some (None,
          set_heap (delete p (heap w))
            (set_trace (trace w ++ [EvMultiCleanup (Some p)]) w)).
Proof.
  intros Hslot Hp. unfold bind at 1.
  rewrite (get_slot_run i _ Hslot). cbn [curl_multi_handle].
  unfold bind. rewrite (curl_multi_cleanup_run p attached msgq Hp).
  reflexivity.
Qed.

End Cleanup.

Lemma smtp_cleanup_uninitialized (w : world) :
  is_curl_initialized w = false -> smtp_cleanup w = Some (tt, w).
Proof.
  intros Hflag. unfold smtp_cleanup, bind, gets. rewrite Hflag. reflexivity.
Qed.


(** [smtp_cleanup] on an initialized pool, step by step. *)
Lemma smtp_cleanup_ordered (w : world) (h0 h1 : ptr) :
  pool_ready h0 h1 w ->
  exists w',
    smtp_cleanup w = Some (tt, w') /\
    trace w' = trace w ++ [EvStoreInitialized false; EvThreadJoin;
                           EvMultiCleanup (Some h0); EvMultiCleanup (Some h1);
                           EvGlobalCleanup] /\
    is_curl_initialized w' = false /\
    smtp_thread w' = false /\
    heap w' = delete h1 (delete h0 (heap w)) /\
    next_ptr w' = next_ptr w /\
    handles_and_mutexes w' = handles_and_mutexes w /\
    curl_global w' = Nat.pred (curl_global w) /\
    stored_config w' = stored_config w.
Proof.
  intros ((Hflag & Hthread & Hslots) & Hne & [(o0 & Hh0 & Hk0) _] & [(o1 & Hh1 & Hk1) _]).
  destruct o0 as [| a0 q0 | |]; try discriminate Hk0.
  destruct o1 as [| a1 q1 | |]; try discriminate Hk1.
  destruct w as [flag thread slots c1 c2 c3 c4 c5 hp nx glob flts rnds tr].
  cbn [is_curl_initialized smtp_thread handles_and_mutexes heap]
    in Hflag, Hthread, Hslots, Hh0, Hh1.
  subst flag thread.
  destruct slots as [|[s0 l0] [|[s1 l1] [|s2 slots]]]; try discriminate Hslots.
  cbn in Hslots. injection Hslots as -> ->.
  eexists. split.
  { unfold smtp_cleanup.
    run_with (reflexivity).
    run_with (apply store_is_curl_initialized_run).
    run_with (apply thread_join_run; reflexivity).
    unfold slot_indices, POOL_SIZE. cbn [seq for_each].
    run_with (run_with (eapply cleanup_slot_run; [reflexivity | exact Hh0]);
              run_with (eapply cleanup_slot_run;
                        [reflexivity
                        | normalize_world;
                          rewrite lookup_delete_ne by exact Hne; exact Hh1]);
              reflexivity).
    rewrite curl_global_cleanup_run. normalize_world. reflexivity. }
  split; [normalize_world; rewrite <- !app_assoc; reflexivity |].
  repeat split.
Qed.

(** *** The invariant of the life cycle *)

Lemma pool_ready_lifecycle (h0 h1 : ptr) (w : world) :
  pool_ready h0 h1 w -> lifecycle_invariant w.
Proof.
  intros Hready. pose proof Hready as ((_ & _ & Hslots) & _ & [_ Hfresh] & _).
  split; [exact Hfresh |]. split.
  - apply (f_equal length) in Hslots. rewrite length_fmap in Hslots. exact Hslots.
  - intros _. exists h0, h1. exact Hready.
Qed.

(** A call that changes neither the heap nor the pool nor the flag. *)
Lemma lifecycle_frame (w w' : world) :
  lifecycle_invariant w ->
  is_curl_initialized w = false ->
  heap w' = heap w ->
  next_ptr w' = next_ptr w ->
  handles_and_mutexes w' = handles_and_mutexes w ->
  is_curl_initialized w' = false ->
  lifecycle_invariant w'.
Proof.
  intros (Hfresh & Hlen & _) _ Hheap Hnext Hslots Hflag.
  split; [| split].
  - intros q o Hq. rewrite Hheap in Hq. rewrite Hnext. eapply Hfresh. exact Hq.
  - rewrite Hslots. exact Hlen.
  - rewrite Hflag. discriminate.
Qed.

Lemma smtp_send_email_keeps_lifecycle
    (spins : nat) (now : tm)
    (to_address from_address from_name subject body : string) :
  preserves lifecycle_invariant
    (smtp_send_email spins now to_address from_address from_name subject body).
Proof.
  intros w a w' Hinv Hrun.
  destruct (is_curl_initialized w) eqn:Hflag.
  - destruct Hinv as (_ & _ & Hpool). destruct (Hpool Hflag) as (h0 & h1 & Hready).
    apply (pool_ready_lifecycle h0 h1).
    exact (smtp_send_email_keeps_pool_ready h0 h1 _ _ _ _ _ _ _ w a w' Hready Hrun).
  - unfold smtp_send_email, bind, gets in Hrun. rewrite Hflag in Hrun.
    injection Hrun as _ <-.
    apply (lifecycle_frame w); auto.
Qed.

Lemma smtp_reconfig_keeps_lifecycle ca url port user pw :
  preserves lifecycle_invariant (smtp_reconfig ca url port user pw).
Proof.
  intros w a w' Hinv Hrun.
  destruct (is_curl_initialized w) eqn:Hflag.
  - destruct Hinv as (_ & _ & Hpool). destruct (Hpool Hflag) as (h0 & h1 & Hready).
    apply (pool_ready_lifecycle h0 h1).
    exact (smtp_reconfig_keeps_pool_ready h0 h1 _ _ _ _ _ w a w' Hready Hrun).
  - unfold smtp_reconfig, smtp_config in Hrun. run_cases Hrun;
      apply (lifecycle_frame w); auto.
Qed.

Lemma smtp_consumer_round_keeps_lifecycle (fuel : nat) (w w' : world) :
  lifecycle_invariant w ->
  is_curl_initialized w = true ->
  smtp_consumer_round fuel w = Some (tt, w') ->
  lifecycle_invariant w'.
Proof.
  intros (_ & _ & Hpool) Hflag Hrun.
  destruct (Hpool Hflag) as (h0 & h1 & Hready).
  apply (pool_ready_lifecycle h0 h1).
  exact (smtp_consumer_round_keeps_pool_ready h0 h1 fuel w tt w' Hready Hrun).
Qed.

Lemma smtp_cleanup_keeps_lifecycle : preserves lifecycle_invariant smtp_cleanup.
Proof.
  intros w a w' Hinv Hrun.
  destruct (is_curl_initialized w) eqn:Hflag.
  - pose proof Hinv as (Hfresh & Hlen & Hpool).
    destruct (Hpool Hflag) as (h0 & h1 & Hready).
    destruct (smtp_cleanup_ordered w h0 h1 Hready)
      as (w1 & Hrun1 & _ & Hflag1 & _ & Hheap & Hnext & Hslots & _).
    rewrite Hrun1 in Hrun. injection Hrun as _ <-.
    split; [| split].
    + intros q o Hq. rewrite Hheap in Hq. rewrite Hnext.
      apply lookup_delete_Some in Hq as [_ Hq].
      apply lookup_delete_Some in Hq as [_ Hq].
      eapply Hfresh. exact Hq.
    + rewrite Hslots. exact Hlen.
    + rewrite Hflag1. discriminate.
  - rewrite (smtp_cleanup_uninitialized w Hflag) in Hrun.
    injection Hrun as _ <-. exact Hinv.
Qed.

Lemma smtp_init_keeps_lifecycle ca url port user pw :
  preserves lifecycle_invariant (smtp_init ca url port user pw).
Proof.
  intros w r w' Hinv Hrun.
  destruct (is_curl_initialized w) eqn:Hflag.
  - rewrite (smtp_init_already_initialized w _ _ _ _ _ Hflag) in Hrun.
    injection Hrun as _ <-. exact Hinv.
  - destruct Hinv as (Hfresh & Hlen & _).
    destruct w as [flag thread slots c1 c2 c3 c4 c5 hp nx glob flts rnds tr].
    cbn [is_curl_initialized handles_and_mutexes] in Hflag, Hlen. subst flag.
    destruct slots as [|s0 [|s1 [|s2 slots]]]; try discriminate Hlen.
    unfold heap_fresh in Hfresh. cbn [heap next_ptr] in Hfresh.
    unfold smtp_init, slot_indices, POOL_SIZE in Hrun.
    cbn [seq for_each] in Hrun.
    step_in Hrun.
    apply bind_inv in Hrun as (c & wc & Hconfig & Hrun).
    unfold smtp_config in Hconfig. run_cases Hconfig; flatten_worlds;
      cbv beta iota in Hrun; cbn [negb] in Hrun.
    all: steps_in Hrun.
    all: unfold CURLE_OK, CURLE_FAILED_INIT in Hrun; cbn [negb Z.eqb Pos.eqb] in Hrun;
      steps_in Hrun.
    all: injection Hrun as <- <-.
    all: match goal with
         | |- lifecycle_invariant ?W =>
             assert (Hfresh' : heap_fresh W)
               by (intros q o Hq; flatten_worlds;
                   repeat (apply lookup_insert_Some in Hq as [[<- _] | [_ Hq]];
                           [lia |]);
                   apply Hfresh in Hq; lia)
         end.
    all: split; [exact Hfresh' | split; [reflexivity |]].
    all: try (intros Hf; discriminate Hf).
    all: intros _; exists nx, (Pos.succ nx).
    all: split; [repeat split | split; [lia |]].
    all: split; (split; [| exact Hfresh']); exists (MultiHandle [] []);
      (split; [cbn [heap] | reflexivity]).
    all: first [ apply lookup_insert_eq
               | rewrite lookup_insert_ne by lia; apply lookup_insert_eq ].
Qed.

Theorem reachable_lifecycle (w : world) :
  reachable w -> lifecycle_invariant w.
Proof.
  induction 1 as [flts rnds
                 | ca url port user pw w r w' _ IH Hrun
                 | ca url port user pw w r w' _ IH Hrun
                 | spins now t f fn sj b w w' _ IH Hrun
                 | fuel w w' _ IH Hflag Hrun
                 | w w' _ IH Hrun].
  - split; [intros q o Hq; cbn in Hq; rewrite lookup_empty in Hq; discriminate Hq |].
    split; [reflexivity | intros Hf; discriminate Hf].
  - exact (smtp_init_keeps_lifecycle _ _ _ _ _ _ _ _ IH Hrun).
  - exact (smtp_reconfig_keeps_lifecycle _ _ _ _ _ _ _ _ IH Hrun).
  - exact (smtp_send_email_keeps_lifecycle _ _ _ _ _ _ _ _ _ _ IH Hrun).
  - exact (smtp_consumer_round_keeps_lifecycle _ _ _ IH Hflag Hrun).
  - exact (smtp_cleanup_keeps_lifecycle _ _ _ IH Hrun).
Qed.

(** C8.  [smtp_cleanup] with [is_curl_initialized] false changes nothing:
    so in the world the program starts in, after an [smtp_init] that
    returned false from there, and right after an [smtp_cleanup].  In every
    world the server can reach in which the flag is true, [smtp_cleanup]
    returns, having first stored [false] to the flag, then joined the poller
    thread, then released the multi handle of the first slot and that of the
    second, then released libcurl's global context, in this order and with
    nothing in between; a second call right after is again without effect. *)
Theorem cleanup_is_noop_or_ordered (w : world) :
  (is_curl_initialized w = false -> smtp_cleanup w = Some (tt, w)) /\
  (forall faults rounds,
     smtp_cleanup (initial_world faults rounds)
       = Some (tt, initial_world faults rounds)) /\
  (forall ca url port user pw w1,
     is_curl_initialized w = false ->
     smtp_init ca url port user pw w = Some (false, w1) ->
     smtp_cleanup w1 = Some (tt, w1)) /\
  (reachable w ->
   is_curl_initialized w = true ->
   exists h0 h1 w',
     curl_multi_handle <$> handles_and_mutexes w = [Some h0; Some h1] /\
     smtp_cleanup w = Some (tt, w') /\
     trace w' = trace w ++ [EvStoreInitialized false; EvThreadJoin;
                            EvMultiCleanup (Some h0); EvMultiCleanup (Some h1);
                            EvGlobalCleanup] /\
     is_curl_initialized w' = false /\
     smtp_thread w' = false /\
     heap w' = delete h1 (delete h0 (heap w)) /\
     curl_global w' = Nat.pred (curl_global w) /\
     stored_config w' = stored_config w /\
     smtp_cleanup w' = Some (tt, w')).
Proof.
  split; [apply smtp_cleanup_uninitialized |].
  split; [intros flts rnds; apply smtp_cleanup_uninitialized; reflexivity |].
  split.
  - intros ca url port user pw w1 Hflag Hrun.
    apply smtp_cleanup_uninitialized.
    exact (smtp_init_failure_keeps_flag ca url port user pw w false w1
             Hflag Hrun eq_refl).
  - intros Hreach Hflag.
    destruct (reachable_lifecycle w Hreach) as (_ & _ & Hpool).
    destruct (Hpool Hflag) as (h0 & h1 & Hready).
    destruct (smtp_cleanup_ordered w h0 h1 Hready)
      as (w' & Hrun & Htrace & Hflag' & Hthread' & Hheap & _ & _ & Hglobal
          & Hconfig).
    exists h0, h1, w'.
    split; [apply Hready |].
    do 7 (split; [assumption |]).
    apply smtp_cleanup_uninitialized. exact Hflag'.
Qed.

Lemma cleanup_is_noop_or_ordered_witness :
  smtp_cleanup (initial_world [] []) = Some (tt, initial_world [] []) /\
  smtp_cleanup refused_world = Some (tt, refused_world) /\
  exists w',
    smtp_cleanup initialized_world = Some (tt, w') /\
    trace w' = trace initialized_world
                 ++ [EvStoreInitialized false; EvThreadJoin;
                     EvMultiCleanup (Some 1%positive);
                     EvMultiCleanup (Some 2%positive); EvGlobalCleanup] /\
    is_curl_initialized w' = false /\
    smtp_cleanup w' = Some (tt, w').
Proof.
  split; [| split].
  - destruct (cleanup_is_noop_or_ordered (initial_world [] [])) as [Hnoop _].
    apply Hnoop. reflexivity.
  - destruct (cleanup_is_noop_or_ordered (initial_world [] []))
      as (_ & _ & Hrefused & _).
    apply (Hrefused (Some "/ca.pem") (Some "mail.example.com") 70000
                    (Some "user") (Some "pw")).
    + reflexivity.
    + vm_compute. reflexivity.
  - destruct (cleanup_is_noop_or_ordered initialized_world)
      as (_ & _ & _ & Hordered).
    destruct Hordered
      as (h0 & h1 & w' & Hslots & Hrun & Htrace & Hflag & _ & _ & _ & _ & Hagain).
    + apply (reachable_init (Some "/ca.pem") (Some "mail.example.com") 587
                            (Some "user") (Some "pw")
                            (initial_world [] []) true).
      * apply reachable_start.
      * vm_compute. reflexivity.
    + vm_compute. reflexivity.
    + injection Hslots as <- <-.
      exists w'. repeat split; assumption.
Defined.

(** ** Reaping and what stays allocated *)

(** *** What the poller releases *)

Section ReapSteps.

Variable w : world.

Lemma curl_multi_info_read_run (m : ptr) (attached : list ptr) (c : CURLMsg)
    (msgq : list CURLMsg) :
  heap w !! m = Some (MultiHandle attached (c :: msgq)) ->
  curl_multi_info_read (Some m) w =
    Some (Some c, set_heap (<[m := MultiHandle attached msgq]> (heap w)) w).
Proof.
  intros Hm. unfold curl_multi_info_read, load_multi, load, store, bind, ret.
  rewrite Hm. cbn [fst snd]. rewrite Hm. reflexivity.
Qed.

Lemma curl_multi_info_read_empty (m : ptr) (attached : list ptr) :
  heap w !! m = Some (MultiHandle attached []) ->
  curl_multi_info_read (Some m) w = Some (None, w).
Proof.
  intros Hm. unfold curl_multi_info_read, load_multi, load, bind, ret.
  rewrite Hm. reflexivity.
Qed.

Lemma curl_multi_remove_handle_run (m e : ptr) (attached : list ptr)
    (msgq : list CURLMsg) :
  heap w !! m = Some (MultiHandle attached msgq) ->
  curl_multi_remove_handle (Some m) e w =
    Some (tt,
          set_heap (<[m := MultiHandle (filter (fun x => x ≠ e) attached)
                                       (filter (fun c => easy_handle c ≠ e) msgq)]>
                      (heap w))
            (set_trace (trace w ++ [EvMultiRemove (Some m) e]) w)).
Proof.
  intros Hm.
  unfold curl_multi_remove_handle, load_multi, load, store, bind, ret, emit, modify.
  cbn [heap set_trace]. rewrite Hm. cbn [fst snd heap set_trace]. rewrite Hm.
  reflexivity.
Qed.

Lemma curl_easy_getinfo_private_run (e : ptr) (opts : gmap CURLoption option_value)
    (r : option ptr) :
  heap w !! e = Some (EasyHandle opts) ->
  opts !! CURLOPT_PRIVATE = Some (OptPointer r) ->
  curl_easy_getinfo_private e w = Some (r, w).
Proof.
  intros He Hprivate.
  unfold curl_easy_getinfo_private, load_easy, load, bind, ret.
  rewrite He, Hprivate. reflexivity.
Qed.

Lemma curl_slist_free_all_run (l : ptr) (items : list string) :
  heap w !! l = Some (Slist items) ->
  curl_slist_free_all l w =
    Some (tt, set_heap (delete l (heap w))
                (set_trace (trace w ++ [EvSlistFree l]) w)).
Proof.
  intros Hl. unfold curl_slist_free_all, load_slist, load, free, bind, ret, emit, modify.
  cbn [heap set_trace]. rewrite Hl. cbn [heap set_trace]. rewrite Hl. reflexivity.
Qed.

Lemma curl_easy_cleanup_run (e : ptr) (opts : gmap CURLoption option_value) :
  heap w !! e = Some (EasyHandle opts) ->
  curl_easy_cleanup e w =
    Some (tt, set_heap (delete e (heap w))
                (set_trace (trace w ++ [EvEasyCleanup e]) w)).
Proof.
  intros He. unfold curl_easy_cleanup, load_easy, load, free, bind, ret, emit, modify.
  cbn [heap set_trace]. rewrite He. cbn [heap set_trace]. rewrite He. reflexivity.
Qed.

End ReapSteps.

(** One turn of the loop on a message that reports a finished transfer. *)
Lemma smtp_consumer_reap_step (w : world) (m : ptr) (attached : list ptr)
    (c : CURLMsg) (msgq : list CURLMsg) (r : ptr) (fuel : nat) :
  heap w !! m = Some (MultiHandle attached (c :: msgq)) ->
  finished_transfer w c r ->
  exists w1,
    smtp_consumer_reap (S fuel) (Some m) w = smtp_consumer_reap fuel (Some m) w1 /\
    heap w1 =
      delete (easy_handle c)
        (delete r
           (<[m := MultiHandle (filter (fun x => x ≠ easy_handle c) attached)
                               (filter (fun c' => easy_handle c' ≠ easy_handle c) msgq)]>
              (heap w))) /\
    trace w1 = trace w ++ reap_events m c r.
Proof.
  intros Hm (Hdone & opts & items & He & Hprivate & Hr).
  assert (Hme : m ≠ easy_handle c) by (intros Heq; rewrite Heq in Hm; congruence).
  assert (Hmr : m ≠ r) by (intros Heq; rewrite Heq in Hm; congruence).
  assert (Hre : r ≠ easy_handle c) by (intros Heq; rewrite Heq in Hr; congruence).
  destruct w as [flag thread slots c1 c2 c3 c4 c5 hp nx glob flts rnds tr].
  cbn [heap] in Hm, He, Hr.
  eexists. split; [| split].
  - cbn [smtp_consumer_reap].
    run_with (apply curl_multi_info_read_run; exact Hm).
    rewrite Hdone.
    run_with (run_with (eapply curl_multi_remove_handle_run; apply lookup_insert_eq);
              run_with (eapply curl_easy_getinfo_private_run;
                        [normalize_world; rewrite !lookup_insert_ne by exact Hme;
                         exact He
                        | exact Hprivate]);
              run_with (eapply curl_slist_free_all_run;
                        normalize_world; rewrite !lookup_insert_ne by exact Hmr;
                        exact Hr);
              eapply curl_easy_cleanup_run;
              normalize_world;
              rewrite lookup_delete_ne by exact Hre;
              rewrite !lookup_insert_ne by exact Hme; exact He).
    reflexivity.
  - normalize_world. rewrite insert_insert_eq. reflexivity.
  - normalize_world. unfold reap_events. rewrite <- !app_assoc. reflexivity.
Qed.

Section Reap.

Variable m : ptr.

Lemma filter_all {A} (P : A -> Prop) `{forall x, Decision (P x)} (l : list A) :
  (forall x, x ∈ l -> P x) -> filter P l = l.
Proof.
  induction l as [|x l IH]; intros Hall; [reflexivity |].
  rewrite filter_cons_True by (apply Hall; left).
  f_equal. apply IH. intros y Hy. apply Hall. right. exact Hy.
Qed.

Lemma finished_transfer_frame (w w1 : world) (c : CURLMsg) (r : ptr) :
  finished_transfer w c r ->
  heap w1 !! easy_handle c = heap w !! easy_handle c ->
  heap w1 !! r = heap w !! r ->
  finished_transfer w1 c r.
Proof.
  intros (Hdone & opts & items & He & Hprivate & Hr) Hsame_e Hsame_r.
  split; [exact Hdone |]. exists opts, items.
  rewrite Hsame_e, Hsame_r. auto.
Qed.

Lemma finished_transfers_frame (w w1 : world) (msgq : list CURLMsg) (rs : list ptr) :
  Forall2 (finished_transfer w) msgq rs ->
  (forall q, q ∈ (easy_handle <$> msgq) ++ rs -> heap w1 !! q = heap w !! q) ->
  Forall2 (finished_transfer w1) msgq rs.
Proof.
  induction 1 as [|c r msgq rs Hc Hrest IH]; intros Hsame; constructor.
  - apply (finished_transfer_frame w); [exact Hc | |]; apply Hsame.
    + cbn. left.
    + apply elem_of_app. right. left.
  - apply IH. intros q Hq. apply Hsame.
    apply elem_of_app in Hq as [Hq | Hq].
    + cbn. right. apply elem_of_app. left. exact Hq.
    + apply elem_of_app. right. right. exact Hq.
Qed.

Lemma finished_easy_handles (w : world) (msgq : list CURLMsg) (rs : list ptr) (e : ptr) :
  Forall2 (finished_transfer w) msgq rs ->
  e ∈ easy_handle <$> msgq ->
  exists opts, heap w !! e = Some (EasyHandle opts).
Proof.
  induction 1 as [|c r msgq rs Hc Hrest IH]; cbn; intros He.
  - inversion He.
  - apply elem_of_cons in He as [-> | He]; [| exact (IH He)].
    destruct Hc as (_ & opts & _ & Hopts & _). eauto.
Qed.

Lemma finished_recipient_lists (w : world) (msgq : list CURLMsg) (rs : list ptr) (r : ptr) :
  Forall2 (finished_transfer w) msgq rs ->
  r ∈ rs ->
  exists items, heap w !! r = Some (Slist items).
Proof.
  induction 1 as [|c r' msgq rs Hc Hrest IH]; intros Hr.
  - inversion Hr.
  - apply elem_of_cons in Hr as [-> | Hr]; [| exact (IH Hr)].
    destruct Hc as (_ & _ & items & _ & _ & Hitems). eauto.
Qed.

End Reap.

(** X2.  The loop of the poller run on a queue of finished transfers
    (distinct easy handles, distinct recipient lists): it returns; every such transfer is removed
    from the multi handle, its recipient list and its easy handle are
    released; the queue is left empty; every other address, a streaming
    state among them, holds what it held. *)
Theorem smtp_consumer_reap_releases (m : ptr) :
  forall (msgq : list CURLMsg) (rs : list ptr) (w : world) (attached : list ptr),
    heap w !! m = Some (MultiHandle attached msgq) ->
    Forall2 (finished_transfer w) msgq rs ->
    NoDup (easy_handle <$> msgq) ->
    NoDup rs ->
    exists w',
      smtp_consumer_reap (S (length msgq)) (Some m) w = Some (tt, w') /\
      (exists attached',
         heap w' !! m = Some (MultiHandle attached' []) /\
         forall x, x ∈ attached' <-> x ∈ attached /\ x ∉ easy_handle <$> msgq) /\
      (forall e, e ∈ easy_handle <$> msgq -> heap w' !! e = None) /\
      (forall r, r ∈ rs -> heap w' !! r = None) /\
      (forall q, q ≠ m -> q ∉ easy_handle <$> msgq -> q ∉ rs ->
                 heap w' !! q = heap w !! q) /\
      trace w' = trace w ++ concat (zip_with (reap_events m) msgq rs).
Proof.
  induction msgq as [|c msgq IH]; intros rs w attached Hm Hdone Heasy Hlists.
  - apply Forall2_nil_inv_l in Hdone as ->.
    exists w. split.
    { cbn [smtp_consumer_reap length].
      run_with (eapply curl_multi_info_read_empty; exact Hm). reflexivity. }
    split; [exists attached; split; [exact Hm |] |].
    { intros x. cbn. split; [intros Hx; split; [exact Hx | apply not_elem_of_nil] | tauto]. }
    split; [intros e He; inversion He |].
    split; [intros r Hr; inversion Hr |].
    split; [reflexivity |]. cbn. rewrite app_nil_r. reflexivity.
  - apply Forall2_cons_inv_l in Hdone as (r & rs' & Hc & Hrest & ->).
    cbn [fmap list_fmap] in Heasy.
    apply NoDup_cons in Heasy as [Hfirst Heasy].
    apply NoDup_cons in Hlists as [Hfirst_list Hlists].
    set (e := easy_handle c) in *.
    assert (He : exists opts, heap w !! e = Some (EasyHandle opts)).
    { destruct Hc as (_ & opts & _ & Hopts & _). eauto. }
    assert (Hr : exists items, heap w !! r = Some (Slist items)).
    { destruct Hc as (_ & _ & items & _ & _ & Hitems). eauto. }
    destruct He as [opts He]. destruct Hr as [items Hr].
    assert (Hme : m ≠ e) by (intros Heq; rewrite Heq in Hm; congruence).
    assert (Hmr : m ≠ r) by (intros Heq; rewrite Heq in Hm; congruence).
    assert (Hre : r ≠ e) by (intros Heq; rewrite Heq in Hr; congruence).
    assert (Hm_easy : m ∉ easy_handle <$> msgq).
    { intros Hin. destruct (finished_easy_handles w _ _ _ Hrest Hin). congruence. }
    assert (Hm_list : m ∉ rs').
    { intros Hin. destruct (finished_recipient_lists w _ _ _ Hrest Hin). congruence. }
    assert (He_list : e ∉ rs').
    { intros Hin. destruct (finished_recipient_lists w _ _ _ Hrest Hin). congruence. }
    assert (Hr_easy : r ∉ easy_handle <$> msgq).
    { intros Hin. destruct (finished_easy_handles w _ _ _ Hrest Hin). congruence. }
    destruct (smtp_consumer_reap_step w m attached c msgq r (S (length msgq)) Hm Hc)
      as (w1 & Hstep & Hheap1 & Htrace1).
    fold e in Hheap1.
    assert (Hkeep : filter (fun c' => easy_handle c' ≠ e) msgq = msgq).
    { apply filter_all. intros c' Hc' Heq. apply Hfirst. rewrite <- Heq.
      apply list_elem_of_fmap. exists c'. auto. }
    rewrite Hkeep in Hheap1.
    assert (Hother : forall q, q ≠ m -> q ≠ e -> q ≠ r -> heap w1 !! q = heap w !! q).
    { intros q Hqm Hqe Hqr. rewrite Hheap1.
      rewrite !lookup_delete_ne, lookup_insert_ne by congruence. reflexivity. }
    assert (Hm1 : heap w1 !! m
                  = Some (MultiHandle (filter (fun x => x ≠ e) attached) msgq)).
    { rewrite Hheap1. rewrite !lookup_delete_ne by congruence.
      apply lookup_insert_eq. }
    assert (Hrest1 : Forall2 (finished_transfer w1) msgq rs').
    { apply (finished_transfers_frame w); [exact Hrest |].
      intros q Hq. apply Hother.
      - intros ->. apply elem_of_app in Hq as [Hq | Hq]; contradiction.
      - intros ->. apply elem_of_app in Hq as [Hq | Hq]; contradiction.
      - intros ->. apply elem_of_app in Hq as [Hq | Hq]; contradiction. }
    destruct (IH rs' w1 _ Hm1 Hrest1 Heasy Hlists)
      as (w' & Hrun & (attached' & Hm' & Hattached') & Heasy' & Hlists' & Hframe & Htrace').
    exists w'. split; [cbn [length]; rewrite Hstep; exact Hrun |].
    split; [exists attached'; split; [exact Hm' |] |].
    { intros x. rewrite Hattached', list_elem_of_filter.
      cbn [fmap list_fmap]. fold e. rewrite not_elem_of_cons. tauto. }
    split.
    { intros e' He'. cbn [fmap list_fmap] in He'. fold e in He'.
      apply elem_of_cons in He' as [-> | He']; [| exact (Heasy' e' He')].
      rewrite Hframe by (congruence || assumption).
      rewrite Hheap1. apply lookup_delete_eq. }
    split.
    { intros r' Hr'.
      apply elem_of_cons in Hr' as [-> | Hr']; [| exact (Hlists' r' Hr')].
      rewrite Hframe by (congruence || assumption).
      rewrite Hheap1, lookup_delete_ne by congruence. apply lookup_delete_eq. }
    split.
    { intros q Hqm Hqe Hqr. cbn [fmap list_fmap] in Hqe. fold e in Hqe.
      apply not_elem_of_cons in Hqe as [Hqe Hqe'].
      apply not_elem_of_cons in Hqr as [Hqr Hqr'].
      rewrite Hframe by assumption. apply Hother; assumption. }
    rewrite Htrace', Htrace1. cbn [zip_with concat].
    rewrite <- app_assoc. reflexivity.
Qed.

(** No function of [smtp.cpp] releases a streaming state: whatever is
    called, and whatever libcurl answers, a streaming state allocated before
    the call is allocated after it. *)
Lemma streaming_state_is_never_released (p : ptr) :
  (forall ca url port user pw,
     preserves (streaming_state_at p) (smtp_init ca url port user pw)) /\
  (forall ca url port user pw,
     preserves (streaming_state_at p) (smtp_reconfig ca url port user pw)) /\
  (forall spins now to_address from_address from_name subject body,
     preserves (streaming_state_at p)
       (smtp_send_email spins now to_address from_address from_name subject body)) /\
  (forall iterations fuel,
     preserves (streaming_state_at p) (smtp_consumer iterations fuel)) /\
  preserves (streaming_state_at p) smtp_cleanup.
Proof.
  unfold streaming_state_at.
  split; [intros; apply smtp_init_keeps |].
  split; [intros; apply smtp_config_keeps |].
  split; [intros; apply smtp_send_email_keeps |].
  split; [intros; apply smtp_consumer_keeps; discriminate |].
  apply smtp_cleanup_keeps. discriminate.
Qed.

(** *** The submission at the streaming state *)

Lemma nth_tl {A} (n : nat) (l : list A) (d : A) :
  nth n (tl l) d = nth (S n) l d.
Proof. destruct l, n; reflexivity. Qed.

(** The outcome of a coming call, read off the script as it was at first. *)
Ltac script_says :=
  unfold call_succeeds; normalize_world; rewrite ?nth_tl; assumption.

Section SendSteps.

Variable w : world.

Lemma next_fault_run :
  next_fault w = Some (call_succeeds 0 w, set_faults (tl (faults w)) w).
Proof.
  destruct w as [flag thread slots c1 c2 c3 c4 c5 hp nx glob flts rnds tr].
  destruct flts as [|ok rest]; reflexivity.
Qed.

Lemma curl_easy_init_ok :
  call_succeeds 0 w = true ->
  curl_easy_init w =
    Some (Some (next_ptr w),
          set_trace (trace w ++ [EvEasyInit (Some (next_ptr w))])
            (set_next_ptr (Pos.succ (next_ptr w))
               (set_heap (<[next_ptr w := EasyHandle ∅]> (heap w))
                  (set_faults (tl (faults w)) w)))).
Proof.
  intros Hok. unfold curl_easy_init, bind. rewrite next_fault_run, Hok.
  reflexivity.
Qed.

Lemma curl_easy_setopt_run (e : ptr) (o : CURLoption) (v : option_value)
    (opts : gmap CURLoption option_value) :
  heap w !! e = Some (EasyHandle opts) ->
  curl_easy_setopt e o v w =
    Some (tt, set_heap (<[e := EasyHandle (<[o := v]> opts)]> (heap w)) w).
Proof.
  intros He. unfold curl_easy_setopt, load_easy, load, store, bind, ret.
  rewrite He. cbn [fst snd]. rewrite He. reflexivity.
Qed.

Lemma curl_slist_append_ok (s : string) :
  call_succeeds 0 w = true ->
  curl_slist_append None s w =
    Some (Some (next_ptr w),
          set_trace (trace w ++ [EvSlistAppend (Some (next_ptr w))])
            (set_next_ptr (Pos.succ (next_ptr w))
               (set_heap (<[next_ptr w := Slist [s]]> (heap w))
                  (set_faults (tl (faults w)) w)))).
Proof.
  intros Hok. unfold curl_slist_append, bind. rewrite next_fault_run, Hok.
  reflexivity.
Qed.

(** On raw memory the assignment of line 297 does not return. *)
Lemma assign_message_raw (p : ptr) (s : string) :
  heap w !! p = Some (RcbMessage None) ->
  assign_message p s w = None.
Proof.
  intros Hp. unfold assign_message, load, bind. rewrite Hp. reflexivity.
Qed.

(** On an object that has been constructed the two assignments leave the
    streaming state [new_rcbmessage] describes. *)
Lemma assignments_build_new_rcbmessage (p : ptr) (m : read_callback_message)
    (composed : string) :
  heap w !! p = Some (RcbMessage (Some m)) ->
  (assign_message p composed;;
   assign_bytes_remaining p (size_wrap (Z.of_nat (String.length composed) + 1))) w
  = Some (tt, set_heap (<[p := RcbMessage (Some (new_rcbmessage composed))]> (heap w)) w).
Proof.
  intros Hp.
  destruct w as [flag thread slots c1 c2 c3 c4 c5 hp nx glob flts rnds tr].
  cbn [heap] in Hp.
  unfold assign_message, assign_bytes_remaining, load, store, bind, ret.
  cbn [heap set_heap]. rewrite Hp. cbn [heap set_heap fst snd].
  rewrite Hp. cbn [heap set_heap]. rewrite lookup_insert_eq.
  cbn [heap set_heap]. rewrite lookup_insert_eq.
  cbn [set_heap heap message]. rewrite insert_insert_eq. reflexivity.
Qed.

End SendSteps.

Lemma compose_message_returns
    (now : tm) (to_address from_address from_name subject body : string) :
  exists composed,
    compose_message now to_address from_address from_name subject body
      = Some composed.
Proof.
  unfold compose_message, fmt_format.
  let f := eval vm_compute in MIME_FORMAT in change MIME_FORMAT with f.
  cbn [fmt_go format_field format_tm format_tm_conversion
       fmap option_fmap option_map].
  eexists. reflexivity.
Qed.

(** Looks an address up in a heap built by insertions at fresh addresses. *)
Ltac heap_lookup :=
  normalize_world;
  repeat first [ apply lookup_insert_eq | rewrite lookup_insert_ne by lia ].

(** With the flag set, once [curl_easy_init] and [curl_slist_append] have
    succeeded [smtp_send_email] comes to line 297 with the raw memory
    [xmalloc] has just returned, and does not get past it. *)
Lemma smtp_send_email_stops_at_raw_memory (w : world)
    (spins : nat) (now : tm)
    (to_address from_address from_name subject body : string) :
  is_curl_initialized w = true ->
  call_succeeds 0 w = true ->
  call_succeeds 1 w = true ->
  smtp_send_email spins now to_address from_address from_name subject body w
    = None.
Proof.
  intros Hflag H0 H1.
  destruct (compose_message_returns now to_address from_address from_name
              subject body) as [composed Hcomposed].
  destruct w as [flag thread slots c1 c2 c3 c4 c5 hp nx glob flts rnds tr].
  unfold call_succeeds in H0, H1.
  cbn [is_curl_initialized faults] in Hflag, H0, H1. subst flag.
  unfold smtp_send_email.
  run_with (reflexivity). cbn [negb].
  run_with (apply curl_easy_init_ok; script_says).
  run_with (eapply curl_easy_setopt_run; heap_lookup).
  run_with (reflexivity).
  run_with (eapply curl_easy_setopt_run; heap_lookup).
  run_with (reflexivity).
  run_with (eapply curl_easy_setopt_run; heap_lookup).
  run_with (reflexivity).
  run_with (eapply curl_easy_setopt_run; heap_lookup).
  run_with (reflexivity).
  run_with (eapply curl_easy_setopt_run; heap_lookup).
  run_with (reflexivity).
  run_with (eapply curl_easy_setopt_run; heap_lookup).
  run_with (reflexivity).
  run_with (eapply curl_easy_setopt_run; heap_lookup).
  run_with (reflexivity).
  run_with (apply curl_slist_append_ok; script_says).
  run_with (eapply curl_easy_setopt_run; heap_lookup).
  run_with (eapply curl_easy_setopt_run; heap_lookup).
  run_with (eapply curl_easy_setopt_run; heap_lookup).
  rewrite Hcomposed.
  run_with (reflexivity).
  unfold bind at 1. rewrite assign_message_raw; [reflexivity |].
  heap_lookup.
Qed.

(** C2.  The first half of the claim holds of the poller: for every
    transfer reported finished it removes the easy handle from the multi
    handle and releases the recipient list and the easy handle
    ([smtp_consumer_reap_releases]).  The second half fails at the
    submission.  With the flag set, a call of [smtp_send_email] for which
    [curl_easy_init] and [curl_slist_append] succeed takes raw memory from
    [xmalloc] at line 296 and assigns to the [std::string] in it at line
    297, where no string was constructed: the call is undefined and hands
    no transfer to the poller.  So the scenario of the specification
    (initialise, two submissions, both reaped, shut down) is not a run the
    program makes: it stops in the first submission.  And whatever is
    called, no function of [smtp.cpp] releases what [xmalloc] returned
    there: a streaming state allocated before a call is allocated after
    it. *)
Theorem submission_stops_at_the_streaming_state :
  (forall w spins now to_address from_address from_name subject body,
     is_curl_initialized w = true ->
     call_succeeds 0 w = true ->
     call_succeeds 1 w = true ->
     smtp_send_email spins now to_address from_address from_name subject body w
       = None) /\
  (smtp_init (Some "/ca.pem") (Some "mail.example.com") 587
             (Some "user") (Some "pw");;
   smtp_send_email 1 sample_now "bob@example.com" "noreply@pvpgn.pro"
                   "PvPGN" "Hi" "Body") (initial_world [] []) = None /\
  sample_session (initial_world [] [(0, [3; 6]%positive)]) = None /\
  (forall p,
     (forall ca url port user pw,
        preserves (streaming_state_at p) (smtp_init ca url port user pw)) /\
     (forall ca url port user pw,
        preserves (streaming_state_at p) (smtp_reconfig ca url port user pw)) /\
     (forall spins now to_address from_address from_name subject body,
        preserves (streaming_state_at p)
          (smtp_send_email spins now to_address from_address from_name subject body)) /\
     (forall iterations fuel,
        preserves (streaming_state_at p) (smtp_consumer iterations fuel)) /\
     preserves (streaming_state_at p) smtp_cleanup).
Proof.
  split; [intros; apply smtp_send_email_stops_at_raw_memory; assumption |].
  split; [vm_compute; reflexivity |].
  split; [vm_compute; reflexivity |].
  exact streaming_state_is_never_released.
Qed.

Lemma submission_stops_at_the_streaming_state_witness :
  smtp_send_email 1 sample_now "bob@example.com" "noreply@pvpgn.pro"
                  "PvPGN" "Hi" "Body" initialized_world = None.
Proof.
  destruct submission_stops_at_the_streaming_state as [Hstops _].
  apply Hstops; vm_compute; reflexivity.
Defined.

(** ** What a submission and a round of the poller leave alone *)

Section Globals.

Variable G : bool * bool * list slot * (string * list ascii * Z * string * string) * nat.

Local Ltac globals_kept :=
  let H := fresh "Hrun" in
  intros w a w' HI H; run_cases H; exact HI.

Lemma eventlog_keeps_globals level function text args :
  preserves (has_globals G) (eventlog level function text args).
Proof. globals_kept. Qed.

Lemma get_slot_keeps_globals i : preserves (has_globals G) (get_slot i).
Proof. globals_kept. Qed.

Lemma store_keeps_globals q o : preserves (has_globals G) (store q o).
Proof. globals_kept. Qed.

Lemma must_format_keeps_globals f args :
  preserves (has_globals G) (must_format f args).
Proof. globals_kept. Qed.

Lemma curl_multi_timeout_keeps_globals h timeout :
  preserves (has_globals G) (curl_multi_timeout h timeout).
Proof. globals_kept. Qed.

Lemma curl_multi_poll_keeps_globals h timeout :
  preserves (has_globals G) (curl_multi_poll h timeout).
Proof. globals_kept. Qed.

Lemma curl_multi_perform_keeps_globals h :
  preserves (has_globals G) (curl_multi_perform h).
Proof. globals_kept. Qed.

Lemma curl_multi_info_read_keeps_globals h :
  preserves (has_globals G) (curl_multi_info_read h).
Proof. globals_kept. Qed.

Lemma curl_multi_add_handle_keeps_globals h e :
  preserves (has_globals G) (curl_multi_add_handle h e).
Proof. globals_kept. Qed.

Lemma curl_multi_remove_handle_keeps_globals h e :
  preserves (has_globals G) (curl_multi_remove_handle h e).
Proof. globals_kept. Qed.

Lemma curl_easy_init_keeps_globals : preserves (has_globals G) curl_easy_init.
Proof. globals_kept. Qed.

Lemma curl_easy_setopt_keeps_globals e o v :
  preserves (has_globals G) (curl_easy_setopt e o v).
Proof. globals_kept. Qed.

Lemma curl_easy_getinfo_private_keeps_globals e :
  preserves (has_globals G) (curl_easy_getinfo_private e).
Proof. globals_kept. Qed.

Lemma curl_easy_cleanup_keeps_globals e :
  preserves (has_globals G) (curl_easy_cleanup e).
Proof. globals_kept. Qed.

Lemma curl_slist_append_keeps_globals l s :
  preserves (has_globals G) (curl_slist_append l s).
Proof. globals_kept. Qed.

Lemma curl_slist_free_all_keeps_globals l :
  preserves (has_globals G) (curl_slist_free_all l).
Proof. globals_kept. Qed.

Lemma xmalloc_rcb_keeps_globals : preserves (has_globals G) xmalloc_rcb.
Proof. globals_kept. Qed.

Lemma assign_message_keeps_globals q s :
  preserves (has_globals G) (assign_message q s).
Proof. globals_kept. Qed.

Lemma assign_bytes_remaining_keeps_globals q n :
  preserves (has_globals G) (assign_bytes_remaining q n).
Proof. globals_kept. Qed.

End Globals.

Create HintDb globals discriminated.
#[local] Hint Resolve preserves_ret preserves_gets preserves_stuck
  eventlog_keeps_globals get_slot_keeps_globals
  store_keeps_globals must_format_keeps_globals
  curl_multi_timeout_keeps_globals curl_multi_poll_keeps_globals
  curl_multi_perform_keeps_globals curl_multi_info_read_keeps_globals
  curl_multi_add_handle_keeps_globals curl_multi_remove_handle_keeps_globals
  curl_easy_init_keeps_globals curl_easy_setopt_keeps_globals
  curl_easy_getinfo_private_keeps_globals curl_easy_cleanup_keeps_globals
  curl_slist_append_keeps_globals curl_slist_free_all_keeps_globals
  xmalloc_rcb_keeps_globals assign_message_keeps_globals
  assign_bytes_remaining_keeps_globals
  : globals.

Ltac keeps_globals :=
  first
    [ solve [auto with globals]
    | apply preserves_bind; [keeps_globals | intros ?; keeps_globals]
    | apply preserves_for_each; intros ?; keeps_globals
    | match goal with
      | |- preserves _ (match ?x with _ => _ end) => destruct x; keeps_globals
      end ].

(** Runs the first computation of the returned sequence in [H], a
    computation that keeps the globals [Hg] speaks of. *)
Ltac frame_step H Hg :=
  let a := fresh "a" in
  let w1 := fresh "w" in
  let Hs := fresh "Hstep" in
  apply bind_inv in H as (a & w1 & Hs & H);
  lazymatch type of Hs with
  | ?m _ = _ =>
      lazymatch type of Hg with
      | has_globals ?G _ =>
          let Hp := fresh "Hkeeps" in
          assert (Hp : preserves (has_globals G) m) by keeps_globals;
          apply (Hp _ _ _ Hg) in Hs; clear Hp Hg; rename Hs into Hg
      end
  end.

Section Locks.

Lemma mutex_try_lock_run (i : nat) (w w' : world) (b : bool) :
  mutex_try_lock i w = Some (b, w') ->
  exists s,
    handles_and_mutexes w !! i = Some s /\
    ((mutex_locked s = true /\ b = false /\ w' = w) \/
     (mutex_locked s = false /\ b = true /\
      w' = set_handles_and_mutexes
             (<[i := mk_slot (curl_multi_handle s) true]> (handles_and_mutexes w)) w)).
Proof.
  intros Hrun. run_cases Hrun; eexists; (split; [reflexivity |]); auto.
Qed.

Lemma mutex_unlock_run (i : nat) (w w' : world) (u : unit) :
  mutex_unlock i w = Some (u, w') ->
  exists s,
    handles_and_mutexes w !! i = Some s /\
    mutex_locked s = true /\
    w' = set_handles_and_mutexes
           (<[i := mk_slot (curl_multi_handle s) false]> (handles_and_mutexes w)) w.
Proof.
  intros Hrun. run_cases Hrun; eexists; (split; [reflexivity |]); auto.
Qed.

(** A mutex taken and released is as it was, and so is everything else
    when what ran in between kept the globals. *)
Lemma unlock_after_lock (i : nat) (w w2 w3 : world) (s : slot) (u : unit) :
  handles_and_mutexes w !! i = Some s ->
  mutex_locked s = false ->
  has_globals
    (globals (set_handles_and_mutexes
                (<[i := mk_slot (curl_multi_handle s) true]> (handles_and_mutexes w)) w))
    w2 ->
  mutex_unlock i w2 = Some (u, w3) ->
  has_globals (globals w) w3.
Proof.
  intros Hs Hfree Hg Hrun.
  apply mutex_unlock_run in Hrun as (s' & Hs' & _ & ->).
  unfold has_globals, globals in *. cbn in Hg |- *.
  injection Hg as Hflag Hthread Hslots Hconfig Hglobal.
  assert (Hi : (i < length (handles_and_mutexes w))%nat)
    by (eapply lookup_lt_Some; exact Hs).
  rewrite Hslots in Hs' |- *.
  rewrite list_lookup_insert_eq in Hs' by exact Hi. injection Hs' as <-.
  cbn [curl_multi_handle]. rewrite list_insert_insert_eq.
  rewrite list_insert_id; [| destruct s; cbn in *; subst; exact Hs].
  unfold stored_config in *. cbn in *. congruence.
Qed.

End Locks.

Section GlobalsKept.

Lemma smtp_consumer_reap_keeps_globals G (fuel : nat) (h : option ptr) :
  preserves (has_globals G) (smtp_consumer_reap fuel h).
Proof.
  induction fuel as [|fuel IH]; cbn [smtp_consumer_reap]; keeps_globals.
Qed.

Lemma smtp_consumer_visit_keeps_globals G (fuel i : nat) :
  preserves (has_globals G) (smtp_consumer_visit fuel i).
Proof.
  pose proof smtp_consumer_reap_keeps_globals as Hreap.
  intros w r w' HG Hrun. unfold has_globals in HG. subst G.
  unfold smtp_consumer_visit in Hrun.
  apply bind_inv in Hrun as (s & w1 & Hslot & Hrun).
  run_cases Hslot.
  apply bind_inv in Hrun as (locked & w1 & Hlock & Hrun).
  apply mutex_try_lock_run in Hlock
    as (s' & Hs' & [(_ & -> & ->) | (Hfree & -> & ->)]).
  - injection Hrun as _ <-. reflexivity.
  - cbn [negb] in Hrun.
    match type of Hrun with
    | _ ?w1 = _ => assert (Hg : has_globals (globals w1) w1) by reflexivity
    end.
    do 4 frame_step Hrun Hg.
    apply bind_inv in Hrun as (u & w5 & Hunlock & Hrun).
    injection Hrun as _ <-.
    exact (unlock_after_lock i w _ _ s' u Hs' Hfree Hg Hunlock).
Qed.

Lemma smtp_consumer_round_keeps_globals G (fuel : nat) :
  preserves (has_globals G) (smtp_consumer_round fuel).
Proof.
  unfold smtp_consumer_round.
  apply preserves_bind; [| intros ?; apply preserves_ret].
  apply preserves_for_each. intros i. apply smtp_consumer_visit_keeps_globals.
Qed.

Lemma smtp_send_attach_keeps_globals G (spins : nat) (curl : ptr) :
  preserves (has_globals G) (smtp_send_attach spins curl).
Proof.
  induction spins as [|spins IH]; cbn [smtp_send_attach]; [apply preserves_stuck |].
  apply preserves_bind; [| intros [u|]; [apply preserves_ret | exact IH]].
  apply preserves_for_each. intros i.
  intros w r w' HG Hrun. unfold has_globals in HG. subst G.
  apply bind_inv in Hrun as (locked & w1 & Hlock & Hrun).
  apply mutex_try_lock_run in Hlock
    as (s' & Hs' & [(_ & -> & ->) | (Hfree & -> & ->)]).
  - injection Hrun as _ <-. reflexivity.
  - cbn [negb] in Hrun.
    match type of Hrun with
    | _ ?w1 = _ => assert (Hg : has_globals (globals w1) w1) by reflexivity
    end.
    do 3 frame_step Hrun Hg.
    apply bind_inv in Hrun as (u & w5 & Hunlock & Hrun).
    injection Hrun as _ <-.
    exact (unlock_after_lock i w _ _ s' u Hs' Hfree Hg Hunlock).
Qed.

Lemma smtp_send_email_keeps_globals G
    (spins : nat) (now : tm)
    (to_address from_address from_name subject body : string) :
  preserves (has_globals G)
    (smtp_send_email spins now to_address from_address from_name subject body).
Proof.
  pose proof smtp_send_attach_keeps_globals.
  unfold smtp_send_email. keeps_globals.
Qed.

End GlobalsKept.

(** X5.  When [smtp_send_email] returns, and when a round of the poller
    returns, the flag, the thread object, the two slots with their multi
    handles and the state of their mutexes, the five configuration
    variables and libcurl's global context are what they were: every mutex
    taken has been released, and a mutex found held has not been touched. *)
Theorem submission_and_polling_keep_globals :
  (forall spins now to_address from_address from_name subject body w w',
     smtp_send_email spins now to_address from_address from_name subject body w
       = Some (tt, w') ->
     globals w' = globals w) /\
  (forall fuel w w',
     smtp_consumer_round fuel w = Some (tt, w') ->
     globals w' = globals w).
Proof.
  split.
  - intros spins now t f fn sj b w w' Hrun.
    exact (smtp_send_email_keeps_globals (globals w) _ _ _ _ _ _ _ w tt w'
             eq_refl Hrun).
  - intros fuel w w' Hrun.
    exact (smtp_consumer_round_keeps_globals (globals w) _ w tt w' eq_refl Hrun).
Qed.

(** ** The poller's loop *)

(** X4.  [smtp_consumer] called with the flag clear returns at once and
    changes nothing.  Called with the flag set it does not return by
    itself, whatever bound is put on the number of rounds: nothing in its
    loop stores to the flag, so only a store made from outside ends it. *)
Theorem smtp_consumer_runs_while_flag_is_set (iterations fuel : nat) (w : world) :
  (is_curl_initialized w = false ->
   smtp_consumer (S iterations) fuel w = Some (tt, w)) /\
  (is_curl_initialized w = true ->
   smtp_consumer iterations fuel w = None).
Proof.
  split.
  - intros Hflag. cbn [smtp_consumer]. unfold bind, gets. rewrite Hflag.
    reflexivity.
  - revert w. induction iterations as [|n IH]; intros w Hflag; [reflexivity |].
    cbn [smtp_consumer]. unfold bind at 1, gets. rewrite Hflag.
    unfold bind.
    destruct (smtp_consumer_round fuel w) as [[[] w1]|] eqn:Hround; [| reflexivity].
    apply IH.
    pose proof (smtp_consumer_round_keeps_globals (globals w) fuel w tt w1
                  eq_refl Hround) as Hsame.
    unfold has_globals, globals in Hsame. injection Hsame as -> _ _ _ _.
    exact Hflag.
Qed.

Lemma smtp_consumer_runs_while_flag_is_set_witness :
  smtp_consumer 1 3 (initial_world [] []) = Some (tt, initial_world [] []) /\
  smtp_consumer 5 3 initialized_world = None.
Proof.
  split.
  - apply (smtp_consumer_runs_while_flag_is_set 0 3 (initial_world [] [])).
    reflexivity.
  - apply (smtp_consumer_runs_while_flag_is_set 5 3 initialized_world).
    vm_compute. reflexivity.
Defined.

(** ** The globals between calls *)

Lemma smtp_config_frame ca url port user pw (w wc : world) (b : bool) :
  smtp_config ca url port user pw w = Some (b, wc) ->
  is_curl_initialized wc = is_curl_initialized w /\
  smtp_thread wc = smtp_thread w /\
  handles_and_mutexes wc = handles_and_mutexes w /\
  heap wc = heap w /\
  next_ptr wc = next_ptr w /\
  curl_global wc = curl_global w /\
  faults wc = faults w /\
  rounds wc = rounds w /\
  (b = false -> stored_config wc = stored_config w).
Proof.
  intros Hrun. unfold smtp_config in Hrun.
  run_cases Hrun; repeat split; try reflexivity; discriminate.
Qed.

(** What [smtp_init] leaves when it gets past its guard. *)
Lemma smtp_init_outcome ca url port user pw (w w' : world) (r : bool) :
  is_curl_initialized w = false ->
  length (handles_and_mutexes w) = POOL_SIZE ->
  smtp_init ca url port user pw w = Some (r, w') ->
  exists b wc,
    smtp_config ca url port user pw w = Some (b, wc) /\
    stored_config w' = stored_config wc /\
    mutex_locked <$> handles_and_mutexes w' = mutex_locked <$> handles_and_mutexes w /\
    is_curl_initialized w' = r /\
    smtp_thread w' = r || smtp_thread w /\
    curl_global w' = (if r then S (curl_global w) else curl_global w).
Proof.
  intros Hflag Hlen Hrun.
  unfold smtp_init in Hrun.
  apply bind_inv in Hrun as (f & w0 & Hgets & Hrun).
  injection Hgets as <- <-. rewrite Hflag in Hrun.
  apply bind_inv in Hrun as (b & wc & Hconfig & Hrun).
  exists b, wc. split; [exact Hconfig |].
  apply smtp_config_frame in Hconfig
    as (Hflag' & Hthread' & Hslots' & _ & _ & Hglobal' & _).
  rewrite <- Hflag', <- Hthread', <- Hslots', <- Hglobal' in *.
  clear Hflag' Hthread' Hslots' Hglobal' w.
  destruct wc as [flag thread slots c1 c2 c3 c4 c5 hp nx glob flts rnds tr].
  cbn [is_curl_initialized handles_and_mutexes smtp_thread curl_global] in *.
  subst flag.
  destruct slots as [|s0 [|s1 [|s2 slots]]]; try discriminate Hlen.
  unfold slot_indices, POOL_SIZE in Hrun. cbn [seq for_each] in Hrun.
  destruct b; cbn [negb] in Hrun; steps_in Hrun.
  all: unfold CURLE_OK, CURLE_FAILED_INIT in Hrun; cbn [negb Z.eqb Pos.eqb] in Hrun;
    steps_in Hrun.
  all: injection Hrun as <- <-.
  all: simplify_eq/=.
  all: repeat split; reflexivity.
Qed.

Lemma length_read_c_string_terminated (text rest : list ascii) :
  (String.length (read_c_string (text ++ NUL :: rest)) <= length text)%nat.
Proof.
  induction text as [|c text IH]; [cbn; lia |].
  cbn [app read_c_string]. destruct (Ascii.eqb c NUL); cbn; lia.
Qed.

Lemma smtp_config_keeps_url_terminated ca url port user pw (w wc : world) (b : bool) :
  smtp_config ca url port user pw w = Some (b, wc) ->
  length (smtp_server_url w) = SMTP_SERVER_URL_SIZE ->
  (String.length (read_c_string (smtp_server_url w)) < SMTP_SERVER_URL_SIZE)%nat ->
  smtp_port w <= 65535 ->
  length (smtp_server_url wc) = SMTP_SERVER_URL_SIZE /\
  (String.length (read_c_string (smtp_server_url wc)) < SMTP_SERVER_URL_SIZE)%nat /\
  smtp_port wc <= 65535.
Proof.
  intros Hrun Hlen Hread Hport.
  assert (Hcases :
    (ca = None \/ url = None \/ 65535 < port \/ user = None \/ pw = None) \/
    (exists ca' url' user' pw',
       ca = Some ca' /\ url = Some url' /\ user = Some user' /\ pw = Some pw' /\
       port <= 65535)).
  { destruct ca, url, user, pw, (Z.lt_ge_cases 65535 port); eauto 10. }
  destruct Hcases as [Hbad | (ca' & url' & user' & pw' & -> & -> & -> & -> & Hok)].
  - destruct (smtp_config_refuses w _ _ _ _ _ Hbad) as [line Hrefused].
    rewrite Hrefused in Hrun. injection Hrun as _ <-. auto.
  - rewrite (smtp_config_accepts w _ _ _ _ _ Hok) in Hrun.
    set (buf := snprintf _ _ _ _) in Hrun.
    injection Hrun as _ <-. normalize_world. subst buf.
    split; [apply length_snprintf; exact Hlen |].
    split; [| exact Hok].
    unfold snprintf, SMTP_SERVER_URL_SIZE. cbn [app].
    eapply Nat.le_lt_trans; [apply length_read_c_string_terminated |].
    rewrite length_take. lia.
Qed.

Lemma locks_free_fmap (slots slots' : list slot) :
  mutex_locked <$> slots' = mutex_locked <$> slots ->
  Forall (fun s => mutex_locked s = false) slots ->
  Forall (fun s => mutex_locked s = false) slots'.
Proof.
  intros Hsame Hfree.
  apply (Forall_fmap mutex_locked (fun b => b = false)).
  rewrite Hsame. apply Forall_fmap. exact Hfree.
Qed.

Lemma globals_consistent_of_globals (w w' : world) :
  globals w' = globals w -> globals_consistent w -> globals_consistent w'.
Proof.
  unfold globals, stored_config, globals_consistent.
  intros Hsame. injection Hsame as -> -> -> _ -> -> _ _ ->. auto.
Qed.

Lemma reachable_globals_consistent (w : world) :
  reachable w -> globals_consistent w.
Proof.
  induction 1 as [flts rnds
                 | ca url port user pw w r w' Hreach IH Hrun
                 | ca url port user pw w r w' Hreach IH Hrun
                 | spins now t f fn sj b w w' Hreach IH Hrun
                 | fuel w w' Hreach IH Hflag Hrun
                 | w w' Hreach IH Hrun].
  - unfold globals_consistent. cbn.
    repeat split; try reflexivity; try lia.
    + repeat constructor.
    + unfold SMTP_SERVER_URL_SIZE. lia.
  - destruct (is_curl_initialized w) eqn:Hflag.
    + rewrite (smtp_init_already_initialized w _ _ _ _ _ Hflag) in Hrun.
      injection Hrun as _ <-. exact IH.
    + destruct (reachable_lifecycle w Hreach) as (_ & Hlen & _).
      destruct (smtp_init_outcome _ _ _ _ _ w w' r Hflag Hlen Hrun)
        as (b' & wc & Hconfig & Hstored & Hlocks & Hflag' & Hthread' & Hglobal').
      destruct IH as (Hthread & Hglobal & Hfree & Hurl & Hread & Hport).
      destruct (smtp_config_keeps_url_terminated _ _ _ _ _ w wc b' Hconfig
                  Hurl Hread Hport) as (Hurl' & Hread' & Hport').
      unfold stored_config in Hstored.
      injection Hstored as _ Hsame_url Hsame_port _ _.
      unfold globals_consistent.
      rewrite Hflag', Hthread', Hglobal', Hthread, Hglobal, Hflag,
        Hsame_url, Hsame_port.
      split; [destruct r; reflexivity |].
      split; [destruct r; reflexivity |].
      split; [exact (locks_free_fmap _ _ Hlocks Hfree) |].
      auto.
  - destruct IH as (Hthread & Hglobal & Hfree & Hurl & Hread & Hport).
    unfold smtp_reconfig in Hrun.
    destruct (smtp_config_keeps_url_terminated _ _ _ _ _ w w' r Hrun
                Hurl Hread Hport) as (Hurl' & Hread' & Hport').
    apply smtp_config_frame in Hrun
      as (Hflag' & Hthread' & Hslots' & _ & _ & Hglobal' & _).
    unfold globals_consistent.
    rewrite Hflag', Hthread', Hslots', Hglobal'. auto 10.
  - apply (globals_consistent_of_globals w); [| exact IH].
    exact (smtp_send_email_keeps_globals (globals w) _ _ _ _ _ _ _ w tt w'
             eq_refl Hrun).
  - apply (globals_consistent_of_globals w); [| exact IH].
    exact (smtp_consumer_round_keeps_globals (globals w) _ w tt w' eq_refl Hrun).
  - destruct (is_curl_initialized w) eqn:Hflag.
    + destruct (reachable_lifecycle w Hreach) as (_ & _ & Hpool).
      destruct (Hpool Hflag) as (h0 & h1 & Hready).
      destruct (smtp_cleanup_ordered w h0 h1 Hready)
        as (w1 & Hrun1 & _ & Hflag' & Hthread' & _ & _ & Hslots' & Hglobal'
            & Hconfig').
      rewrite Hrun in Hrun1. injection Hrun1 as <-.
      destruct IH as (Hthread & Hglobal & Hfree & Hurl & Hread & Hport).
      unfold stored_config in Hconfig'.
      injection Hconfig' as _ Hsame_url Hsame_port _ _.
      unfold globals_consistent.
      rewrite Hflag', Hthread', Hslots', Hglobal', Hglobal, Hflag,
        Hsame_url, Hsame_port.
      auto 10.
    + rewrite (smtp_cleanup_uninitialized w Hflag) in Hrun.
      injection Hrun as <-. exact IH.
Qed.

(** X9.  Between calls the server holds its pool together: the array has
    its two slots, every allocated address was handed out by the allocator,
    and while the flag is set the two slots hold two different multi
    handles, both allocated. *)
Theorem initialized_pool_is_live (w : world) :
  reachable w ->
  length (handles_and_mutexes w) = POOL_SIZE /\
  heap_fresh w /\
  (is_curl_initialized w = true ->
   exists h0 h1 a0 q0 a1 q1,
     curl_multi_handle <$> handles_and_mutexes w = [Some h0; Some h1] /\
     h0 <> h1 /\
     heap w !! h0 = Some (MultiHandle a0 q0) /\
     heap w !! h1 = Some (MultiHandle a1 q1)).
Proof.
  intros Hreach.
  destruct (reachable_lifecycle w Hreach) as (Hfresh & Hlen & Hpool).
  split; [exact Hlen |]. split; [exact Hfresh |].
  intros Hflag.
  destruct (Hpool Hflag)
    as (h0 & h1 & (_ & _ & Hslots) & Hne & [(o0 & Hh0 & Hk0) _] & [(o1 & Hh1 & Hk1) _]).
  destruct o0 as [| a0 q0 | |]; try discriminate Hk0.
  destruct o1 as [| a1 q1 | |]; try discriminate Hk1.
  exists h0, h1, a0, q0, a1, q1. auto.
Qed.

Lemma reachable_initialized_world : reachable initialized_world.
Proof.
  apply (reachable_init (Some "/ca.pem") (Some "mail.example.com") 587
                        (Some "user") (Some "pw") (initial_world [] []) true).
  - apply reachable_start.
  - vm_compute. reflexivity.
Defined.

Lemma initialized_pool_is_live_witness :
  exists h0 h1,
    curl_multi_handle <$> handles_and_mutexes initialized_world = [Some h0; Some h1] /\
    h0 <> h1.
Proof.
  destruct (initialized_pool_is_live initialized_world reachable_initialized_world)
    as (_ & _ & Hpool).
  destruct Hpool as (h0 & h1 & a0 & q0 & a1 & q1 & Hslots & Hne & _);
    [vm_compute; reflexivity |].
  exists h0, h1. auto.
Defined.

(** X10.  Between calls the thread object runs the poller exactly while the
    flag is set, libcurl's global context has been initialised once exactly
    while the flag is set (every [curl_global_init] that succeeded is
    matched by one [curl_global_cleanup]), and no mutex of the pool is held. *)
Theorem thread_and_context_follow_the_flag (w : world) :
  reachable w ->
  smtp_thread w = is_curl_initialized w /\
  curl_global w = (if is_curl_initialized w then 1 else 0)%nat /\
  Forall (fun s => mutex_locked s = false) (handles_and_mutexes w).
Proof.
  intros Hreach.
  destruct (reachable_globals_consistent w Hreach) as (H1 & H2 & H3 & _).
  auto.
Qed.

Lemma thread_and_context_follow_the_flag_witness :
  smtp_thread initialized_world = true /\
  curl_global initialized_world = 1%nat.
Proof.
  destruct (thread_and_context_follow_the_flag initialized_world
              reachable_initialized_world) as (Hthread & Hglobal & _).
  split; [exact Hthread | exact Hglobal].
Defined.

(** X11.  Between calls the array [smtp_server_url] has its 512 bytes and
    holds a terminator, so that reading it as a C string stops inside the
    array, after at most 511 characters; and the stored port is at most
    65535.  This holds whatever hosts and ports the calls were given. *)
Theorem server_url_stays_terminated (w : world) :
  reachable w ->
  length (smtp_server_url w) = SMTP_SERVER_URL_SIZE /\
  (String.length (read_c_string (smtp_server_url w)) < SMTP_SERVER_URL_SIZE)%nat /\
  smtp_port w <= 65535.
Proof.
  intros Hreach.
  destruct (reachable_globals_consistent w Hreach) as (_ & _ & _ & H4 & H5 & H6).
  auto.
Qed.

Lemma server_url_stays_terminated_witness :
  length (smtp_server_url initialized_world) = SMTP_SERVER_URL_SIZE /\
  (String.length (read_c_string (smtp_server_url initialized_world))
     < SMTP_SERVER_URL_SIZE)%nat.
Proof.
  destruct (server_url_stays_terminated initialized_world
              reachable_initialized_world) as (Hlen & Hread & _).
  split; [exact Hlen | exact Hread].
Defined.

(** ** The poller on a finished transfer *)

Lemma smtp_consumer_reap_releases_witness :
  exists w',
    smtp_consumer_reap 2 (Some 1%positive) finished_world = Some (tt, w') /\
    heap w' !! 3%positive = None /\
    heap w' !! 4%positive = None /\
    heap w' !! 2%positive = Some (MultiHandle [] []).
Proof.
  destruct (smtp_consumer_reap_releases 1%positive
              [mk_CURLMsg CURLMSG_DONE 3%positive] [4%positive]
              finished_world [3%positive])
    as (w' & Hrun & _ & Heasy & Hlists & Hframe & _).
  - vm_compute. reflexivity.
  - constructor; [| constructor].
    split; [reflexivity |].
    exists (<[CURLOPT_PRIVATE := OptPointer (Some 4%positive)]> ∅),
           ["<bob@example.com>"%string].
    repeat split; vm_compute; reflexivity.
  - cbn. apply NoDup_singleton.
  - apply NoDup_singleton.
  - exists w'. split; [exact Hrun |].
    split; [apply Heasy; cbn; left |].
    split; [apply Hlists; left |].
    rewrite Hframe.
    + vm_compute. reflexivity.
    + discriminate.
    + cbn. intros Hin. apply list_elem_of_singleton in Hin. discriminate.
    + intros Hin. apply list_elem_of_singleton in Hin. discriminate.
Defined.

(** ** A visit of the poller to one slot *)

Lemma filter_none {A} (P : A -> Prop) `{forall x, Decision (P x)} (l : list A) :
  (forall x, x ∈ l -> ~ P x) -> filter P l = [].
Proof.
  induction l as [|x l IH]; intros Hnone; [reflexivity |].
  rewrite filter_cons_False by (apply Hnone; left).
  apply IH. intros y Hy. apply Hnone. right. exact Hy.
Qed.

Section VisitSteps.

Variable w : world.

Lemma mutex_try_lock_held (i : nat) (s : slot) :
  handles_and_mutexes w !! i = Some s ->
  mutex_locked s = true ->
  mutex_try_lock i w = Some (false, w).
Proof.
  intros Hs Hheld. unfold mutex_try_lock, get_slot, bind. rewrite Hs, Hheld.
  reflexivity.
Qed.

Lemma mutex_try_lock_free (i : nat) (s : slot) :
  handles_and_mutexes w !! i = Some s ->
  mutex_locked s = false ->
  mutex_try_lock i w =
    Some (true,
          set_handles_and_mutexes
            (<[i := mk_slot (curl_multi_handle s) true]> (handles_and_mutexes w)) w).
Proof.
  intros Hs Hfree. unfold mutex_try_lock, get_slot, bind. rewrite Hs, Hfree.
  reflexivity.
Qed.

Lemma mutex_unlock_held (i : nat) (s : slot) :
  handles_and_mutexes w !! i = Some s ->
  mutex_locked s = true ->
  mutex_unlock i w =
    Some (tt,
          set_handles_and_mutexes
            (<[i := mk_slot (curl_multi_handle s) false]> (handles_and_mutexes w)) w).
Proof.
  intros Hs Hheld. unfold mutex_unlock, get_slot, bind. rewrite Hs, Hheld.
  reflexivity.
Qed.

(** [curl_multi_perform] when none of the transfers added to the handle
    finishes. *)
Lemma curl_multi_perform_idle (h : ptr) (attached : list ptr) :
  heap w !! h = Some (MultiHandle attached []) ->
  (forall e, e ∈ attached -> e ∉ (hd (-1, []) (rounds w)).2) ->
  curl_multi_perform (Some h) w =
    Some (Z.of_nat (length attached),
          set_rounds (tl (rounds w))
            (set_trace (trace w ++ [EvMultiPerform (Some h)]) w)).
Proof.
  intros Hh Hnone.
  destruct w as [flag thread slots c1 c2 c3 c4 c5 hp nx glob flts rnds tr].
  cbn [heap rounds] in Hh, Hnone.
  assert (Hnewly : forall finishing : list ptr,
    (forall e, e ∈ attached -> e ∉ finishing) ->
    filter (fun e => e ∈ finishing /\ e ∉ []) attached = []).
  { intros finishing Hout. apply filter_none. intros e He [Hin _].
    exact (Hout e He Hin). }
  unfold curl_multi_perform, next_round, load_multi, load, store, bind, ret,
    emit, modify.
  cbn [heap rounds trace set_trace set_rounds set_heap fst snd].
  destruct rnds as [|[t finishing] rest];
    cbn [heap rounds trace set_trace set_rounds set_heap fst snd hd tl] in *;
    rewrite Hh; cbn [heap rounds trace set_trace set_rounds set_heap fst snd];
    rewrite Hh; cbn [fmap list_fmap app];
    rewrite (Hnewly _ Hnone); cbn [fmap list_fmap app length];
    rewrite insert_id by exact Hh;
    do 3 f_equal; lia.
Qed.

Lemma curl_multi_timeout_run (h : ptr) (timeout : Z) :
  curl_multi_timeout (Some h) timeout w =
    Some ((hd (-1, []) (rounds w)).1,
          set_trace (trace w ++ [EvMultiTimeout (Some h) (hd (-1, []) (rounds w)).1]) w).
Proof.
  unfold curl_multi_timeout, bind, gets, emit, modify, ret.
  destruct (rounds w) as [|[t finishing] rest]; reflexivity.
Qed.

End VisitSteps.

(** X3.  A visit of the poller to a slot whose mutex is held changes
    nothing and makes no library call: the poller does not wait for the
    mutex.  A visit to a free slot whose multi handle has no finished
    transfer asks libcurl for its timeout, polls with that timeout, or with
    1000 ms when libcurl reports none (-1), performs, finds the queue empty
    and releases the mutex: the heap, the slots and every other global are
    as before. *)
Theorem smtp_consumer_visit_skips_or_polls (w : world) (fuel i : nat) (s : slot) :
  handles_and_mutexes w !! i = Some s ->
  (mutex_locked s = true -> smtp_consumer_visit fuel i w = Some (None, w)) /\
  (forall h attached,
     mutex_locked s = false ->
     curl_multi_handle s = Some h ->
     heap w !! h = Some (MultiHandle attached []) ->
     (forall e, e ∈ attached -> e ∉ (hd (-1, []) (rounds w)).2) ->
     let t := (hd (-1, []) (rounds w)).1 in
     exists w',
       smtp_consumer_visit (S fuel) i w = Some (None, w') /\
       globals w' = globals w /\
       heap w' = heap w /\
       next_ptr w' = next_ptr w /\
       rounds w' = tl (rounds w) /\
       trace w' = trace w ++
         [EvMultiTimeout (Some h) t;
          EvMultiPoll (Some h) (if t =? -1 then SMTP_TIMEOUT_DEFAULT else t);
          EvMultiPerform (Some h)]).
Proof.
  intros Hs. split.
  - intros Hheld. unfold smtp_consumer_visit.
    run_with (apply get_slot_run; exact Hs).
    run_with (eapply mutex_try_lock_held; [exact Hs | exact Hheld]).
    reflexivity.
  - intros h attached Hfree Hhandle Hh Hnone t.
    destruct s as [handle locked]. cbn [mutex_locked curl_multi_handle] in *.
    subst handle locked.
    destruct w as [flag thread slots c1 c2 c3 c4 c5 hp nx glob flts rnds tr].
    cbn [handles_and_mutexes heap rounds] in Hs, Hh, Hnone, t.
    assert (Hi : (i < length slots)%nat) by (eapply lookup_lt_Some; exact Hs).
    eexists. split.
    { unfold smtp_consumer_visit.
      run_with (apply get_slot_run; exact Hs).
      run_with (eapply mutex_try_lock_free; [exact Hs | reflexivity]).
      cbn [negb curl_multi_handle].
      run_with (apply curl_multi_timeout_run).
      fold t.
      run_with (reflexivity).
      run_with (eapply curl_multi_perform_idle; [exact Hh | exact Hnone]).
      run_with (cbn [smtp_consumer_reap];
                run_with (eapply curl_multi_info_read_empty; exact Hh);
                reflexivity).
      run_with (eapply mutex_unlock_held;
                [normalize_world; apply list_lookup_insert_eq; exact Hi
                | reflexivity]).
      reflexivity. }
    normalize_world. cbn [curl_multi_handle fst].
    rewrite list_insert_insert_eq, (list_insert_id _ _ _ Hs).
    split; [reflexivity |]. split; [reflexivity |]. split; [reflexivity |].
    split; [reflexivity |].
    rewrite <- !app_assoc. reflexivity.
Qed.

Lemma smtp_consumer_visit_skips_or_polls_witness :
  smtp_consumer_visit 1 0 finished_world = Some (None, finished_world) /\
  exists w',
    smtp_consumer_visit 1 1 finished_world = Some (None, w') /\
    trace w' = [EvMultiTimeout (Some 2%positive) (-1);
                EvMultiPoll (Some 2%positive) 1000;
                EvMultiPerform (Some 2%positive)].
Proof.
  split.
  - destruct (smtp_consumer_visit_skips_or_polls finished_world 1 0
                (mk_slot (Some 1%positive) true) eq_refl) as [Hskip _].
    apply Hskip. reflexivity.
  - destruct (smtp_consumer_visit_skips_or_polls finished_world 0 1
                (mk_slot (Some 2%positive) false) eq_refl) as [_ Hpolls].
    destruct (Hpolls 2%positive []) as (w' & Hrun & _ & _ & _ & _ & Htrace).
    + reflexivity.
    + reflexivity.
    + vm_compute. reflexivity.
    + intros e He. inversion He.
    + exists w'. split; [exact Hrun | exact Htrace].
Defined.

(** ** The error paths of a submission *)

Section SendFailures.

Variable w : world.

Lemma curl_easy_init_fails :
  call_succeeds 0 w = false ->
  curl_easy_init w =
    Some (None,
          set_trace (trace w ++ [EvEasyInit None]) (set_faults (tl (faults w)) w)).
Proof.
  intros Hok. unfold curl_easy_init, bind. rewrite next_fault_run, Hok.
  reflexivity.
Qed.

Lemma curl_slist_append_fails (l : option ptr) (s : string) :
  call_succeeds 0 w = false ->
  curl_slist_append l s w =
    Some (None,
          set_trace (trace w ++ [EvSlistAppend None]) (set_faults (tl (faults w)) w)).
Proof.
  intros Hok. unfold curl_slist_append, bind. rewrite next_fault_run, Hok.
  reflexivity.
Qed.

Lemma must_format_angle (s : string) :
  must_format "<{}>" [ArgString s] w = Some ("<" +:+ s +:+ ">", w).
Proof. reflexivity. Qed.

End SendFailures.

(** X6.  With the flag set, a submission for which [curl_easy_init] fails
    logs the failure and returns with nothing allocated.  One for which
    [curl_slist_append] fails logs the failure and returns too, and the easy
    handle it had created, with the seven options set so far, is still
    allocated: this path does not call [curl_easy_cleanup], and the handle
    was added to no multi handle, so that the poller never sees it. *)
Theorem smtp_send_email_error_paths (w : world)
    (spins : nat) (now : tm)
    (to_address from_address from_name subject body : string) :
  is_curl_initialized w = true ->
  (call_succeeds 0 w = false ->
   exists w',
     smtp_send_email spins now to_address from_address from_name subject body w
       = Some (tt, w') /\
     heap w' = heap w /\
     next_ptr w' = next_ptr w /\
     trace w' = trace w ++
       [EvEasyInit None;
        EvLog eventlog_level_error "smtp_send_email"
          "Failed to initialize CURL easy handle" []]) /\
  (call_succeeds 0 w = true ->
   call_succeeds 1 w = false ->
   exists w',
     smtp_send_email spins now to_address from_address from_name subject body w
       = Some (tt, w') /\
     heap w' =
       <[next_ptr w :=
           EasyHandle
             (<[CURLOPT_MAIL_FROM := OptString (as_c_string ("<" +:+ from_address +:+ ">"))]>
             (<[CURLOPT_PASSWORD := OptString (as_c_string (smtp_password w))]>
             (<[CURLOPT_USERNAME := OptString (as_c_string (smtp_username w))]>
             (<[CURLOPT_PORT := OptLong (smtp_port w)]>
             (<[CURLOPT_URL := OptString (read_c_string (smtp_server_url w))]>
             (<[CURLOPT_CAINFO := OptString (as_c_string (smtp_ca_cert_store w))]>
             (<[CURLOPT_USE_SSL := OptLong CURLUSESSL_ALL]> ∅)))))))]>
         (heap w) /\
     next_ptr w' = Pos.succ (next_ptr w) /\
     trace w' = trace w ++
       [EvEasyInit (Some (next_ptr w)); EvSlistAppend None;
        EvLog eventlog_level_error "smtp_send_email"
          "Failed to append recipient address to recipient list" []]).
Proof.
  intros Hflag.
  destruct w as [flag thread slots c1 c2 c3 c4 c5 hp nx glob flts rnds tr].
  unfold call_succeeds. cbn [is_curl_initialized faults] in *. subst flag.
  split.
  - intros H0. eexists. split.
    { unfold smtp_send_email.
      run_with (reflexivity). cbn [negb].
      run_with (apply curl_easy_init_fails; script_says).
      run_with (reflexivity).
      reflexivity. }
    normalize_world.
    split; [reflexivity |]. split; [reflexivity |].
    rewrite <- !app_assoc. reflexivity.
  - intros H0 H1. eexists. split.
    { unfold smtp_send_email.
      run_with (reflexivity). cbn [negb].
      run_with (apply curl_easy_init_ok; script_says).
      run_with (eapply curl_easy_setopt_run; heap_lookup).
      run_with (reflexivity).
      run_with (eapply curl_easy_setopt_run; heap_lookup).
      run_with (reflexivity).
      run_with (eapply curl_easy_setopt_run; heap_lookup).
      run_with (reflexivity).
      run_with (eapply curl_easy_setopt_run; heap_lookup).
      run_with (reflexivity).
      run_with (eapply curl_easy_setopt_run; heap_lookup).
      run_with (reflexivity).
      run_with (eapply curl_easy_setopt_run; heap_lookup).
      run_with (apply must_format_angle).
      run_with (eapply curl_easy_setopt_run; heap_lookup).
      run_with (apply must_format_angle).
      run_with (apply curl_slist_append_fails; script_says).
      run_with (reflexivity).
      reflexivity. }
    normalize_world.
    split; [rewrite !insert_insert_eq; reflexivity |].
    split; [reflexivity |].
    rewrite <- !app_assoc. reflexivity.
Qed.

Lemma smtp_send_email_error_paths_witness :
  exists w',
    smtp_send_email 1 sample_now "bob@example.com" "noreply@pvpgn.pro"
                    "PvPGN" "Hi" "Body" (set_faults [true; false] initialized_world)
      = Some (tt, w') /\
    next_ptr w' = 4%positive.
Proof.
  destruct (smtp_send_email_error_paths (set_faults [true; false] initialized_world)
              1 sample_now "bob@example.com" "noreply@pvpgn.pro"
              "PvPGN" "Hi" "Body") as [_ Hlist].
  - vm_compute. reflexivity.
  - destruct Hlist as (w' & Hrun & _ & Hnext & _).
    + reflexivity.
    + reflexivity.
    + exists w'. split; [exact Hrun |]. rewrite Hnext. vm_compute. reflexivity.
Defined.

(** ** Initialisation, step by step *)

Section InitSteps.

Variable w : world.

Lemma curl_multi_init_ok :
  call_succeeds 0 w = true ->
  curl_multi_init w =
    Some (Some (next_ptr w),
          set_trace (trace w ++ [EvMultiInit (Some (next_ptr w))])
            (set_next_ptr (Pos.succ (next_ptr w))
               (set_heap (<[next_ptr w := MultiHandle [] []]> (heap w))
                  (set_faults (tl (faults w)) w)))).
Proof.
  intros Hok. unfold curl_multi_init, bind. rewrite next_fault_run, Hok.
  reflexivity.
Qed.

Lemma curl_multi_init_fails :
  call_succeeds 0 w = false ->
  curl_multi_init w =
    Some (None,
          set_trace (trace w ++ [EvMultiInit None]) (set_faults (tl (faults w)) w)).
Proof.
  intros Hok. unfold curl_multi_init, bind. rewrite next_fault_run, Hok.
  reflexivity.
Qed.

Lemma curl_global_init_ok (flags : Z) :
  call_succeeds 0 w = true ->
  curl_global_init flags w =
    Some (CURLE_OK,
          set_trace (trace w ++ [EvGlobalInit flags CURLE_OK])
            (set_curl_global (S (curl_global w)) (set_faults (tl (faults w)) w))).
Proof.
  intros Hok. unfold curl_global_init, bind. rewrite next_fault_run, Hok.
  reflexivity.
Qed.

Lemma curl_global_init_fails (flags : Z) :
  call_succeeds 0 w = false ->
  curl_global_init flags w =
    Some (CURLE_FAILED_INIT,
          set_trace (trace w ++ [EvGlobalInit flags CURLE_FAILED_INIT])
            (set_faults (tl (faults w)) w)).
Proof.
  intros Hok. unfold curl_global_init, bind. rewrite next_fault_run, Hok.
  reflexivity.
Qed.

(** The body of the loop of [smtp_init] for the slot at index [i]. *)
Lemma init_slot_ok (i : nat) (s : slot) :
  call_succeeds 0 w = true ->
  handles_and_mutexes w !! i = Some s ->
  (let* h := curl_multi_init in
   let* s := get_slot i in
   put_slot i (mk_slot h (mutex_locked s));;
   match h with
   | None =>
       eventlog eventlog_level_error "smtp_init"
         "Failed to initialize curl multi handle" [];;
       ret (Some false)
   | Some _ => ret None
   end) w =
    Some (None,
          set_handles_and_mutexes
            (<[i := mk_slot (Some (next_ptr w)) (mutex_locked s)]>
               (handles_and_mutexes w))
            (set_trace (trace w ++ [EvMultiInit (Some (next_ptr w))])
               (set_next_ptr (Pos.succ (next_ptr w))
                  (set_heap (<[next_ptr w := MultiHandle [] []]> (heap w))
                     (set_faults (tl (faults w)) w))))).
Proof.
  intros Hok Hs. unfold bind at 1. rewrite (curl_multi_init_ok Hok).
  unfold bind at 1, get_slot. cbn [handles_and_mutexes set_trace set_next_ptr
    set_heap set_faults]. rewrite Hs. reflexivity.
Qed.

Lemma init_slot_fails (i : nat) (s : slot) :
  call_succeeds 0 w = false ->
  handles_and_mutexes w !! i = Some s ->
  (let* h := curl_multi_init in
   let* s := get_slot i in
   put_slot i (mk_slot h (mutex_locked s));;
   match h with
   | None =>
       eventlog eventlog_level_error "smtp_init"
         "Failed to initialize curl multi handle" [];;
       ret (Some false)
   | Some _ => ret None
   end) w =
    Some (Some false,
          set_trace
            ((trace w ++ [EvMultiInit None])
               ++ [EvLog eventlog_level_error "smtp_init"
                     "Failed to initialize curl multi handle" []])
            (set_handles_and_mutexes
               (<[i := mk_slot None (mutex_locked s)]> (handles_and_mutexes w))
               (set_faults (tl (faults w)) w))).
Proof.
  intros Hok Hs. unfold bind at 1. rewrite (curl_multi_init_fails Hok).
  unfold bind at 1, get_slot. cbn [handles_and_mutexes set_trace set_next_ptr
    set_heap set_faults]. rewrite Hs. reflexivity.
Qed.

End InitSteps.

(** Runs [smtp_config] on valid arguments; [Hbuf] names the array it
    leaves. *)
Ltac run_config port_ok Hbuf :=
  erewrite bind_run; [| apply smtp_config_accepts; exact port_ok];
  cbv beta iota delta [smtp_server_url]; rewrite <- Hbuf; normalize_world.

Section InitRuns.

Variables ca url user pw : string.
Variable port : Z.
Hypothesis port_ok : port <= 65535.

(** Every library call succeeds. *)
Lemma smtp_init_run_ok (w : world) :
  is_curl_initialized w = false ->
  length (handles_and_mutexes w) = POOL_SIZE ->
  call_succeeds 0 w = true ->
  call_succeeds 1 w = true ->
  call_succeeds 2 w = true ->
  exists w',
    smtp_init (Some ca) (Some url) port (Some user) (Some pw) w = Some (true, w') /\
    curl_multi_handle <$> handles_and_mutexes w'
      = [Some (next_ptr w); Some (Pos.succ (next_ptr w))] /\
    mutex_locked <$> handles_and_mutexes w' = mutex_locked <$> handles_and_mutexes w /\
    heap w' = <[Pos.succ (next_ptr w) := MultiHandle [] []]>
                (<[next_ptr w := MultiHandle [] []]> (heap w)) /\
    next_ptr w' = Pos.succ (Pos.succ (next_ptr w)) /\
    is_curl_initialized w' = true /\
    smtp_thread w' = true /\
    curl_global w' = S (curl_global w) /\
    stored_config w'
      = (ca, snprintf (smtp_server_url w) SMTP_SERVER_URL_SIZE "smtps://%s" [url],
         port, user, pw) /\
    trace w' = trace w ++ [EvMultiInit (Some (next_ptr w));
                           EvMultiInit (Some (Pos.succ (next_ptr w)));
                           EvGlobalInit CURL_GLOBAL_NOTHING CURLE_OK;
                           EvThreadStart; EvStoreInitialized true].
Proof.
  intros Hflag Hlen H0 H1 H2.
  destruct w as [flag thread slots c1 c2 c3 c4 c5 hp nx glob flts rnds tr].
  unfold call_succeeds in H0, H1, H2.
  cbn [is_curl_initialized handles_and_mutexes faults] in Hflag, Hlen, H0, H1, H2.
  subst flag.
  destruct slots as [|s0 [|s1 [|s2 slots]]]; try discriminate Hlen.
  cbv beta iota delta [smtp_server_url].
  remember (snprintf c2 SMTP_SERVER_URL_SIZE "smtps://%s" [url]) as buf eqn:Hbuf.
  eexists. split.
  { unfold smtp_init.
    run_with (reflexivity).
    run_config port_ok Hbuf.
    cbn [negb]. unfold slot_indices, POOL_SIZE. cbn [seq for_each].
    run_with (run_with (eapply init_slot_ok; [script_says | reflexivity]);
              run_with (eapply init_slot_ok; [script_says | reflexivity]);
              reflexivity).
    run_with (apply curl_global_init_ok; script_says).
    cbn [negb Z.eqb CURLE_OK].
    run_with (reflexivity).
    run_with (reflexivity).
    reflexivity. }
  unfold stored_config. normalize_world.
  split; [reflexivity |]. split; [reflexivity |]. split; [reflexivity |].
  split; [reflexivity |]. split; [reflexivity |]. split; [reflexivity |].
  split; [reflexivity |]. split; [reflexivity |].
  rewrite <- !app_assoc. reflexivity.
Qed.

End InitRuns.

Section InitFailures.

Variables ca url user pw : string.
Variable port : Z.
Hypothesis port_ok : port <= 65535.

(** The second [curl_multi_init] fails. *)
Lemma smtp_init_run_second_handle_fails (w : world) :
  is_curl_initialized w = false ->
  length (handles_and_mutexes w) = POOL_SIZE ->
  call_succeeds 0 w = true ->
  call_succeeds 1 w = false ->
  exists w',
    smtp_init (Some ca) (Some url) port (Some user) (Some pw) w = Some (false, w') /\
    curl_multi_handle <$> handles_and_mutexes w' = [Some (next_ptr w); None] /\
    heap w' = <[next_ptr w := MultiHandle [] []]> (heap w) /\
    is_curl_initialized w' = false /\
    smtp_thread w' = smtp_thread w /\
    curl_global w' = curl_global w /\
    stored_config w'
      = (ca, snprintf (smtp_server_url w) SMTP_SERVER_URL_SIZE "smtps://%s" [url],
         port, user, pw) /\
    trace w' = trace w ++ [EvMultiInit (Some (next_ptr w)); EvMultiInit None;
                           EvLog eventlog_level_error "smtp_init"
                             "Failed to initialize curl multi handle" []].
Proof.
  intros Hflag Hlen H0 H1.
  destruct w as [flag thread slots c1 c2 c3 c4 c5 hp nx glob flts rnds tr].
  unfold call_succeeds in H0, H1.
  cbn [is_curl_initialized handles_and_mutexes faults] in Hflag, Hlen, H0, H1.
  subst flag.
  destruct slots as [|s0 [|s1 [|s2 slots]]]; try discriminate Hlen.
  cbv beta iota delta [smtp_server_url].
  remember (snprintf c2 SMTP_SERVER_URL_SIZE "smtps://%s" [url]) as buf eqn:Hbuf.
  eexists. split.
  { unfold smtp_init.
    run_with (reflexivity).
    run_config port_ok Hbuf.
    cbn [negb]. unfold slot_indices, POOL_SIZE. cbn [seq for_each].
    run_with (run_with (eapply init_slot_ok; [script_says | reflexivity]);
              run_with (eapply init_slot_fails; [script_says | reflexivity]);
              reflexivity).
    reflexivity. }
  unfold stored_config. normalize_world.
  split; [reflexivity |]. split; [reflexivity |]. split; [reflexivity |].
  split; [reflexivity |]. split; [reflexivity |]. split; [reflexivity |].
  rewrite <- !app_assoc. reflexivity.
Qed.

(** Both multi handles are created and [curl_global_init] fails. *)
Lemma smtp_init_run_global_init_fails (w : world) :
  is_curl_initialized w = false ->
  length (handles_and_mutexes w) = POOL_SIZE ->
  call_succeeds 0 w = true ->
  call_succeeds 1 w = true ->
  call_succeeds 2 w = false ->
  exists w',
    smtp_init (Some ca) (Some url) port (Some user) (Some pw) w = Some (false, w') /\
    curl_multi_handle <$> handles_and_mutexes w'
      = [Some (next_ptr w); Some (Pos.succ (next_ptr w))] /\
    heap w' = <[Pos.succ (next_ptr w) := MultiHandle [] []]>
                (<[next_ptr w := MultiHandle [] []]> (heap w)) /\
    is_curl_initialized w' = false /\
    smtp_thread w' = smtp_thread w /\
    curl_global w' = curl_global w /\
    stored_config w'
      = (ca, snprintf (smtp_server_url w) SMTP_SERVER_URL_SIZE "smtps://%s" [url],
         port, user, pw) /\
    trace w' = trace w ++ [EvMultiInit (Some (next_ptr w));
                           EvMultiInit (Some (Pos.succ (next_ptr w)));
                           EvGlobalInit CURL_GLOBAL_NOTHING CURLE_FAILED_INIT;
                           EvLog eventlog_level_error "smtp_init"
                             "Failed to initialize curl global context" []].
Proof.
  intros Hflag Hlen H0 H1 H2.
  destruct w as [flag thread slots c1 c2 c3 c4 c5 hp nx glob flts rnds tr].
  unfold call_succeeds in H0, H1, H2.
  cbn [is_curl_initialized handles_and_mutexes faults] in Hflag, Hlen, H0, H1, H2.
  subst flag.
  destruct slots as [|s0 [|s1 [|s2 slots]]]; try discriminate Hlen.
  cbv beta iota delta [smtp_server_url].
  remember (snprintf c2 SMTP_SERVER_URL_SIZE "smtps://%s" [url]) as buf eqn:Hbuf.
  eexists. split.
  { unfold smtp_init.
    run_with (reflexivity).
    run_config port_ok Hbuf.
    cbn [negb]. unfold slot_indices, POOL_SIZE. cbn [seq for_each].
    run_with (run_with (eapply init_slot_ok; [script_says | reflexivity]);
              run_with (eapply init_slot_ok; [script_says | reflexivity]);
              reflexivity).
    run_with (apply curl_global_init_fails; script_says).
    cbn [negb Z.eqb Pos.eqb CURLE_FAILED_INIT].
    run_with (reflexivity).
    reflexivity. }
  unfold stored_config. normalize_world.
  split; [reflexivity |]. split; [reflexivity |]. split; [reflexivity |].
  split; [reflexivity |]. split; [reflexivity |]. split; [reflexivity |].
  rewrite <- !app_assoc. reflexivity.
Qed.

End InitFailures.

(** What a returned [true] tells about the call. *)
Lemma smtp_init_true_inv ca url port user pw (w w' : world) :
  length (handles_and_mutexes w) = POOL_SIZE ->
  smtp_init ca url port user pw w = Some (true, w') ->
  is_curl_initialized w = false /\
  (exists ca' url' user' pw',
     ca = Some ca' /\ url = Some url' /\ user = Some user' /\ pw = Some pw') /\
  port <= 65535 /\
  call_succeeds 0 w = true /\
  call_succeeds 1 w = true /\
  call_succeeds 2 w = true.
Proof.
  intros Hlen Hrun.
  destruct (is_curl_initialized w) eqn:Hflag.
  { rewrite (smtp_init_already_initialized w _ _ _ _ _ Hflag) in Hrun.
    discriminate Hrun. }
  split; [reflexivity |].
  assert (Hvalid :
    (exists ca' url' user' pw',
       ca = Some ca' /\ url = Some url' /\ user = Some user' /\ pw = Some pw') /\
    port <= 65535).
  { destruct ca as [ca'|], url as [url'|], user as [user'|], pw as [pw'|],
      (Z.lt_ge_cases 65535 port) as [Hhigh | Hlow];
      try (split; [eauto 10 | exact Hlow]);
      exfalso;
      (edestruct (smtp_init_refuses w) as [line Hrefused];
       [exact Hflag | | rewrite Hrefused in Hrun; discriminate Hrun]);
      eauto 10. }
  destruct Hvalid as [(ca' & url' & user' & pw' & -> & -> & -> & ->) Hport].
  split; [eauto 10 |]. split; [exact Hport |].
  unfold smtp_init in Hrun.
  apply bind_inv in Hrun as (f & w0 & Hgets & Hrun).
  injection Hgets as <- <-. rewrite Hflag in Hrun.
  apply bind_inv in Hrun as (b & wc & Hconfig & Hrun).
  pose proof Hconfig as Hframe.
  apply smtp_config_frame in Hframe
    as (_ & _ & Hslots' & _ & _ & _ & Hfaults' & _).
  rewrite (smtp_config_accepts w _ _ _ _ _ Hport) in Hconfig.
  injection Hconfig as <- _.
  unfold call_succeeds. rewrite <- Hfaults'. rewrite <- Hslots' in Hlen.
  clear Hfaults' Hslots' Hflag w.
  destruct wc as [flag thread slots c1 c2 c3 c4 c5 hp nx glob flts rnds tr].
  cbn [handles_and_mutexes faults] in *.
  destruct slots as [|s0 [|s1 [|s2 slots]]]; try discriminate Hlen.
  unfold slot_indices, POOL_SIZE in Hrun. cbn [seq for_each negb] in Hrun.
  steps_in Hrun.
  all: unfold CURLE_OK, CURLE_FAILED_INIT in Hrun; cbn [negb Z.eqb Pos.eqb] in Hrun;
    steps_in Hrun.
  all: try discriminate Hrun.
  all: simplify_eq/=.
  all: repeat split; reflexivity.
Qed.

(** X7.  [smtp_init] returns [true] exactly when the flag was clear, the
    four strings are present, the port is at most 65535 and the three
    library calls it makes succeed.  It has then created a multi handle for
    the first slot and one for the second, initialised libcurl's global
    context after that, started the poller thread, and set the flag last,
    after the thread was started; it has made no other library call and
    written no log line, and the mutexes are as they were. *)
Theorem smtp_init_builds_the_pool ca url port user pw (w : world) :
  length (handles_and_mutexes w) = POOL_SIZE ->
  (is_curl_initialized w = false ->
   (exists ca' url' user' pw',
      ca = Some ca' /\ url = Some url' /\ user = Some user' /\ pw = Some pw') ->
   port <= 65535 ->
   call_succeeds 0 w = true ->
   call_succeeds 1 w = true ->
   call_succeeds 2 w = true ->
   exists w', smtp_init ca url port user pw w = Some (true, w')) /\
  (forall w',
     smtp_init ca url port user pw w = Some (true, w') ->
     is_curl_initialized w = false /\
     (exists ca' url' user' pw',
        ca = Some ca' /\ url = Some url' /\ user = Some user' /\ pw = Some pw') /\
     port <= 65535 /\
     call_succeeds 0 w = true /\
     call_succeeds 1 w = true /\
     call_succeeds 2 w = true /\
     curl_multi_handle <$> handles_and_mutexes w'
       = [Some (next_ptr w); Some (Pos.succ (next_ptr w))] /\
     mutex_locked <$> handles_and_mutexes w' = mutex_locked <$> handles_and_mutexes w /\
     heap w' = <[Pos.succ (next_ptr w) := MultiHandle [] []]>
                 (<[next_ptr w := MultiHandle [] []]> (heap w)) /\
     next_ptr w' = Pos.succ (Pos.succ (next_ptr w)) /\
     is_curl_initialized w' = true /\
     smtp_thread w' = true /\
     curl_global w' = S (curl_global w) /\
     trace w' = trace w ++ [EvMultiInit (Some (next_ptr w));
                            EvMultiInit (Some (Pos.succ (next_ptr w)));
                            EvGlobalInit CURL_GLOBAL_NOTHING CURLE_OK;
                            EvThreadStart; EvStoreInitialized true]).
Proof.
  intros Hlen. split.
  - intros Hflag (ca' & url' & user' & pw' & -> & -> & -> & ->) Hport H0 H1 H2.
    destruct (smtp_init_run_ok ca' url' user' pw' port Hport w Hflag Hlen H0 H1 H2)
      as (w' & Hrun & _).
    exists w'. exact Hrun.
  - intros w' Hrun.
    destruct (smtp_init_true_inv _ _ _ _ _ w w' Hlen Hrun)
      as (Hflag & Hvalid & Hport & H0 & H1 & H2).
    split; [exact Hflag |]. split; [exact Hvalid |]. split; [exact Hport |].
    split; [exact H0 |]. split; [exact H1 |]. split; [exact H2 |].
    destruct Hvalid as (ca' & url' & user' & pw' & -> & -> & -> & ->).
    destruct (smtp_init_run_ok ca' url' user' pw' port Hport w Hflag Hlen H0 H1 H2)
      as (w1 & Hrun1 & Hhandles & Hlocks & Hheap & Hnext & Hflag' & Hthread'
          & Hglobal & _ & Htrace).
    rewrite Hrun in Hrun1. injection Hrun1 as <-.
    auto 10.
Qed.

Lemma smtp_init_builds_the_pool_witness :
  exists w',
    smtp_init (Some "/ca.pem") (Some "mail.example.com") 587
              (Some "user") (Some "pw") (initial_world [] []) = Some (true, w') /\
    trace w' = [EvMultiInit (Some 1%positive); EvMultiInit (Some 2%positive);
                EvGlobalInit CURL_GLOBAL_NOTHING CURLE_OK;
                EvThreadStart; EvStoreInitialized true].
Proof.
  destruct (smtp_init_builds_the_pool (Some "/ca.pem") (Some "mail.example.com") 587
              (Some "user") (Some "pw") (initial_world [] []) eq_refl)
    as [Hreturns Hbuilt].
  destruct Hreturns as [w' Hrun]; try reflexivity.
  - eexists _, _, _, _. repeat split.
  - lia.
  - exists w'. split; [exact Hrun |].
    destruct (Hbuilt w' Hrun) as (_ & _ & _ & _ & _ & _ & _ & _ & _ & _ & _ & _ & _ & Htrace).
    exact Htrace.
Defined.

(** X8.  When a later step of [smtp_init] fails, what the earlier steps
    did stays done: the new configuration is stored, and the multi handles
    created so far stay allocated and stay in their slots, without a call
    of [curl_multi_cleanup].  This holds when the second [curl_multi_init]
    fails, which leaves the first handle in the first slot and null in the
    second, and when [curl_global_init] fails, which leaves both.  The flag
    stays clear and no thread is started, so that a following
    [smtp_cleanup] does nothing and releases none of them. *)
Theorem smtp_init_failure_is_not_undone (ca url user pw : string) (port : Z)
    (w : world) :
  port <= 65535 ->
  is_curl_initialized w = false ->
  length (handles_and_mutexes w) = POOL_SIZE ->
  call_succeeds 0 w = true ->
  (call_succeeds 1 w = false ->
   exists w',
     smtp_init (Some ca) (Some url) port (Some user) (Some pw) w = Some (false, w') /\
     curl_multi_handle <$> handles_and_mutexes w' = [Some (next_ptr w); None] /\
     heap w' = <[next_ptr w := MultiHandle [] []]> (heap w) /\
     is_curl_initialized w' = false /\
     smtp_thread w' = smtp_thread w /\
     stored_config w'
       = (ca, snprintf (smtp_server_url w) SMTP_SERVER_URL_SIZE "smtps://%s" [url],
          port, user, pw) /\
     trace w' = trace w ++ [EvMultiInit (Some (next_ptr w)); EvMultiInit None;
                            EvLog eventlog_level_error "smtp_init"
                              "Failed to initialize curl multi handle" []] /\
     smtp_cleanup w' = Some (tt, w')) /\
  (call_succeeds 1 w = true ->
   call_succeeds 2 w = false ->
   exists w',
     smtp_init (Some ca) (Some url) port (Some user) (Some pw) w = Some (false, w') /\
     curl_multi_handle <$> handles_and_mutexes w'
       = [Some (next_ptr w); Some (Pos.succ (next_ptr w))] /\
     heap w' = <[Pos.succ (next_ptr w) := MultiHandle [] []]>
                 (<[next_ptr w := MultiHandle [] []]> (heap w)) /\
     is_curl_initialized w' = false /\
     smtp_thread w' = smtp_thread w /\
     stored_config w'
       = (ca, snprintf (smtp_server_url w) SMTP_SERVER_URL_SIZE "smtps://%s" [url],
          port, user, pw) /\
     trace w' = trace w ++ [EvMultiInit (Some (next_ptr w));
                            EvMultiInit (Some (Pos.succ (next_ptr w)));
                            EvGlobalInit CURL_GLOBAL_NOTHING CURLE_FAILED_INIT;
                            EvLog eventlog_level_error "smtp_init"
                              "Failed to initialize curl global context" []] /\
     smtp_cleanup w' = Some (tt, w')).
Proof.
  intros Hport Hflag Hlen H0. split.
  - intros H1.
    destruct (smtp_init_run_second_handle_fails ca url user pw port Hport w
                Hflag Hlen H0 H1)
      as (w' & Hrun & Hhandles & Hheap & Hflag' & Hthread & _ & Hconfig & Htrace).
    exists w'. do 7 (split; [assumption |]).
    apply smtp_cleanup_uninitialized. exact Hflag'.
  - intros H1 H2.
    destruct (smtp_init_run_global_init_fails ca url user pw port Hport w
                Hflag Hlen H0 H1 H2)
      as (w' & Hrun & Hhandles & Hheap & Hflag' & Hthread & _ & Hconfig & Htrace).
    exists w'. do 7 (split; [assumption |]).
    apply smtp_cleanup_uninitialized. exact Hflag'.
Qed.

Lemma smtp_init_failure_is_not_undone_witness :
  exists w',
    smtp_init (Some "/ca.pem") (Some "mail.example.com") 587
              (Some "user") (Some "pw") (initial_world [true; true; false] [])
      = Some (false, w') /\
    curl_multi_handle <$> handles_and_mutexes w'
      = [Some 1%positive; Some 2%positive] /\
    smtp_cleanup w' = Some (tt, w').
Proof.
  destruct (smtp_init_failure_is_not_undone "/ca.pem" "mail.example.com" "user" "pw"
              587 (initial_world [true; true; false] []))
    as [_ Hglobal]; try reflexivity.
  - lia.
  - destruct Hglobal as (w' & Hrun & Hhandles & _ & _ & _ & _ & _ & Hcleanup);
      try reflexivity.
    exists w'. auto.
Defined.
